(** * blade.target: the target dependency graph engine

    A shallow embedding of [src/blade/target.py] (Python 3 semantics) and
    the properties of its normalizer, source ownership registry,
    dependency resolver, rule fingerprint and rule emission cache.

    Python strings are modelled as lists of characters with code points
    below 256 ([list ascii]); a string literal is coerced to such a list. *)

From Stdlib Require Import Ascii String List ZArith Lia Bool DecimalString.
From stdpp Require Import base option list gmap strings.

Set Warnings "-register-all".
Set Warnings "-notation-for-abbreviation".

Abbreviation str := (list ascii).
Coercion list_ascii_of_string : string >-> list.

(** ** Python built-ins used by the module *)

Module Py.

(** [s.startswith(p)] *)
Fixpoint startswith (s p : str) {struct p} : bool :=
  match p, s with
  | [], _ => true
  | c :: p', d :: s' => Ascii.eqb c d && startswith s' p'
  | _ :: _, [] => false
  end.

(** [s.endswith(p)] *)
Definition endswith (s p : str) : bool := startswith (rev s) (rev p).

(** [sub in s] for strings *)
Fixpoint contains (s sub : str) : bool :=
  startswith s sub ||
  match s with
  | [] => false
  | _ :: s' => contains s' sub
  end.

(** [c in s] for a single character [c] *)
Definition has_char (c : ascii) (s : str) : bool := existsb (Ascii.eqb c) s.

(** [s.count(c)] for a single character [c] *)
Definition count (c : ascii) (s : str) : nat := length (filter (fun d => d = c) s).

(** [s.split(sep)] for a single character separator *)
Fixpoint split (sep : ascii) (s : str) : list str :=
  match s with
  | [] => [[]]
  | c :: s' =>
      if Ascii.eqb c sep then [] :: split sep s'
      else match split sep s' with
           | h :: t => (c :: h) :: t
           | [] => [[c]]
           end
  end.

(** [s.rsplit(sep, 1)] for a single character separator: one element when
    [sep] does not occur, else the parts before and after its last
    occurrence. *)
Fixpoint rsplit1 (sep : ascii) (s : str) : list str :=
  match s with
  | [] => [[]]
  | c :: s' =>
      match rsplit1 sep s' with
      | [a; b] => [c :: a; b]
      | _ => if Ascii.eqb c sep then [[]; s'] else [s]
      end
  end.

(** [sep.join(l)] *)
Fixpoint join (sep : str) (l : list str) : str :=
  match l with
  | [] => []
  | [x] => x
  | x :: l' => x ++ sep ++ join sep l'
  end.

(** [str.isspace] on one character (code points below 256) *)
Definition isspace (c : ascii) : bool :=
  let n := nat_of_ascii c in
  ((9 <=? n) && (n <=? 13)) || ((28 <=? n) && (n <=? 32))
  || (n =? 133) || (n =? 160).

(** [s.lstrip()], [s.rstrip()], [s.strip()] *)
Fixpoint lstrip (s : str) : str :=
  match s with
  | c :: s' => if isspace c then lstrip s' else s
  | [] => []
  end.

Definition rstrip (s : str) : str := rev (lstrip (rev s)).

Definition strip (s : str) : str := rstrip (lstrip s).

(** [s < t] on strings: lexicographic on code points *)
Fixpoint str_ltb (s t : str) : bool :=
  match s, t with
  | _, [] => false
  | [], _ :: _ => true
  | c :: s', d :: t' =>
      (nat_of_ascii c <? nat_of_ascii d)
      || ((nat_of_ascii c =? nat_of_ascii d) && str_ltb s' t')
  end.

(** The double quote character as a string *)
Definition dquote : str := ["034"%char].

End Py.

(** ** [posixpath] *)

Module PosixPath.

(** [os.path.join(a, b)] *)
Definition join (a b : str) : str :=
  if Py.startswith b "/" then b
  else if bool_decide (a = []) || Py.endswith a "/" then a ++ b
  else a ++ "/" ++ b.

(** One iteration of the component loop of [normpath]: [new_comps] after
    looking at [comp]. *)
Definition normpath_step (initial_slashes : nat) (new_comps : list str)
    (comp : str) : list str :=
  if bool_decide (comp = []) || bool_decide (comp = ".") then new_comps
  else if negb (bool_decide (comp = ".."))
          || (bool_decide (initial_slashes = 0) && bool_decide (new_comps = []))
          || (negb (bool_decide (new_comps = []))
              && bool_decide (last new_comps = Some (".." : str)))
  then new_comps ++ [comp]
  else if negb (bool_decide (new_comps = [])) then removelast new_comps
  else new_comps.

(** The number [initial_slashes] of [normpath]: POSIX allows one or two
    initial slashes and treats three or more as one. *)
Definition initial_slashes (path : str) : nat :=
  if Py.startswith path "/" then
    if Py.startswith path "//" && negb (Py.startswith path "///") then 2 else 1
  else 0.

(** The list [new_comps] of [normpath] after its loop *)
Definition normpath_comps (path : str) : list str :=
  fold_left (normpath_step (initial_slashes path)) (Py.split "/" path) [].

(** [os.path.normpath(path)] *)
Definition normpath (path : str) : str :=
  if bool_decide (path = []) then "."
  else
    let path' := Py.join "/" (normpath_comps path) in
    let path' := concat (repeat ("/" : str) (initial_slashes path)) ++ path' in
    if bool_decide (path' = []) then "." else path'.

End PosixPath.

(** ** The digest *)

Module MD5.

Local Open Scope N_scope.

(** Modelled from the spec: [blade_util.md5sum] is not part of the module;
    the spec asks for a fixed-length content digest and the function is
    named for MD5, so the concrete digest used in the examples is the
    hexadecimal MD5 (RFC 1321) of the UTF-8 encoding of the text. The
    properties below take the digest function as a parameter. *)

Definition mask32 : N := 0xffffffff.

Definition add32 (a b : N) : N := N.land (a + b) mask32.

Definition not32 (a : N) : N := N.lxor a mask32.

Definition rotl32 (x : N) (c : N) : N :=
  N.land (N.lor (N.shiftl x c) (N.shiftr x (32 - c))) mask32.

Definition shifts : list N :=
  [7; 12; 17; 22; 7; 12; 17; 22; 7; 12; 17; 22; 7; 12; 17; 22;
   5; 9; 14; 20; 5; 9; 14; 20; 5; 9; 14; 20; 5; 9; 14; 20;
   4; 11; 16; 23; 4; 11; 16; 23; 4; 11; 16; 23; 4; 11; 16; 23;
   6; 10; 15; 21; 6; 10; 15; 21; 6; 10; 15; 21; 6; 10; 15; 21].

Definition sines : list N :=
  [0xd76aa478; 0xe8c7b756; 0x242070db; 0xc1bdceee;
   0xf57c0faf; 0x4787c62a; 0xa8304613; 0xfd469501;
   0x698098d8; 0x8b44f7af; 0xffff5bb1; 0x895cd7be;
   0x6b901122; 0xfd987193; 0xa679438e; 0x49b40821;
   0xf61e2562; 0xc040b340; 0x265e5a51; 0xe9b6c7aa;
   0xd62f105d; 0x02441453; 0xd8a1e681; 0xe7d3fbc8;
   0x21e1cde6; 0xc33707d6; 0xf4d50d87; 0x455a14ed;
   0xa9e3e905; 0xfcefa3f8; 0x676f02d9; 0x8d2a4c8a;
   0xfffa3942; 0x8771f681; 0x6d9d6122; 0xfde5380c;
   0xa4beea44; 0x4bdecfa9; 0xf6bb4b60; 0xbebfbc70;
   0x289b7ec6; 0xeaa127fa; 0xd4ef3085; 0x04881d05;
   0xd9d4d039; 0xe6db99e5; 0x1fa27cf8; 0xc4ac5665;
   0xf4292244; 0x432aff97; 0xab9423a7; 0xfc93a039;
   0x655b59c3; 0x8f0ccc92; 0xffeff47d; 0x85845dd1;
   0x6fa87e4f; 0xfe2ce6e0; 0xa3014314; 0x4e0811a1;
   0xf7537e82; 0xbd3af235; 0x2ad7d2bb; 0xeb86d391].

(** UTF-8 of a text whose code points are below 256 *)
Definition utf8 (s : str) : list N :=
  flat_map (fun c => let n := N_of_ascii c in
                     if n <? 128 then [n] else [192 + n / 64; 128 + n mod 64]) s.

Fixpoint le_bytes (count : nat) (x : N) : list N :=
  match count with
  | O => []
  | S count' => (x mod 256) :: le_bytes count' (x / 256)
  end.

(** The message followed by the bit 1, zeros up to 56 modulo 64 and the
    length in bits as 64 bits, little endian *)
Definition pad (msg : list N) : list N :=
  let len := length msg in
  let zeros := ((119 - len mod 64) mod 64)%nat in
  msg ++ [128] ++ repeat 0 zeros ++ le_bytes 8 (N.of_nat len * 8).

Fixpoint le_word (bytes : list N) : N :=
  match bytes with
  | [] => 0
  | b :: bytes' => b + 256 * le_word bytes'
  end.

(** The little-endian 32-bit words of a byte sequence *)
Fixpoint words (count : nat) (bytes : list N) : list N :=
  match count with
  | O => []
  | S count' => le_word (take 4 bytes) :: words count' (drop 4 bytes)
  end.

Definition round (M : list N) (st : N * N * N * N) (i : nat) : N * N * N * N :=
  let '(A, B, C, D) := st in
  let '(F, g) :=
    if (i <? 16)%nat then (N.lor (N.land B C) (N.land (not32 B) D), i)
    else if (i <? 32)%nat then (N.lor (N.land D B) (N.land (not32 D) C), ((5 * i + 1) mod 16)%nat)
    else if (i <? 48)%nat then (N.lxor (N.lxor B C) D, ((3 * i + 5) mod 16)%nat)
    else (N.lxor C (N.lor B (not32 D)), ((7 * i) mod 16)%nat) in
  let F := add32 (add32 (add32 F A) (nth i sines 0)) (nth g M 0) in
  (D, add32 B (rotl32 F (nth i shifts 0)), B, C).

Definition chunk (st : N * N * N * N) (M : list N) : N * N * N * N :=
  let '(a0, b0, c0, d0) := st in
  let '(A, B, C, D) := fold_left (round M) (seq 0 64) st in
  (add32 a0 A, add32 b0 B, add32 c0 C, add32 d0 D).

Fixpoint chunks (count : nat) (st : N * N * N * N) (bytes : list N) : N * N * N * N :=
  match count with
  | O => st
  | S count' => chunks count' (chunk st (words 16 (take 64 bytes))) (drop 64 bytes)
  end.

Definition hex_char (n : N) : ascii :=
  ascii_of_N (if n <? 10 then 48 + n else 87 + n).

Definition hex_byte (b : N) : str := [hex_char (b / 16); hex_char (b mod 16)].

(** [hashlib.md5(text.encode('utf-8')).hexdigest()] *)
Definition hexdigest (text : str) : str :=
  let bytes := pad (utf8 text) in
  let '(a, b, c, d) :=
    chunks (length bytes / 64) (0x67452301, 0xefcdab89, 0x98badcfe, 0x10325476) bytes in
  flat_map hex_byte (le_bytes 4 a ++ le_bytes 4 b ++ le_bytes 4 c ++ le_bytes 4 d).

End MD5.

(** ** Results of calls that can fail *)

(** How a call ends when it does not return: [console.fatal] exits the
    process, a Python exception propagates, or the model ran out of the
    fuel that bounds its recursion. *)
Inductive failure :=
| Fatal (msg : str)
| Raise (exc : string) (msg : str)
| OutOfFuel.

Inductive outcome (A : Type) :=
| Ok (a : A)
| Fail (e : failure).
Arguments Ok {A} a.
Arguments Fail {A} e.

(** ** Target key normalizer *)

(** [_normalize_one(target, working_dir)] *)
Definition _normalize_one (target working_dir : str) : outcome str :=
  let prefixed :=
    if Py.startswith target "//" then Ok (skipn 2 target)
    else if Py.startswith target "/" then
      Fail (Fatal ("Invalid target " ++ Py.dquote ++ target ++ Py.dquote ++ " starting from root path."))
    else if negb (bool_decide (working_dir = "."))
    then Ok (PosixPath.join working_dir target)
    else Ok target in
  match prefixed with
  | Fail e => Fail e
  | Ok target =>
      let '(path, name) :=
        if Py.has_char ":" target then
          match Py.rsplit1 ":" target with
          | [path; name] => (path, name)
          | _ => (target, [])
          end
        else if Py.endswith target "..." then
          (firstn (length target - 3) target, "..." : str)
        else (target, "*" : str) in
      Ok (PosixPath.normpath path ++ ":" ++ name)
  end.

(** [normalize(targets, working_dir)] *)
Fixpoint normalize (targets : list str) (working_dir : str) : outcome (list str) :=
  match targets with
  | [] => Ok []
  | target :: rest =>
      match _normalize_one target working_dir with
      | Fail e => Fail e
      | Ok t =>
          match normalize rest working_dir with
          | Fail e => Fail e
          | Ok ts => Ok (t :: ts)
          end
      end
  end.

(** ** Python values, [repr] and dictionaries *)

Module PyVal.

(** The values stored in a target's attributes and hashed by [rule_hash].
    A dictionary keeps its entries in insertion order. *)
Inductive value :=
| VNone
| VBool (b : bool)
| VInt (z : Z)
| VStr (s : str)
| VList (l : list value)
| VTuple (l : list value)
| VDict (d : list (str * value)).

Abbreviation dict := (list (str * value)).

(** [d.get(k)] *)
Fixpoint dict_get (d : dict) (k : str) : option value :=
  match d with
  | [] => None
  | (k', v) :: d' => if bool_decide (k' = k) then Some v else dict_get d' k
  end.

(** [d[k] = v]: an existing key keeps its position, a new key is appended *)
Fixpoint dict_set (d : dict) (k : str) (v : value) : dict :=
  match d with
  | [] => [(k, v)]
  | (k', v') :: d' =>
      if bool_decide (k' = k) then (k, v) :: d' else (k', v') :: dict_set d' k v
  end.

(** [d.update(e)] *)
Definition dict_update (d e : dict) : dict :=
  fold_left (fun acc kv => dict_set acc kv.1 kv.2) e d.


Definition hex_digit (n : nat) : ascii :=
  ascii_of_nat (if n <? 10 then 48 + n else 87 + n).

(** The two-digit escape [\xhh] *)
Definition hex_escape (c : ascii) : str :=
  let n := nat_of_ascii c in
  ["\"%char; "x"%char; hex_digit (n / 16); hex_digit (n mod 16)].

(** [str.isprintable] on one character (code points below 256) *)
Definition isprintable (c : ascii) : bool :=
  let n := nat_of_ascii c in
  (32 <=? n) && negb ((127 <=? n) && (n <=? 160)) && negb (n =? 173).

(** The quote [repr] puts around a string: a double quote when the string
    has a single quote and no double quote, else a single quote. *)
Definition repr_quote (s : str) : ascii :=
  if Py.has_char "'" s && negb (Py.has_char "034" s) then "034"%char else "'"%char.

(** One character inside a string literal delimited by [q] *)
Definition repr_char (q c : ascii) : str :=
  if Ascii.eqb c q || Ascii.eqb c "\" then ["\"%char; c]
  else if Ascii.eqb c "009" then "\t"
  else if Ascii.eqb c "010" then "\n"
  else if Ascii.eqb c "013" then "\r"
  else if isprintable c then [c]
  else hex_escape c.

(** [repr(s)] for a string *)
Definition repr_str (s : str) : str :=
  let q := repr_quote s in
  q :: flat_map (repr_char q) s ++ [q].

(** [repr(z)] for an integer *)
Definition repr_int (z : Z) : str :=
  list_ascii_of_string (DecimalString.NilZero.string_of_int (Z.to_int z)).

(** [repr(v)] *)
Fixpoint repr (v : value) : str :=
  match v with
  | VNone => "None"
  | VBool true => "True"
  | VBool false => "False"
  | VInt z => repr_int z
  | VStr s => repr_str s
  | VList l => "[" ++ Py.join ", " (map repr l) ++ "]"
  | VTuple [x] => "(" ++ repr x ++ ",)"
  | VTuple l => "(" ++ Py.join ", " (map repr l) ++ ")"
  | VDict d =>
      "{" ++ Py.join ", " (map (fun kv => repr_str kv.1 ++ ": " ++ repr kv.2) d) ++ "}"
  end.

(** [sorted(d.items())]: the keys of a dictionary are distinct, so the
    order of the pairs is the order of their keys. *)
Fixpoint insert_item (x : str * value) (l : list (str * value)) : list (str * value) :=
  match l with
  | [] => [x]
  | y :: l' => if Py.str_ltb x.1 y.1 then x :: l else y :: insert_item x l'
  end.

Definition sorted_items (d : dict) : list (str * value) :=
  fold_left (fun acc x => insert_item x acc) d [].

(** [str(sorted(d.items()))] *)
Definition str_sorted_items (d : dict) : str :=
  repr (VList (map (fun kv => VTuple [VStr kv.1; kv.2]) (sorted_items d))).

End PyVal.
Import PyVal.

(** ** Regular expressions: the fragment of [re] that [LOCATION_RE] uses *)

Module Re.

(** Character classes on code points below 256 *)
Inductive charclass :=
| Space        (* \s *)
| NotSpace     (* \S *)
| Word.        (* \w *)

(** [str.isalnum] or underscore: the class \w *)
Definition isword (c : ascii) : bool :=
  let n := nat_of_ascii c in
  ((48 <=? n) && (n <=? 57)) || ((65 <=? n) && (n <=? 90)) || (n =? 95)
  || ((97 <=? n) && (n <=? 122))
  || (n =? 170) || (n =? 178) || (n =? 179) || (n =? 181) || (n =? 185) || (n =? 186)
  || ((188 <=? n) && (n <=? 190))
  || ((192 <=? n) && (n <=? 214)) || ((216 <=? n) && (n <=? 246)) || (248 <=? n).

Definition in_class (k : charclass) (c : ascii) : bool :=
  match k with
  | Space => Py.isspace c
  | NotSpace => negb (Py.isspace c)
  | Word => isword c
  end.

Inductive regex :=
| Lit (s : str)                (* literal characters *)
| Star (k : charclass)         (* k*, greedy *)
| Plus (k : charclass)         (* k+, greedy *)
| Seq (r1 r2 : regex)
| Opt (r : regex)              (* r?, greedy *)
| Group (n : nat) (r : regex). (* capturing group number n *)

(** Captured groups: group number to matched text *)
Abbreviation captures := (gmap nat str).

(** A match object: where the match starts and ends and what it captured *)
Record match_object := {
  m_start : nat;
  m_end : nat;
  m_ngroups : nat;
  m_captures : captures;
}.

(** The number of capturing groups of a pattern *)
Fixpoint ngroups (r : regex) : nat :=
  match r with
  | Lit _ | Star _ | Plus _ => 0
  | Seq r1 r2 => ngroups r1 + ngroups r2
  | Opt r' => ngroups r'
  | Group _ r' => S (ngroups r')
  end.

(** Greedy repetition of a class: take the longest run first and give
    characters back one at a time until the continuation succeeds. *)
Fixpoint match_star {R} (k : charclass) (s : str) (cont : str -> option R) : option R :=
  match s with
  | c :: s' =>
      if in_class k c then
        match match_star k s' cont with
        | Some r => Some r
        | None => cont s
        end
      else cont s
  | [] => cont []
  end.

(** Backtracking match of [r] at the head of [s]: [cont] gets the rest of
    the text and the groups captured so far. *)
Fixpoint match_here {R} (r : regex) (s : str) (caps : captures)
    (cont : str -> captures -> option R) : option R :=
  match r with
  | Lit l => if Py.startswith s l then cont (drop (length l) s) caps else None
  | Star k => match_star k s (fun s' => cont s' caps)
  | Plus k =>
      match s with
      | c :: s' => if in_class k c then match_star k s' (fun s'' => cont s'' caps) else None
      | [] => None
      end
  | Seq r1 r2 => match_here r1 s caps (fun s' caps' => match_here r2 s' caps' cont)
  | Opt r' =>
      match match_here r' s caps cont with
      | Some x => Some x
      | None => cont s caps
      end
  | Group n r' =>
      match_here r' s caps
        (fun s' caps' => cont s' (<[n := take (length s - length s') s]> caps'))
  end.

(** [r.match(s)] at offset [pos] of the whole text *)
Definition match_at (r : regex) (pos : nat) (s : str) : option match_object :=
  match_here r s ∅
    (fun s' caps => Some {| m_start := pos; m_end := pos + (length s - length s');
                            m_ngroups := ngroups r; m_captures := caps |}).

(** [r.search(s)]: the leftmost match *)
Fixpoint search_from (r : regex) (pos : nat) (s : str) : option match_object :=
  match match_at r pos s with
  | Some m => Some m
  | None =>
      match s with
      | [] => None
      | _ :: s' => search_from r (S pos) s'
      end
  end.

Definition search (r : regex) (s : str) : option match_object := search_from r 0 s.

(** [m.groups()]: [None] for a group that took no part in the match *)
Definition groups (m : match_object) : list (option str) :=
  map (fun i => m_captures m !! i) (seq 1 (m_ngroups m)).

End Re.

(** [LOCATION_RE]: the compiled pattern, written here token by token:
    [\$] [\(] [location] [\s+] [(] [\S*] [:] [\S+] [)] [(] [\s+] [\w*] [)?] [\)] *)
Definition LOCATION_RE : Re.regex :=
  Re.Seq (Re.Lit "$(location")
 (Re.Seq (Re.Plus Re.Space)
 (Re.Seq (Re.Group 1 (Re.Seq (Re.Star Re.NotSpace)
                     (Re.Seq (Re.Lit ":") (Re.Plus Re.NotSpace))))
 (Re.Seq (Re.Opt (Re.Group 2 (Re.Seq (Re.Plus Re.Space) (Re.Star Re.Word))))
         (Re.Lit ")")))).

(** ** Targets *)

(** A target key: [(directory, name)] *)
Abbreviation target_key := (str * str)%type.

(** [self.visibility]: the string ['PUBLIC'] or a list of keys *)
Inductive visibility_spec :=
| PUBLIC
| VisibleTo (keys : list target_key).

(** The public attributes of a [Target] object *)
Record attributes := {
  key : target_key;
  fullname : str;
  name : str;
  path : str;
  source_location : str;
  type : str;
  srcs : list str;
  deps : list target_key;
  expanded_deps : list target_key;
  visibility : visibility_spec;
  data : dict;
}.

(** What a rule-generation routine does with the object, step by step:
    it asks the base class to emit, by [self._write_rule(rule)] or
    [self.ninja_build(...)], or it assigns to the public attributes, as
    [self._add_target_file(label, path)] does to [data]. The list
    arguments of [ninja_build] are taken in the list form [var_to_list]
    yields, an omitted argument as the empty list. *)
Inductive emission :=
| Write_rule (rule : str)
| Ninja_build (rule : str) (outputs inputs implicit_deps order_only_deps : list str)
              (variables : list (str * str)) (implicit_outputs : list str)
| Assign (f : attributes -> attributes).

(** The methods a subclass overrides; they see the public attributes.
    [ninja_rules] yields the steps it took and how it ended. *)
Record target_class := {
  _allow_duplicate_source : attributes -> bool;
  _rule_hash_factors : attributes -> dict;
  ninja_rules : attributes -> list emission * outcome unit;
}.

(** An object: its class, its public attributes and the private
    [__build_rules] and [__rule_hash] of the class [Target], which no
    subclass reads; [ninja_rules_calls] is a ghost counter of the calls
    of [self.ninja_rules()]. *)
Record Target := {
  class : target_class;
  attrs :> attributes;
  build_rules : option (list str);
  rule_hash_cache : option str;
  ninja_rules_calls : nat;
}.

Definition set_key (v : target_key) (a : attributes) : attributes :=
  {| key := v; fullname := fullname a; name := name a; path := path a; source_location
     := source_location a; type := type a; srcs := srcs a; deps := deps a;
     expanded_deps := expanded_deps a; visibility := visibility a; data := data a |}.

Definition set_fullname (v : str) (a : attributes) : attributes :=
  {| key := key a; fullname := v; name := name a; path := path a; source_location :=
     source_location a; type := type a; srcs := srcs a; deps := deps a; expanded_deps
     := expanded_deps a; visibility := visibility a; data := data a |}.

Definition set_path (v : str) (a : attributes) : attributes :=
  {| key := key a; fullname := fullname a; name := name a; path := v; source_location
     := source_location a; type := type a; srcs := srcs a; deps := deps a;
     expanded_deps := expanded_deps a; visibility := visibility a; data := data a |}.



Definition set_srcs (v : list str) (a : attributes) : attributes :=
  {| key := key a; fullname := fullname a; name := name a; path := path a;
     source_location := source_location a; type := type a; srcs := v; deps := deps a;
     expanded_deps := expanded_deps a; visibility := visibility a; data := data a |}.

Definition set_deps (v : list target_key) (a : attributes) : attributes :=
  {| key := key a; fullname := fullname a; name := name a; path := path a;
     source_location := source_location a; type := type a; srcs := srcs a; deps := v;
     expanded_deps := expanded_deps a; visibility := visibility a; data := data a |}.

Definition set_expanded_deps (v : list target_key) (a : attributes) : attributes :=
  {| key := key a; fullname := fullname a; name := name a; path := path a;
     source_location := source_location a; type := type a; srcs := srcs a; deps :=
     deps a; expanded_deps := v; visibility := visibility a; data := data a |}.

Definition set_visibility (v : visibility_spec) (a : attributes) : attributes :=
  {| key := key a; fullname := fullname a; name := name a; path := path a;
     source_location := source_location a; type := type a; srcs := srcs a; deps :=
     deps a; expanded_deps := expanded_deps a; visibility := v; data := data a |}.

Definition set_data (v : dict) (a : attributes) : attributes :=
  {| key := key a; fullname := fullname a; name := name a; path := path a;
     source_location := source_location a; type := type a; srcs := srcs a; deps :=
     deps a; expanded_deps := expanded_deps a; visibility := visibility a; data := v
     |}.

Definition set_build_rules (v : option (list str)) (t : Target) : Target :=
  {| class := class t; attrs := attrs t; build_rules := v;
     rule_hash_cache := rule_hash_cache t; ninja_rules_calls := ninja_rules_calls t |}.

Definition set_rule_hash_cache (v : option str) (t : Target) : Target :=
  {| class := class t; attrs := attrs t; build_rules := build_rules t;
     rule_hash_cache := v; ninja_rules_calls := ninja_rules_calls t |}.

Definition set_ninja_rules_calls (v : nat) (t : Target) : Target :=
  {| class := class t; attrs := attrs t; build_rules := build_rules t;
     rule_hash_cache := rule_hash_cache t; ninja_rules_calls := v |}.

(** Update of the public attributes of an object *)
Definition update (f : attributes -> attributes) (t : Target) : Target :=
  {| class := class t; attrs := f (attrs t); build_rules := build_rules t;
     rule_hash_cache := rule_hash_cache t; ninja_rules_calls := ninja_rules_calls t |}.

(** An object of class [c] with the attributes [a] whose private fields
    are not set yet *)
Definition new_object (c : target_class) (a : attributes) : Target :=
  {| class := c; attrs := a; build_rules := None; rule_hash_cache := None;
     ninja_rules_calls := 0 |}.

(** ** The process state *)

Inductive log_level := Debug_level | Info_level | Warning_level | Error_level.

(** The mutable state shared by all targets: the class attribute
    [Target.__src_target_map], the build manager (its build directory,
    its current source path and its target database) and what the console
    has printed. *)
Record World := {
  src_target_map : gmap str (str * bool);
  blade_build_dir : str;
  blade_current_source_path : str;
  target_database : gmap target_key Target;
  console_log : list (log_level * str);
}.

Definition set_src_target_map (v : gmap str (str * bool)) (w : World) : World :=
  {| src_target_map := v; blade_build_dir := blade_build_dir w;
     blade_current_source_path := blade_current_source_path w;
     target_database := target_database w; console_log := console_log w |}.

Definition set_target_database (v : gmap target_key Target) (w : World) : World :=
  {| src_target_map := src_target_map w; blade_build_dir := blade_build_dir w;
     blade_current_source_path := blade_current_source_path w;
     target_database := v; console_log := console_log w |}.

Definition set_console_log (v : list (log_level * str)) (w : World) : World :=
  {| src_target_map := src_target_map w; blade_build_dir := blade_build_dir w;
     blade_current_source_path := blade_current_source_path w;
     target_database := target_database w; console_log := v |}.

(** What the module reads from the collaborators that are not part of it:
    two configuration items, [blade_util.md5sum] and
    [blade_util.source_location]. *)
Record Env := {
  config_test_timeout : value;
  config_duplicated_source_action : str;
  md5sum : str -> str;
  util_source_location : str -> str;
}.

(** ** Methods: computations on [self] and the process state *)

Record state := {
  self : Target;
  world : World;
}.

Definition method (A : Type) : Type := state -> outcome A * state.

#[global] Instance method_ret : MRet method := fun A a st => (Ok a, st).

Definition bind {A B} (m : method A) (f : A -> method B) : method B := fun st =>
  match m st with
  | (Ok a, st') => f a st'
  | (Fail e, st') => (Fail e, st')
  end.

#[global] Instance method_bind : MBind method := fun A B f m => bind m f.

Notation "'let*' p ':=' m 'in' k" := (bind m (fun p => k))
  (at level 10, p pattern, m at level 100, k at level 200, only parsing).

Definition get_self : method Target := fun st => (Ok (self st), st).

Definition get_world : method World := fun st => (Ok (world st), st).

Definition modify_self (f : attributes -> attributes) : method unit :=
  fun st => (Ok (), {| self := update f (self st); world := world st |}).

Definition modify_object (f : Target -> Target) : method unit :=
  fun st => (Ok (), {| self := f (self st); world := world st |}).

Definition modify_world (f : World -> World) : method unit :=
  fun st => (Ok (), {| self := self st; world := f (world st) |}).

Definition throw {A} (e : failure) : method A := fun st => (Fail e, st).

(** [for x in l: body] *)
Fixpoint for_each {A} (l : list A) (body : A -> method unit) : method unit :=
  match l with
  | [] => mret ()
  | x :: l' => body x ;; for_each l' body
  end.

(** [if cond: body] *)
Definition when (cond : bool) (body : method unit) : method unit :=
  if cond then body else mret ().

(** [console.fatal(msg)] and [console.warning(msg)] *)
Definition console_fatal {A} (msg : str) : method A := throw (Fatal msg).

Definition console_warning (msg : str) : method unit :=
  modify_world (fun w => set_console_log (console_log w ++ [(Warning_level, msg)]) w).

(** [self._format_message(level, msg)] *)
Definition _format_message (self : Target) (level msg : str) : str :=
  source_location self ++ " " ++ level ++ ": " ++ name self ++ ": " ++ msg.

(** [self.warning(msg)] and [self.fatal(msg)] *)
Definition warning (msg : str) : method unit :=
  let* self := get_self in console_warning (_format_message self "warning" msg).

Definition fatal {A} (msg : str) : method A :=
  let* self := get_self in console_fatal (_format_message self "error" msg).

Section Methods.
Context (E : Env).

(** The methods of the class [Target] itself *)
Definition Target_class : target_class := {|
  _allow_duplicate_source := fun _ => false;
  _rule_hash_factors := fun self => data self;
  ninja_rules := fun self => ([], Fail (Raise "NotImplementedError" (fullname self)));
|}.

(** The class [SystemLibrary]: its [ninja_rules] is [pass]. *)
Definition SystemLibrary_class : target_class := {|
  _allow_duplicate_source := _allow_duplicate_source Target_class;
  _rule_hash_factors := _rule_hash_factors Target_class;
  ninja_rules := fun _ => ([], Ok ());
|}.

(** [self._check_name()] *)
Definition _check_name : method unit :=
  let* self := get_self in
  when (Py.has_char "/" (name self))
    (fatal "Invalid target name, should not contain dir part").

(** [self._check_kwargs(kwargs)] *)
Definition _check_kwargs (kwargs : dict) : method unit :=
  when (negb (bool_decide (kwargs = [])))
    (fatal ("Unrecognized options " ++ repr (VDict kwargs))).

(** The first loop of [_check_srcs]: the repeated paths of [srcs] *)
Definition duplicate_srcs (srcs : list str) : list str :=
  fst (fold_left
         (fun '(dups, srcset) s =>
            if bool_decide (s ∈ (srcset : gset str)) then (dups ++ [s], srcset)
            else (dups, srcset ∪ {[s]}))
         srcs ([], ∅)).

(** The body of the second loop of [_check_srcs] for the source [s] *)
Definition _check_srcs_claim (action : str) (s : str) : method unit :=
  when (Py.contains s ".." || Py.startswith s "/")
    (fatal ("Invalid source file path: " ++ s ++ ". can only be relative path, and must "
            ++ "in current directory or subdirectories.")) ;;
  let* self := get_self in
  let src := PosixPath.normpath (PosixPath.join (path self) s) in
  let target := (fullname self, _allow_duplicate_source (class self) self) in
  let* w := get_world in
  match src_target_map w !! src with
  | None => modify_world (fun w => set_src_target_map (<[src := target]> (src_target_map w)) w)
  | Some target_existed =>
      when (negb (bool_decide (target_existed = target)))
        (if target_existed.2 then
           modify_world (fun w => set_src_target_map (<[src := target]> (src_target_map w)) w)
         else if target.2 then mret ()
         else
           let message := "Source file " ++ s ++ " belongs to {" ++ target_existed.1
                          ++ ", " ++ target.1 ++ "}" in
           if bool_decide (action = "error") then console_fatal message
           else if bool_decide (action = "warning") then console_warning message
           else mret ())
  end.

(** [self._check_srcs()] *)
Definition _check_srcs : method unit :=
  let* self := get_self in
  let dups := duplicate_srcs (srcs self) in
  when (negb (bool_decide (dups = [])))
    (fatal ("Duplicate source file paths: " ++ repr (VList (map VStr dups)) ++ " ")) ;;
  let action := config_duplicated_source_action E in
  for_each (srcs self) (_check_srcs_claim action).

(** [self._check_format(t)] *)
Definition _check_format (t : str) : method unit :=
  when (negb (Py.startswith t ":" || Py.startswith t "#"
              || Py.startswith t "//" || Py.startswith t "./"))
    (fatal ("Invalid format " ++ t ++ ".")) ;;
  when (1 <? Py.count ":" t)
    (fatal ("Invalid format " ++ t ++ ", missing ',' between labels?")).

(** [self._check_deps(deps)] *)
Definition _check_deps (deps : list str) : method unit :=
  for_each deps _check_format.

(** The attributes [Target.__init__] gives a new object before it runs its
    checks *)
Definition initial_attributes (w : World) (name type : str) (srcs : list str) : attributes := {|
  key := (blade_current_source_path w, name);
  fullname := blade_current_source_path w ++ ":" ++ name;
  name := name;
  path := blade_current_source_path w;
  source_location :=
    util_source_location E (PosixPath.join (blade_current_source_path w) "BUILD");
  type := type;
  srcs := srcs;
  deps := [];
  expanded_deps := [];
  visibility := PUBLIC;
  data := [("test_timeout" : str, config_test_timeout E);
           ("targets" : str, VDict []);
           ("default_target" : str, VStr "")];
|}.

(** [Target.__init__] up to and including [self._check_deps(deps)] *)
Definition init_checks (deps : list str) (kwargs : dict) : method unit :=
  _check_name ;; _check_kwargs kwargs ;; _check_srcs ;; _check_deps deps.

(** [Target.__init__] after [self._init_visibility(visibility)] *)
Definition init_finish : method unit :=
  modify_object (set_build_rules None) ;;
  modify_object (set_rule_hash_cache None) ;;
  modify_self (fun a => set_data (dict_set (data a) "generated_hdrs" (VList [])) a).

(** A constructor call: the new object, or the failure, and the process
    state it leaves *)
Definition constructor : Type := World -> outcome Target * World.

Definition run_init (c : target_class) (a : attributes) (body : method unit) (w : World)
    : outcome Target * World :=
  match body {| self := new_object c a; world := w |} with
  | (Ok _, st) => (Ok (self st), world st)
  | (Fail e, st) => (Fail e, world st)
  end.

(** [SystemLibrary(name)]: [Target.__init__] with no sources, no deps
    (the loop of [_init_target_deps] is empty) and visibility
    [['PUBLIC']] (where [_init_visibility] returns at once), then the
    three assignments of [SystemLibrary.__init__]. *)
Definition SystemLibrary__init__ (name : str) : constructor := fun w =>
  let name := drop 1 name in
  run_init SystemLibrary_class (initial_attributes w name "system_library" [])
    (init_checks [] [] ;;
     init_finish ;;
     modify_self (set_key ("#" : str, name)) ;;
     modify_self (fun a => set_fullname ("#:" ++ name) a) ;;
     modify_self (set_path "#")) w.

(** A constructor called from inside a method *)
Definition construct (ctor : constructor) : method Target := fun st =>
  match ctor (world st) with
  | (r, w) => (r, {| self := self st; world := w |})
  end.

(** Modelled from the spec: [build_manager.register_target], which is not
    part of the module; the database maps a key to one target and no
    target is ever removed. *)
Definition register_target (t : Target) : method unit :=
  modify_world (fun w => set_target_database (<[key t := t]> (target_database w)) w).

(** [self._add_system_library(key, name)] *)
Definition _add_system_library (key : target_key) (name : str) : method unit :=
  let* w := get_world in
  match target_database w !! key with
  | None => let* lib := construct (SystemLibrary__init__ name) in register_target lib
  | Some _ => mret ()
  end.

(** The decimal digits of a number, as Python prints it *)
Definition decimal (n : nat) : str :=
  list_ascii_of_string (DecimalString.NilZero.string_of_uint (Nat.to_uint n)).

(** The [ValueError] of [(a, b) = l] for a list that has not two elements *)
Definition unpack_failure {A} (l : list A) : failure :=
  if 2 <? length l
  then Raise "ValueError" "too many values to unpack (expected 2)"
  else Raise "ValueError"
         ("not enough values to unpack (expected 2, got " ++ decimal (length l) ++ ")").

(** [(a, b) = l]: unpacking a two-element list *)
Definition unpack2 {A} (l : list A) : method (A * A) :=
  match l with
  | [a; b] => mret (a, b)
  | _ => throw (unpack_failure l)
  end.

(** [self._unify_dep(dep)] *)
Definition _unify_dep (dep : str) : method target_key :=
  let* self := get_self in
  let self_path := path self in
  match dep with
  | [] => throw (Raise "IndexError" "string index out of range")
  | c :: _ =>
      if Ascii.eqb c ":" then
        mret (PosixPath.normpath self_path, drop 1 dep)
      else if Py.startswith dep "//" then
        if negb (Py.has_char ":" dep)
        then throw (Raise "Exception" ("Wrong format in " ++ fullname self))
        else
          let* (path, lib) := unpack2 (Py.rsplit1 ":" (drop 2 dep)) in
          mret (PosixPath.normpath path, lib)
      else if Py.startswith dep "#" then
        let dkey := ("#" : str, drop 1 dep) in
        _add_system_library dkey dep ;;
        mret dkey
      else
        if negb (Py.has_char ":" dep)
        then throw (Raise "Exception" ("Wrong format in " ++ fullname self))
        else
          let* (path, lib) := unpack2 (Py.rsplit1 ":" dep) in
          if Py.contains path ".."
          then throw (Raise "Exception" "Don't use '..' in path")
          else mret (PosixPath.normpath (self_path ++ "/" ++ path), lib)
  end.

(** [if key not in self.expanded_deps: self.expanded_deps.append(key)] *)
Definition add_expanded_dep (dkey : target_key) : method unit :=
  let* self := get_self in
  when (negb (bool_decide (dkey ∈ expanded_deps self)))
    (modify_self (fun a => set_expanded_deps (expanded_deps a ++ [dkey]) a)).

(** [if key not in self.deps: self.deps.append(key)] *)
Definition add_dep (dkey : target_key) : method unit :=
  let* self := get_self in
  when (negb (bool_decide (dkey ∈ deps self)))
    (modify_self (fun a => set_deps (deps a ++ [dkey]) a)).

(** [self._init_target_deps(deps)] *)
Definition _init_target_deps (deps : list str) : method unit :=
  for_each deps (fun d =>
    let* dkey := _unify_dep d in
    add_expanded_dep dkey ;;
    add_dep dkey).

(** [self.visibility] *)
Definition self_visibility (self : Target) : visibility_spec := visibility self.

(** [self._init_visibility(visibility)]: the argument is [None] or the
    list [var_to_list] yields. *)
Definition _init_visibility (visibility : option (list str)) : method unit :=
  match visibility with
  | None => mret ()
  | Some visibility =>
      if bool_decide (visibility = ["PUBLIC" : str]) then mret ()
      else
        modify_self (set_visibility (VisibleTo [])) ;;
        for_each visibility (fun v =>
          _check_format v ;;
          let* key := _unify_dep v in
          let* self := get_self in
          match self_visibility self with
          | VisibleTo keys =>
              when (negb (bool_decide (key ∈ keys)))
                (modify_self (set_visibility (VisibleTo (keys ++ [key]))))
          | PUBLIC => throw (Raise "AttributeError" "append")
          end)
  end.

(** [Target.__init__(self, name, type, srcs, deps, visibility, kwargs)]
    for an object of class [c] *)
Definition Target__init__ (c : target_class) (name type : str) (srcs deps : list str)
    (visibility : option (list str)) (kwargs : dict) : constructor := fun w =>
  run_init c (initial_attributes w name type srcs)
    (init_checks deps kwargs ;;
     _init_target_deps deps ;;
     _init_visibility visibility ;;
     init_finish) w.

(** [self._convert_string_to_target_helper(target_string)] *)
Definition _convert_string_to_target_helper (target_string : str) : method target_key :=
  let invalid :=
    fatal ("Invalid target lib format: " ++ Py.dquote ++ target_string ++ Py.dquote
           ++ ", should be " ++ Py.dquote ++ "#lib_name" ++ Py.dquote ++ " or "
           ++ Py.dquote ++ "//lib_path:lib_name" ++ Py.dquote) in
  if negb (bool_decide (target_string = [])) then
    if Py.startswith target_string "#" then mret ("#" : str, drop 1 target_string)
    else if Py.has_char ":" target_string then
      let* (path, name) := unpack2 (Py.split ":" target_string) in
      let path := Py.strip path in
      let path := if Py.startswith path "//" then drop 2 path else path in
      mret (path, Py.strip name)
    else invalid
  else invalid.

(** [self._add_hardcode_library(hardcode_dep_list)] *)
Definition _add_hardcode_library (hardcode_dep_list : list str) : method unit :=
  for_each hardcode_dep_list (fun dep =>
    let* dkey := _convert_string_to_target_helper dep in
    when (bool_decide (dkey.1 = "#")) (_add_system_library dkey dep) ;;
    add_expanded_dep dkey).

(** [self._add_location_reference_target(m)]: [m] is a match object or
    [None]; the result is [None] when [m] is. *)
Definition _add_location_reference_target (m : option Re.match_object)
    : method (option (target_key * str)) :=
  match m with
  | None => mret None
  | Some m =>
      let* (key, type) := unpack2 (Re.groups m) in
      let type := match type with Some t => if bool_decide (t = []) then [] else t | None => [] end in
      let type := Py.strip type in
      match key with
      | None => throw (Raise "TypeError" "'NoneType' object is not subscriptable")
      | Some key =>
          let* key := _unify_dep key in
          add_expanded_dep key ;;
          add_dep key ;;
          mret (Some (key, type))
      end
  end.

(** [not v] *)
Definition falsy (v : value) : bool :=
  match v with
  | VNone => true
  | VBool b => negb b
  | VInt z => (z =? 0)%Z
  | VStr s => bool_decide (s = [])
  | VList l | VTuple l => bool_decide (l = [])
  | VDict d => bool_decide (d = [])
  end.

(** [self._add_target_file(label, path)] *)
Definition _add_target_file (label path : str) : method unit :=
  let* self := get_self in
  match dict_get (data self) "targets" with
  | Some (VDict targets) =>
      modify_self (fun a =>
        set_data (dict_set (data a) "targets" (VDict (dict_set targets label (VStr path)))) a) ;;
      let* self := get_self in
      match dict_get (data self) "default_target" with
      | Some v =>
          when (falsy v)
            (modify_self (fun a => set_data (dict_set (data a) "default_target" (VStr path)) a))
      | None => throw (Raise "KeyError" "'default_target'")
      end
  | Some _ => throw (Raise "TypeError" "object does not support item assignment")
  | None => throw (Raise "KeyError" "'targets'")
  end.

(** ** Rule fingerprint *)

(** The loop of [rule_hash] over [self.deps], given the recursive call *)
Fixpoint dep_rule_hashes
    (rec : target_key -> gmap target_key Target -> outcome str * gmap target_key Target)
    (dkeys : list target_key) (deps : list str) (db : gmap target_key Target)
    : outcome (list str) * gmap target_key Target :=
  match dkeys with
  | [] => (Ok deps, db)
  | dkey :: dkeys' =>
      match rec dkey db with
      | (Ok h, db') => dep_rule_hashes rec dkeys' (deps ++ [h]) db'
      | (Fail e, db') => (Fail e, db')
      end
  end.

(** The dictionary [factors] of [rule_hash] once it is complete *)
Definition rule_hash_factors_dict (type name : str) (srcs deps : list str) (extra : dict)
    : dict :=
  let factors := [("type" : str, VStr type); ("name" : str, VStr name);
                  ("srcs" : str, VList (map VStr srcs))] in
  let factors := dict_set factors "deps" (VList (map VStr deps)) in
  dict_update factors extra.

(** [target_database[k].rule_hash()]: the object is the one the database
    holds under [k]. The recursion is bounded by [fuel]. *)
Fixpoint rule_hash (fuel : nat) (k : target_key) (db : gmap target_key Target)
    : outcome str * gmap target_key Target :=
  match fuel with
  | 0 => (Fail OutOfFuel, db)
  | S fuel' =>
      match (db !! k : option Target) with
      | None => (Fail (Raise "KeyError" (repr (VTuple [VStr k.1; VStr k.2]))), db)
      | Some self =>
          match rule_hash_cache self with
          | Some h => (Ok h, db)
          | None =>
              match dep_rule_hashes (rule_hash fuel') (deps self) [] db with
              | (Fail e, db') => (Fail e, db')
              | (Ok deps, db') =>
                  match (db' !! k : option Target) with
                  | None => (Fail (Raise "KeyError" (repr (VTuple [VStr k.1; VStr k.2]))), db')
                  | Some self' =>
                      let factors :=
                        rule_hash_factors_dict (type self) (name self) (srcs self) deps
                          (_rule_hash_factors (class self') self') in
                      let factors_str := str_sorted_items factors in
                      if Py.contains factors_str " object at 0x"
                      then (Fail (Raise "AssertionError" []), db')
                      else
                        let h := md5sum E factors_str in
                        (Ok h, <[k := set_rule_hash_cache (Some h) self']> db')
                  end
              end
          end
      end
  end.

(** ** Rule emission *)

(** [self._write_rule(rule)] *)
Definition _write_rule (rule : str) (self : Target) : outcome unit * Target :=
  match build_rules self with
  | Some rules =>
      (Ok (), set_build_rules (Some (rules ++ [rule ++ ["010"%char]])) self)
  | None => (Fail (Raise "AttributeError" "'NoneType' object has no attribute 'append'"), self)
  end.

(** A sequence of [_write_rule] calls *)
Fixpoint write_rules (rules : list str) (self : Target) : outcome unit * Target :=
  match rules with
  | [] => (Ok (), self)
  | r :: rules' =>
      match _write_rule r self with
      | (Ok _, self') => write_rules rules' self'
      | (Fail e, self') => (Fail e, self')
      end
  end.

(** [self.ninja_build(rule, outputs, inputs, implicit_deps,
    order_only_deps, variables, implicit_outputs)] *)
Definition ninja_build (rule : str) (outputs inputs implicit_deps order_only_deps : list str)
    (variables : list (str * str)) (implicit_outputs : list str) (self : Target)
    : outcome unit * Target :=
  let outs := outputs in
  let outs := if bool_decide (implicit_outputs = []) then outs
              else (outs ++ ["|" : str]) ++ implicit_outputs in
  let ins := inputs in
  let ins := if bool_decide (implicit_deps = []) then ins
             else (ins ++ ["|" : str]) ++ implicit_deps in
  let ins := if bool_decide (order_only_deps = []) then ins
             else (ins ++ ["||" : str]) ++ order_only_deps in
  write_rules
    ([("build " ++ Py.join " " outs ++ ": " ++ rule ++ " " ++ Py.join " " ins) : str]
     ++ map (fun '(name, v) =>
               if bool_decide (v = []) then ("  " ++ name ++ " =") : str
               else "  " ++ name ++ " = " ++ v) variables
     ++ [[] : str]) self.

(** One step of a rule routine *)
Definition emit_one (em : emission) (self : Target) : outcome unit * Target :=
  match em with
  | Write_rule rule => _write_rule rule self
  | Ninja_build rule outputs inputs implicit_deps order_only_deps variables
                implicit_outputs =>
      ninja_build rule outputs inputs implicit_deps order_only_deps variables
        implicit_outputs self
  | Assign f => (Ok (), update f self)
  end.

(** Running the steps of a rule routine in order *)
Fixpoint emit (ems : list emission) (self : Target) : outcome unit * Target :=
  match ems with
  | [] => (Ok (), self)
  | em :: ems' =>
      match emit_one em self with
      | (Ok _, self') => emit ems' self'
      | (Fail e, self') => (Fail e, self')
      end
  end.

(** [self.ninja_rules()]: the routine of the object's class, counted *)
Definition call_ninja_rules (self : Target) : outcome unit * Target :=
  let self := set_ninja_rules_calls (S (ninja_rules_calls self)) self in
  match ninja_rules (class self) self with
  | (ems, r) =>
      match emit ems self with
      | (Ok _, self') => (r, self')
      | (Fail e, self') => (Fail e, self')
      end
  end.

(** [self.get_rules()] *)
Definition get_rules (self : Target) : outcome (list str) * Target :=
  match build_rules self with
  | None =>
      let self := set_build_rules (Some []) self in
      match call_ninja_rules self with
      | (Ok _, self') =>
          match build_rules self' with
          | Some rules => (Ok rules, self')
          | None => (Fail (Raise "TypeError" []), self')
          end
      | (Fail e, self') => (Fail e, self')
      end
  | Some rules => (Ok rules, self)
  end.

End Methods.

(** ** Successive calls *)

(** [n] calls of [get_rules] in a row: what each call returned, and the
    object after the last one *)
Fixpoint get_rules_repeatedly (n : nat) (self : Target)
    : list (outcome (list str)) * Target :=
  match n with
  | O => ([], self)
  | S n' =>
      match get_rules self with
      | (r, self') =>
          match get_rules_repeatedly n' self' with
          | (rs, self'') => (r :: rs, self'')
          end
      end
  end.

(** ** Concrete instances for the examples *)

Definition example_env (action : str) : Env := {|
  config_test_timeout := VInt 600;
  config_duplicated_source_action := action;
  md5sum := MD5.hexdigest;
  util_source_location := fun build_file => build_file ++ ":1";
|}.

Definition example_world (current_source_path : str) : World := {|
  src_target_map := ∅;
  blade_build_dir := "build64_release";
  blade_current_source_path := current_source_path;
  target_database := ∅;
  console_log := [];
|}.


(** A class that allows duplicate sources and emits one build statement *)
Definition example_class : target_class := {|
  _allow_duplicate_source := fun _ => true;
  _rule_hash_factors := fun self => data self;
  ninja_rules := fun self =>
    ([Ninja_build "cc" [name self ++ ".o"] (srcs self) [] [] [("cflags" : str, "-O2" : str)] []],
     Ok ());
|}.

(** ** Notions used to state the properties of the registry *)

(** The registry key of a source [s] of [self] and the claim [self] makes *)
Definition src_of (self : Target) (s : str) : str :=
  PosixPath.normpath (PosixPath.join (path self) s).

Definition claim_of (self : Target) : str * bool :=
  (fullname self, _allow_duplicate_source (class self) self).

Definition valid_src (s : str) : Prop :=
  Py.contains s ".." || Py.startswith s "/" = false.

Definition invalid_src_message (s : str) : str :=
  "Invalid source file path: " ++ s ++ ". can only be relative path, and must "
  ++ "in current directory or subdirectories.".

(** Who owns a path after a target has claimed it: a claimant that
    disallows duplicate sources stays, any other gives way. *)
Definition owner_after (old : option (str * bool)) (new : str * bool) : str * bool :=
  match old with
  | Some existed => if existed.2 then new else existed
  | None => new
  end.

Definition conflict_message (s existed new : str) : str :=
  "Source file " ++ s ++ " belongs to {" ++ existed ++ ", " ++ new ++ "}".

Definition with_registry (m : gmap str (str * bool)) (st : state) : state :=
  {| self := self st; world := set_src_target_map m (world st) |}.

Definition with_warning (msg : str) (st : state) : state :=
  {| self := self st;
     world := set_console_log (console_log (world st) ++ [(Warning_level, msg)]) (world st) |}.

(** The state in which the checks of [Target.__init__] run for a new
    object of class [c] named [name] with the sources [srcs] *)
Definition constructing (E : Env) (c : target_class) (name : str) (srcs : list str)
    (w : World) : state :=
  {| self := new_object c (initial_attributes E w name "cc_library" srcs);
     world := w |}.

(** The process state after [c(name, srcs)] has been constructed *)
Definition world_after (E : Env) (c : target_class) (name : str) (srcs : list str)
    (w : World) : World :=
  snd (Target__init__ E c name "cc_library" srcs [] None [] w).

(** ** Notions used to state the properties of the resolver *)

(** What [add_expanded_dep] and [add_dep] do to the two lists *)
Definition append_new (k : target_key) (l : list target_key) : list target_key :=
  if bool_decide (k ∈ l) then l else l ++ [k].

(** The key [_unify_dep] computes for a reference that is not a system
    library, from the path and the full name of [self] *)
Definition unify_pure (self_path self_fullname dep : str) : outcome target_key :=
  match dep with
  | [] => Fail (Raise "IndexError" "string index out of range")
  | c :: _ =>
      if Ascii.eqb c ":" then Ok (PosixPath.normpath self_path, drop 1 dep)
      else if Py.startswith dep "//" then
        if negb (Py.has_char ":" dep)
        then Fail (Raise "Exception" ("Wrong format in " ++ self_fullname))
        else match Py.rsplit1 ":" (drop 2 dep) with
             | [path; lib] => Ok (PosixPath.normpath path, lib)
             | _ => Fail (unpack_failure (Py.rsplit1 ":" (drop 2 dep)))
             end
      else
        if negb (Py.has_char ":" dep)
        then Fail (Raise "Exception" ("Wrong format in " ++ self_fullname))
        else match Py.rsplit1 ":" dep with
             | [path; lib] =>
                 if Py.contains path ".."
                 then Fail (Raise "Exception" "Don't use '..' in path")
                 else Ok (PosixPath.normpath (self_path ++ "/" ++ path), lib)
             | _ => Fail (unpack_failure (Py.rsplit1 ":" dep))
             end
  end.

(** The number of times [k] occurs in [l] *)
Definition occurrences (k : target_key) (l : list target_key) : nat :=
  length (filter (fun x => x = k) l).

(** A method started on a [self] that satisfies [P] leaves a [self] that
    satisfies [Q], however it ends. *)
Definition triple {A} (P : Target -> Prop) (m : method A) (Q : Target -> Prop) : Prop :=
  forall st, P (self st) -> Q (self (snd (m st))).

(** The invariant of the two dependency lists *)
Definition deps_invariant (t : Target) : Prop := deps t ⊆ expanded_deps t.

(** [self] after the key [k] has been recorded in both lists *)
Definition record_dep (k : target_key) (t : Target) : Target :=
  update (fun a => set_deps (append_new k (deps a))
                     (set_expanded_deps (append_new k (expanded_deps a)) a)) t.

(** What [LOCATION_RE.search] finds in a command of a rule *)
Definition example_match : option Re.match_object :=
  Eval vm_compute in Re.search LOCATION_RE "cp $(location //proto:msg jar) out".

(** The target [a:x] of class [example_class], as [Target.__init__]
    leaves it *)
Definition example_target : outcome Target :=
  Eval vm_compute in
    fst (Target__init__ (example_env "warning") example_class "x" "cc_library"
           ["x.cc" : str] [] None [] (example_world "a")).

(** ** What a pattern matches *)

(** [matches r text caps caps']: the pattern [r] matches exactly [text]
    and turns the captured groups [caps] into [caps']. The matcher
    [Re.match_here] only ever finds such matches. *)
Inductive matches : Re.regex -> str -> Re.captures -> Re.captures -> Prop :=
| matches_Lit l caps : matches (Re.Lit l) l caps caps
| matches_Star k text caps :
    Forall (fun c => Re.in_class k c = true) text -> matches (Re.Star k) text caps caps
| matches_Plus k text caps :
    text <> [] -> Forall (fun c => Re.in_class k c = true) text ->
    matches (Re.Plus k) text caps caps
| matches_Seq r1 r2 text1 text2 caps caps1 caps2 :
    matches r1 text1 caps caps1 -> matches r2 text2 caps1 caps2 ->
    matches (Re.Seq r1 r2) (text1 ++ text2) caps caps2
| matches_Opt_skip r caps : matches (Re.Opt r) [] caps caps
| matches_Opt_take r text caps caps' :
    matches r text caps caps' -> matches (Re.Opt r) text caps caps'
| matches_Group n r text caps caps' :
    matches r text caps caps' -> matches (Re.Group n r) text caps (<[n := text]> caps').

(** No character of [s] is white space *)
Definition no_space (s : str) : Prop := Forall (fun c => Py.isspace c = false) s.

(** Every character of [s] is white space *)
Definition all_space (s : str) : Prop := Forall (fun c => Py.isspace c = true) s.

(** ** Normal forms of paths *)

(** A path component that [normpath] keeps as it is *)
Definition proper (c : str) : Prop :=
  c <> [] /\ c <> "." /\ c <> ".." /\ Py.has_char "/" c = false.

(** The lists of components [normpath] builds, read from the last one:
    a run of [..] only, which needs a relative path, or a normal list
    followed by a proper component. *)
Inductive normal (initial_slashes : nat) : list str -> Prop :=
| normal_nil : normal initial_slashes []
| normal_dotdot l :
    initial_slashes = 0 -> Forall (fun c => c = (".." : str)) l ->
    normal initial_slashes (l ++ [".." : str])
| normal_comp l c :
    normal initial_slashes l -> proper c -> normal initial_slashes (l ++ [c]).

(** ** Reading a string literal back *)

(** The value of a hexadecimal digit *)
Definition hex_value (c : ascii) : nat :=
  let n := nat_of_ascii c in
  if n <? 58 then n - 48 else n - 87.

(** [read_body q input]: the characters of a string literal whose opening
    quote [q] has been read, and the text after its closing quote. It
    undoes [repr_char]. *)
Fixpoint read_body (q : ascii) (input : str) : option (str * str) :=
  let more (c : ascii) (r : option (str * str)) :=
    match r with
    | Some (s, rest) => Some (c :: s, rest)
    | None => None
    end in
  match input with
  | [] => None
  | c :: rest =>
      if Ascii.eqb c q then Some ([], rest)
      else if Ascii.eqb c "\" then
        match rest with
        | e :: rest' =>
            if Ascii.eqb e q || Ascii.eqb e "\" then more e (read_body q rest')
            else if Ascii.eqb e "t" then more "009"%char (read_body q rest')
            else if Ascii.eqb e "n" then more "010"%char (read_body q rest')
            else if Ascii.eqb e "r" then more "013"%char (read_body q rest')
            else if Ascii.eqb e "x" then
              match rest' with
              | h1 :: h2 :: rest'' =>
                  more (ascii_of_nat (16 * hex_value h1 + hex_value h2))
                       (read_body q rest'')
              | _ => None
              end
            else None
        | [] => None
        end
      else more c (read_body q rest)
  end.

(** The text [rule_hash] hashes for a target with the given attributes,
    dependency digests and extra factors *)
Definition factors_text (type name : str) (srcs deps : list str) (extra : dict) : str :=
  str_sorted_items (rule_hash_factors_dict type name srcs deps extra).

(** The text [rule_hash] hashes for the target [t] when its dependencies
    have the digests [deps] *)
Definition digest_text (t : Target) (deps : list str) : str :=
  factors_text (type t) (name t) (srcs t) deps (_rule_hash_factors (class t) t).

(** Two databases hold the same targets up to their private fields. *)
Definition same_public (db db' : gmap target_key Target) : Prop :=
  forall k, match (db !! k : option Target), (db' !! k : option Target) with
            | Some t, Some t' => class t = class t' /\ attrs t = attrs t'
            | None, None => True
            | _, _ => False
            end.

(** Two databases that [rule_hash] cannot tell apart: the same keys, and
    under each key the same dependencies, the same cached digest and
    the same hashed text. *)
Definition same_digests (db db' : gmap target_key Target) : Prop :=
  forall k, match (db !! k : option Target), (db' !! k : option Target) with
            | Some t, Some t' =>
                deps t = deps t' /\ rule_hash_cache t = rule_hash_cache t'
                /\ forall hs, digest_text t hs = digest_text t' hs
            | None, None => True
            | _, _ => False
            end.

(** An acyclic database that holds every dependency it names: [rank]
    goes down along [deps]. *)
Definition ranked (rank : target_key -> nat) (db : gmap target_key Target) : Prop :=
  forall k (t : Target), db !! k = Some t ->
    forall d, d ∈ deps t -> is_Some (db !! d) /\ rank d < rank k.

(** A database of six targets: [base:log]; [a:x] and [c:x], alike in
    type, name, sources and dependencies; [b:x], like them but with an
    output file recorded in its [data]; [d:x], whose [data] has a key
    [srcs] of its own; and [e:x], like [a:x] but for its source. *)
Definition example_database : gmap target_key Target :=
  let E := example_env "warning" in
  let new dir name srcs deps :=
    fst (Target__init__ E Target_class name "cc_library" srcs deps None []
           (example_world dir)) in
  match new "base" "log" ["log.cc" : str] [], new "a" "x" ["x.cc" : str] ["//base:log" : str],
        new "c" "x" ["x.cc" : str] ["//base:log" : str],
        new "b" "x" ["x.cc" : str] ["//base:log" : str],
        new "d" "x" ["x.cc" : str] ["//base:log" : str],
        new "e" "x" ["y.cc" : str] ["//base:log" : str] with
  | Ok log, Ok ax, Ok cx, Ok bx, Ok dx, Ok ex =>
      let bx := self (snd (_add_target_file "a" "build64_release/b/libx.a"
                             {| self := bx; world := example_world "b" |})) in
      let dx := update (fun a => set_data (dict_set (data a) "srcs" (VList [])) a) dx in
      <[key log := log]> (<[key ax := ax]> (<[key cx := cx]> (<[key bx := bx]>
        (<[key dx := dx]> (<[key ex := ex]> ∅)))))
  | _, _, _, _, _, _ => ∅
  end.

(** [example_database] with a key [deps] in the [data] of [a:x] *)
Definition example_deps_overridden : gmap target_key Target :=
  alter (update (fun a => set_data (dict_set (data a) "deps" (VList [])) a))
    ("a" : str, "x" : str) example_database.

(** The target [example_database] holds under [k] *)
Definition example_target_at (k : target_key) : Target :=
  default (new_object Target_class
             (initial_attributes (example_env "warning") (example_world k.1) k.2 "" []))
          (example_database !! k).

(** The keys of [example_database] *)
Definition example_keys : list target_key :=
  [("base" : str, "log" : str); ("a" : str, "x" : str); ("b" : str, "x" : str);
   ("c" : str, "x" : str); ("d" : str, "x" : str); ("e" : str, "x" : str)].

(** The rank of the targets of [example_database] *)
Definition example_rank (k : target_key) : nat :=
  if bool_decide (k = ("base" : str, "log" : str)) then 0 else 1.

(** ** Notions used to state further properties *)

(** A reference [_normalize_one] refuses: it starts from the root path. *)
Definition rooted (target : str) : bool :=
  Py.startswith target "/" && negb (Py.startswith target "//").

(** The message of [_normalize_one] for a rooted reference *)
Definition rooted_message (target : str) : str :=
  "Invalid target " ++ Py.dquote ++ target ++ Py.dquote ++ " starting from root path.".

(** A reference [_check_format] accepts: it starts with one of the four
    markers and has at most one colon. *)
Definition marked (t : str) : bool :=
  Py.startswith t ":" || Py.startswith t "#" || Py.startswith t "//" || Py.startswith t "./".

Definition well_formed (t : str) : bool := marked t && (Py.count ":" t <=? 1).

(** What [_check_format] says of a reference it refuses *)
Definition format_complaint (t : str) : str :=
  if marked t then "Invalid format " ++ t ++ ", missing ',' between labels?"
  else "Invalid format " ++ t ++ ".".

(** The object [SystemLibrary(name)] is once its constructor returns, in
    a process whose current source path is [current_source_path] *)
Definition system_library_object (E : Env) (current_source_path name : str) : Target :=
  {| class := SystemLibrary_class;
     attrs := {| key := ("#" : str, drop 1 name);
                 fullname := "#:" ++ drop 1 name;
                 name := drop 1 name;
                 path := "#";
                 source_location :=
                   util_source_location E (PosixPath.join current_source_path "BUILD");
                 type := "system_library";
                 srcs := [];
                 deps := [];
                 expanded_deps := [];
                 visibility := PUBLIC;
                 data := [("test_timeout" : str, config_test_timeout E);
                          ("targets" : str, VDict []);
                          ("default_target" : str, VStr "");
                          ("generated_hdrs" : str, VList [])] |};
     build_rules := None;
     rule_hash_cache := None;
     ninja_rules_calls := 0 |}.

(** The body of the loop of [_init_visibility] for the entry [v] *)
Definition _init_visibility_entry (E : Env) (v : str) : method unit :=
  _check_format v ;;
  let* key := _unify_dep E v in
  let* self := get_self in
  match self_visibility self with
  | VisibleTo keys =>
      when (negb (bool_decide (key ∈ keys)))
        (modify_self (set_visibility (VisibleTo (keys ++ [key]))))
  | PUBLIC => throw (Raise "AttributeError" "append")
  end.

(** What [_convert_string_to_target_helper] returns or how it fails,
    which depends on [self] for the fatal message only *)
Definition converted (self : Target) (target_string : str) : outcome target_key :=
  let invalid :=
    Fail (Fatal (_format_message self "error"
                   ("Invalid target lib format: " ++ Py.dquote ++ target_string ++ Py.dquote
                    ++ ", should be " ++ Py.dquote ++ "#lib_name" ++ Py.dquote ++ " or "
                    ++ Py.dquote ++ "//lib_path:lib_name" ++ Py.dquote))) in
  if negb (bool_decide (target_string = [])) then
    if Py.startswith target_string "#" then Ok ("#" : str, drop 1 target_string)
    else if Py.has_char ":" target_string then
      match Py.split ":" target_string with
      | [path; name] =>
          let path := Py.strip path in
          Ok (if Py.startswith path "//" then drop 2 path else path, Py.strip name)
      | _ => Fail (unpack_failure (Py.split ":" target_string))
      end
    else invalid
  else invalid.

(** The key [_unify_dep] returns for a reference when it returns, read
    off [self] alone *)
Definition resolved (self : Target) (dep : str) : outcome target_key :=
  if Py.startswith dep "#" then Ok ("#" : str, drop 1 dep)
  else unify_pure (path self) (fullname self) dep.

(** A list of keys recorded one by one, each unless it is there already *)
Definition record_keys (keys acc : list target_key) : list target_key :=
  fold_left (fun acc k => append_new k acc) keys acc.

(** The object [Target.__init__] leaves for a target of class [c]
    declared in [current_source_path] once the declared dependencies
    have resolved to [keys] and the visibility to [v] *)
Definition constructed_object (E : Env) (c : target_class) (current_source_path name type : str)
    (srcs : list str) (keys : list target_key) (v : visibility_spec) : Target :=
  {| class := c;
     attrs := {| key := (current_source_path, name);
                 fullname := current_source_path ++ ":" ++ name;
                 name := name;
                 path := current_source_path;
                 source_location :=
                   util_source_location E (PosixPath.join current_source_path "BUILD");
                 type := type;
                 srcs := srcs;
                 deps := record_keys keys [];
                 expanded_deps := record_keys keys [];
                 visibility := v;
                 data := [("test_timeout" : str, config_test_timeout E);
                          ("targets" : str, VDict []);
                          ("default_target" : str, VStr "");
                          ("generated_hdrs" : str, VList [])] |};
     build_rules := None;
     rule_hash_cache := None;
     ninja_rules_calls := 0 |}.

(** The database holds a target under [k] whose cached digest is [h]. *)
Definition cached (db : gmap target_key Target) (k : target_key) (h : str) : Prop :=
  exists t : Target, db !! k = Some t /\ rule_hash_cache t = Some h.

(** The database holds a target under [k] that has no cached digest and
    depends on a target of the set [C]. *)
Definition pending_on (C : target_key -> Prop) (db : gmap target_key Target)
    (k : target_key) : Prop :=
  exists t : Target, db !! k = Some t /\ rule_hash_cache t = None
                     /\ exists d, d ∈ deps t /\ C d.

(** The message of the [KeyError] for a key that the database lacks *)
Definition key_error (k : target_key) : failure :=
  Raise "KeyError" (repr (VTuple [VStr k.1; VStr k.2])).

(** Two targets of the directory [p] that depend on each other *)
Definition example_cycle : gmap target_key Target :=
  let E := example_env "warning" in
  let new name dep :=
    fst (Target__init__ E Target_class name "cc_library" [] [dep] None [] (example_world "p")) in
  match new "a" (":b" : str), new "b" (":a" : str) with
  | Ok a, Ok b => <[key a := a]> (<[key b := b]> ∅)
  | _, _ => ∅
  end.

(** The target [example_cycle] holds under [k] *)
Definition example_cycle_at (k : target_key) : Target :=
  default (new_object Target_class
             (initial_attributes (example_env "warning") (example_world k.1) k.2 "" []))
          (example_cycle !! k).

(** ** Two dictionaries with the same keys, held as one

    A dictionary whose values are pairs stands for the two dictionaries
    of the first and of the second components. *)

Definition fst_value (v : value) : value :=
  match v with VTuple [a; _] => a | _ => v end.

Definition snd_value (v : value) : value :=
  match v with VTuple [_; b] => b | _ => v end.

Definition on_values (f : value -> value) (d : dict) : dict :=
  map (fun kv => (kv.1, f kv.2)) d.

(** The text [str(sorted(d.items()))] prints for one item *)
Definition item_text (kv : str * value) : str := repr (VTuple [VStr kv.1; kv.2]).

(** An item whose two values are printed alike only if they are equal:
    they are equal, or two strings, or two lists of strings. *)
Definition told_apart (kv : str * value) : Prop :=
  fst_value kv.2 = snd_value kv.2
  \/ (exists a b, kv.2 = VTuple [VStr a; VStr b])
  \/ (exists l l', kv.2 = VTuple [VList (map VStr l); VList (map VStr l')]).

(** ** Further methods of [Target] *)

(** [self._source_file_path(name)] *)
Definition _source_file_path (name : str) (self : Target) : str :=
  PosixPath.normpath (PosixPath.join (path self) name).

(** [self._target_file_path(file_name)]; [build_dir] is [self.build_dir],
    which [Target.__init__] took from the build manager. *)
Definition _target_file_path (build_dir file_name : str) (self : Target) : str :=
  PosixPath.normpath (PosixPath.join (PosixPath.join build_dir (path self)) file_name).

(** [self._add_default_target_file(label, path)] *)
Definition _add_default_target_file (label path : str) : method unit :=
  modify_self (fun a => set_data (dict_set (data a) "default_target" (VStr path)) a) ;;
  _add_target_file label path.

(** [self._get_target_file(label)]. The rules are generated first, by
    [get_rules], which is when the rule routine records its files. *)
Definition _get_target_file (label : str) (self : Target) : outcome value * Target :=
  match get_rules self with
  | (Fail e, self') => (Fail e, self')
  | (Ok _, self') =>
      if negb (bool_decide (label = [])) then
        match dict_get (data self') "targets" with
        | Some (VDict targets) => (Ok (default (VStr "") (dict_get targets label)), self')
        | Some _ => (Fail (Raise "AttributeError" "get"), self')
        | None => (Fail (Raise "KeyError" "'targets'"), self')
        end
      else
        match dict_get (data self') "default_target" with
        | Some v => (Ok v, self')
        | None => (Fail (Raise "KeyError" "'default_target'"), self')
        end
  end.


(** The target [a:x] of [example_target] once its rules are generated *)
Definition example_built : Target :=
  match example_target with
  | Ok t => snd (get_rules t)
  | Fail _ => new_object example_class
                (initial_attributes (example_env "warning") (example_world "a") "x" "" [])
  end.

(** ** Notions used to state where the file paths lie *)

(** The components of a relative path that [normpath] keeps when none of
    them is [..] *)
Definition components (s : str) : list str :=
  filter (fun c : str => c <> [] /\ c <> ".") (Py.split "/" s).

(** The path [dir] followed by the components [comps], [dir] being a
    normalized path *)
Definition below (dir : str) (comps : list str) : str :=
  if bool_decide (comps = []) then dir
  else if bool_decide (dir = ".") then Py.join "/" comps
  else PosixPath.join dir (Py.join "/" comps).

(* ================================================================== *)
(** * Properties *)

Example normpath_examples :
  map PosixPath.normpath ["//foo" : str; "///foo" : str; "a/../.." : str; "/.." : str;
                          "a//b/./c/" : str; "" : str; "./x/../y" : str]
  = ["//foo" : str; "/foo" : str; ".." : str; "/" : str; "a/b/c" : str; "." : str; "y" : str].
Proof. vm_compute. reflexivity. Qed.

Example normalize_examples :
  normalize ["//lib/util:helper" : str] "app/service" = Ok ["lib/util:helper" : str]
  /\ normalize ["helper" : str] "." = Ok ["helper:*" : str]
  /\ normalize ["a/b/..." : str; ":x" : str] "w" = Ok ["w/a/b:..." : str; "w:x" : str].
Proof. vm_compute. repeat split. Qed.

Example repr_examples :
  str_sorted_items
    [("type" : str, VStr "t"); ("name" : str, VStr "n"); ("srcs" : str, VList [VStr "a.cc"]);
     ("deps" : str, VList []); ("x" : str, VDict [("a" : str, VInt 1)]); ("n" : str, VNone);
     ("b" : str, VBool true); ("t" : str, VTuple [VStr "a"]); ("e" : str, VTuple []);
     ("q" : str, VList [VStr "a'b"; VStr ("a" ++ Py.dquote ++ "b"); VStr ("a'" ++ Py.dquote);
                        VStr ["009"%char; "127"%char; "\"%char; "233"%char; "173"%char];
                        VInt (-12); VInt 0])]
  = "[('b', True), ('deps', []), ('e', ()), ('n', None), ('name', 'n'), "
    ++ "('q', [" ++ Py.dquote ++ "a'b" ++ Py.dquote ++ ", 'a" ++ Py.dquote ++ "b', 'a\'"
    ++ Py.dquote ++ "', '\t\x7f\\" ++ ["233"%char] ++ "\xad', -12, 0]), "
    ++ "('srcs', ['a.cc']), ('t', ('a',)), ('type', 't'), ('x', {'a': 1})]".
Proof. vm_compute. reflexivity. Qed.

Example LOCATION_RE_examples :
  let loc (s : str) :=
    (fun m => (Re.m_start m, Re.m_end m, Re.groups m)) <$> Re.search LOCATION_RE s in
  True
  /\ loc ("$(location //proto:msg jar)") = Some (0, 27, [Some ("//proto:msg" : str); Some (" jar" : str)])
  /\ loc ("cp $(location //a:b) $(location :c so ) x") = Some (3, 20, [Some ("//a:b" : str); None])
  /\ loc ("$(location #pthread)") = None
  /\ loc ("$(location #name):foo)") = Some (0, 22, [Some ("#name):foo" : str); None])
  /\ loc ("$(location  a:b:c)") = Some (0, 18, [Some ("a:b:c" : str); None])
  /\ loc ("$(location a:b))") = Some (0, 16, [Some ("a:b)" : str); None])
  /\ loc ("$(location a:b c d)") = None
  /\ loc ("$(location :x" ++ ["009"%char] ++ ")") = Some (0, 15, [Some (":x" : str); Some ("" ++ ["009"%char] ++ "" : str)])
  /\ loc ("$(location a: b)") = None
  /\ loc ("$(location a:b c)d)") = Some (0, 17, [Some ("a:b" : str); Some (" c" : str)]).
Proof. vm_compute. repeat split. Qed.

Example md5_test_vectors :
  MD5.hexdigest (("" : str)) = "d41d8cd98f00b204e9800998ecf8427e" /\
  MD5.hexdigest (("abc" : str)) = "900150983cd24fb0d6963f7d28e17f72" /\
  MD5.hexdigest (("The quick brown fox jumps over the lazy dog" : str)) = "9e107d9d372bb6826bd81d3542a419d6" /\
  MD5.hexdigest (repeat "a"%char 55) = "ef1772b6dff9a122358552954ad0df65" /\
  MD5.hexdigest (repeat "b"%char 56) = "b9d955696c7654cd20086bec31670b11" /\
  MD5.hexdigest (repeat "c"%char 64) = "bcd5708ed79b18f0f0aaa27fd0056d86" /\
  MD5.hexdigest (repeat "d"%char 130) = "60cc007b4eeec42482a3a0f1f6986150" /\
  MD5.hexdigest (["233"%char; "t"%char; "233"%char]) = "deaf6a1e9612a4d8c221e68ee23d58d2".
Proof. vm_compute. repeat split. Qed.

(** ** Rule emission cache *)

Section RuleEmission.

Lemma write_rules_appends rules (self : Target) rs :
  build_rules self = Some rs ->
  write_rules rules self
  = (Ok (), set_build_rules (Some (rs ++ map (fun r => r ++ ["010"%char]) rules)) self).
Proof.
  revert self rs. induction rules as [|r rules IH]; intros self rs Hrs; simpl.
  - rewrite app_nil_r. destruct self as [c a]. destruct a. simpl in *. by subst.
  - unfold _write_rule. rewrite Hrs.
    erewrite IH by reflexivity. rewrite <- app_assoc. reflexivity.
Qed.

Lemma emit_keeps_cache ems (self : Target) r (self' : Target) :
  is_Some (build_rules self) ->
  emit ems self = (r, self') ->
  is_Some (build_rules self') /\ ninja_rules_calls self' = ninja_rules_calls self
  /\ class self' = class self.
Proof.
  revert self. induction ems as [|em ems IH]; intros self [rs Hrs] Hem; simpl in Hem.
  - inversion Hem; subst. eauto.
  - assert (exists self1 : Target,
              emit_one em self = (Ok (), self1)
              /\ is_Some (build_rules self1)
              /\ ninja_rules_calls self1 = ninja_rules_calls self
              /\ class self1 = class self) as (self1 & Hstep & Hsome & Hcalls & Hclass).
    { destruct em; cbn [emit_one].
      - eexists. unfold _write_rule. rewrite Hrs. split; [reflexivity|]. simpl. eauto.
      - eexists. unfold ninja_build. rewrite (write_rules_appends _ self rs Hrs).
        split; [reflexivity|]. simpl. eauto.
      - eexists. split; [reflexivity|]. simpl. eauto. }
    rewrite Hstep in Hem.
    apply IH in Hem; [|done].
    destruct Hem as (? & ? & ?). repeat split; auto; congruence.
Qed.

Lemma get_rules_cached (self : Target) rules :
  build_rules self = Some rules -> get_rules self = (Ok rules, self).
Proof. intros H. unfold get_rules. by rewrite H. Qed.

Lemma get_rules_first (self : Target) rules (self' : Target) :
  build_rules self = None ->
  get_rules self = (Ok rules, self') ->
  build_rules self' = Some rules
  /\ ninja_rules_calls self' = S (ninja_rules_calls self).
Proof.
  intros Hnone Hget. unfold get_rules in Hget. rewrite Hnone in Hget.
  unfold call_ninja_rules in Hget.
  destruct (ninja_rules _ _) as [ems r] eqn:Hroutine.
  destruct (emit ems _) as [re self1] eqn:Hemit.
  apply emit_keeps_cache in Hemit; [|simpl; eauto].
  destruct Hemit as ([rs Hrs] & Hcalls & _).
  destruct re as [[]|e]; [destruct r as [[]|e]|]; try discriminate.
  rewrite Hrs in Hget. inversion Hget; subst. split; [done|].
  rewrite Hcalls. reflexivity.
Qed.

Lemma get_rules_repeatedly_cached n (self : Target) rules :
  build_rules self = Some rules ->
  get_rules_repeatedly n self = (repeat (Ok rules) n, self).
Proof.
  intros H. induction n as [|n IH]; simpl; [done|].
  rewrite (get_rules_cached _ _ H), IH. reflexivity.
Qed.

(** C2: when the first [get_rules] of a target whose rules are not yet
    generated returns a sequence, every later call returns that same
    sequence and leaves the target as it is, and [ninja_rules] has run
    exactly once however many calls were made. *)
Theorem get_rules_generates_once (self : Target) rules (self1 : Target) n :
  build_rules self = None ->
  get_rules self = (Ok rules, self1) ->
  get_rules self1 = (Ok rules, self1)
  /\ get_rules_repeatedly (S (S n)) self = (repeat (Ok rules) (S (S n)), self1)
  /\ ninja_rules_calls self1 = S (ninja_rules_calls self).
Proof.
  intros Hnone Hget.
  destruct (get_rules_first _ _ _ Hnone Hget) as [Hcached Hcalls].
  split; [by apply get_rules_cached|]. split; [|done].
  cbn [get_rules_repeatedly]. rewrite Hget.
  rewrite (get_rules_cached _ _ Hcached).
  rewrite (get_rules_repeatedly_cached n _ _ Hcached). reflexivity.
Qed.

End RuleEmission.

(** A target fresh from its constructor, asked for its rules three times *)
Lemma get_rules_generates_once_witness :
  exists self rules self1,
    example_target = Ok self
    /\ build_rules self = None
    /\ get_rules self = (Ok rules, self1)
    /\ rules = ["build x.o: cc x.cc" ++ ["010"%char]; "  cflags = -O2" ++ ["010"%char];
                ["010"%char]]
    /\ get_rules self1 = (Ok rules, self1)
    /\ get_rules_repeatedly 3 self = ([Ok rules; Ok rules; Ok rules], self1)
    /\ ninja_rules_calls self = 0 /\ ninja_rules_calls self1 = 1.
Proof.
  unfold example_target.
  match goal with |- context [Ok ?t = Ok _] => set (self := t) end.
  exists self, (default [] (build_rules (snd (get_rules self)))), (snd (get_rules self)).
  assert (get_rules self
          = (Ok (default [] (build_rules (snd (get_rules self)))), snd (get_rules self)))
    as Hfirst by (vm_compute; reflexivity).
  destruct (get_rules_generates_once self _ _ 1 eq_refl Hfirst) as (Hagain & Hrep & Hcalls).
  split; [reflexivity|]. split; [reflexivity|]. split; [exact Hfirst|].
  split; [vm_compute; reflexivity|]. split; [exact Hagain|]. split; [exact Hrep|].
  split; [reflexivity|]. rewrite Hcalls. reflexivity.
Defined.

(** ** Source ownership registry *)

Ltac method_unfold :=
  unfold fatal, warning, console_fatal, console_warning, when, throw,
    get_self, get_world, modify_self, modify_object, modify_world, construct;
  unfold mbind, method_bind, bind, mret, method_ret.

Section Ownership.
Context (E : Env).

Lemma claim_step_cases action s st :
  let src := src_of (self st) s in
  let target := claim_of (self st) in
  let reg := src_target_map (world st) in
  _check_srcs_claim action s st =
    if Py.contains s ".." || Py.startswith s "/"
    then (Fail (Fatal (_format_message (self st) "error" (invalid_src_message s))), st)
    else
    match reg !! src with
    | None => (Ok (), with_registry (<[src := target]> reg) st)
    | Some existed =>
        if bool_decide (existed = target) then (Ok (), st)
        else if existed.2 then (Ok (), with_registry (<[src := target]> reg) st)
        else if target.2 then (Ok (), st)
        else if bool_decide (action = "error")
        then (Fail (Fatal (conflict_message s existed.1 target.1)), st)
        else if bool_decide (action = "warning")
        then (Ok (), with_warning (conflict_message s existed.1 target.1) st)
        else (Ok (), st)
    end.
Proof.
  cbv zeta. unfold _check_srcs_claim. method_unfold.
  destruct (Py.contains s ".." || Py.startswith s "/"); [reflexivity|]. simpl.
  fold (src_of (self st) s). fold (claim_of (self st)).
  destruct (src_target_map (world st) !! src_of (self st) s) as [existed|];
    [|reflexivity].
  destruct (bool_decide (existed = claim_of (self st))); simpl; [reflexivity|].
  destruct (existed.2); [reflexivity|].
  destruct (_allow_duplicate_source (class (self st)) (self st)); [reflexivity|].
  repeat case_bool_decide; reflexivity.
Qed.

Lemma for_each_cons {A} (x : A) l body st :
  for_each (x :: l) body st =
    match body x st with
    | (Ok _, st') => for_each l body st'
    | (Fail e, st') => (Fail e, st')
    end.
Proof. reflexivity. Qed.

(** One step of the loop leaves [self] alone and moves every registry
    entry to the owner [owner_after] names, or not at all. *)
Lemma claim_step_effect action s st r st' :
  _check_srcs_claim action s st = (r, st') ->
  self st' = self st
  /\ (forall k, src_target_map (world st') !! k = src_target_map (world st) !! k
             \/ src_target_map (world st') !! k
                = Some (owner_after (src_target_map (world st) !! k) (claim_of (self st))))
  /\ (r = Ok () ->
      src_target_map (world st') !! src_of (self st) s
      = Some (owner_after (src_target_map (world st) !! src_of (self st) s)
                (claim_of (self st)))).
Proof.
  rewrite claim_step_cases. intros Hstep.
  assert (forall st0 : state,
            src_target_map (world st0) = src_target_map (world st) ->
            forall k, src_target_map (world st0) !! k = src_target_map (world st) !! k
              \/ src_target_map (world st0) !! k
                 = Some (owner_after (src_target_map (world st) !! k) (claim_of (self st))))
    as Hkeep by (intros st0 -> k; by left).
  assert (forall k, src_target_map (world (with_registry
              (<[src_of (self st) s := claim_of (self st)]> (src_target_map (world st))) st)) !! k
            = (<[src_of (self st) s := claim_of (self st)]> (src_target_map (world st))) !! k)
    as Hins by done.
  destruct (Py.contains s ".." || Py.startswith s "/").
  { injection Hstep as <- <-. split; [done|]. split; [by apply Hkeep|done]. }
  destruct (src_target_map (world st) !! src_of (self st) s) as [existed|] eqn:Hreg.
  - case_bool_decide as Hsame.
    { injection Hstep as <- <-. split; [done|]. split; [by apply Hkeep|].
      intros _. rewrite Hreg. simpl. subst existed. by destruct ((claim_of (self st)).2). }
    destruct (existed.2) eqn:Hallow.
    { injection Hstep as <- <-. split; [done|]. split.
      - intros k. rewrite Hins. destruct (decide (k = src_of (self st) s)) as [->|Hne].
        + right. rewrite lookup_insert_eq, Hreg. simpl. by rewrite Hallow.
        + left. by rewrite lookup_insert_ne.
      - intros _. rewrite Hins, lookup_insert_eq. simpl. by rewrite Hallow. }
    assert (owner_after (Some existed) (claim_of (self st)) = existed) as Howner
      by (simpl; by rewrite Hallow).
    rewrite Howner.
    destruct ((claim_of (self st)).2).
    { injection Hstep as <- <-. split; [done|]. split; [by apply Hkeep|done]. }
    case_bool_decide.
    { injection Hstep as <- <-. split; [done|]. split; [by apply Hkeep|done]. }
    case_bool_decide.
    { injection Hstep as <- <-. split; [done|]. split; [by apply Hkeep|done]. }
    injection Hstep as <- <-. split; [done|]. split; [by apply Hkeep|done].
  - injection Hstep as <- <-. split; [done|]. split.
    + intros k. rewrite Hins. destruct (decide (k = src_of (self st) s)) as [->|Hne].
      * right. by rewrite lookup_insert_eq, Hreg.
      * left. by rewrite lookup_insert_ne.
    + intros _. by rewrite Hins, lookup_insert_eq.
Qed.

Lemma owner_after_idemp old new :
  owner_after (Some (owner_after old new)) new = owner_after old new.
Proof.
  destruct old as [existed|]; simpl.
  - destruct (existed.2) eqn:H; simpl; [|by rewrite H]. by destruct (new.2).
  - by destruct (new.2).
Qed.

(** The loop of [_check_srcs] over any list of sources *)
Lemma claim_loop_effect action l st r st' :
  for_each l (_check_srcs_claim action) st = (r, st') ->
  self st' = self st
  /\ (forall k, src_target_map (world st') !! k = src_target_map (world st) !! k
             \/ src_target_map (world st') !! k
                = Some (owner_after (src_target_map (world st) !! k) (claim_of (self st))))
  /\ (r = Ok () -> forall s, s ∈ l ->
      src_target_map (world st') !! src_of (self st) s
      = Some (owner_after (src_target_map (world st) !! src_of (self st) s)
                (claim_of (self st)))).
Proof.
  revert st. induction l as [|s0 l IH]; intros st Hloop.
  - injection Hloop as <- <-. split; [done|]. split; [by left|].
    intros _ s Hs. by apply elem_of_nil in Hs.
  - rewrite for_each_cons in Hloop.
    destruct (_check_srcs_claim action s0 st) as [r0 st0] eqn:Hstep.
    apply claim_step_effect in Hstep. destruct Hstep as (Hself0 & Hframe0 & Hown0).
    destruct r0 as [[]|e].
    + apply IH in Hloop. destruct Hloop as (Hself & Hframe & Hown).
      rewrite Hself0 in *.
      assert (forall k, src_target_map (world st') !! k = src_target_map (world st) !! k
             \/ src_target_map (world st') !! k
                = Some (owner_after (src_target_map (world st) !! k) (claim_of (self st))))
        as Hall.
      { intros k. destruct (Hframe k) as [H1|H1]; destruct (Hframe0 k) as [H0|H0];
          rewrite H1, ?H0, ?owner_after_idemp; auto. }
      split; [by rewrite Hself|]. split; [done|].
      intros Hr s Hs.
      apply elem_of_cons in Hs. destruct Hs as [->|Hs].
      * specialize (Hown0 eq_refl).
        destruct (Hframe (src_of (self st) s0)) as [H1|H1];
          rewrite H1, Hown0, ?owner_after_idemp; auto.
      * rewrite (Hown Hr s Hs).
        destruct (Hframe0 (src_of (self st) s)) as [H0|H0];
          rewrite H0, ?owner_after_idemp; auto.
    + injection Hloop as <- <-. split; [done|]. split; [done|]. discriminate.
Qed.

(** The effect of [_check_srcs] on the registry *)
Lemma check_srcs_effect st r st' :
  _check_srcs E st = (r, st') ->
  self st' = self st
  /\ (forall k, src_target_map (world st') !! k = src_target_map (world st) !! k
             \/ src_target_map (world st') !! k
                = Some (owner_after (src_target_map (world st) !! k) (claim_of (self st))))
  /\ (r = Ok () -> forall s, s ∈ srcs (self st) ->
      src_target_map (world st') !! src_of (self st) s
      = Some (owner_after (src_target_map (world st) !! src_of (self st) s)
                (claim_of (self st)))).
Proof.
  unfold _check_srcs. method_unfold.
  destruct (negb (bool_decide (duplicate_srcs (srcs (self st)) = []))).
  - intros [= <- <-]. split; [done|]. split; [by left|discriminate].
  - apply claim_loop_effect.
Qed.

(** A claimant that disallows duplicate sources keeps its path through
    [_check_srcs], whatever the outcome is. *)
Lemma check_srcs_keeps st s existed r st' :
  src_target_map (world st) !! src_of (self st) s = Some existed ->
  existed.2 = false ->
  _check_srcs E st = (r, st') ->
  src_target_map (world st') !! src_of (self st) s = Some existed.
Proof.
  intros Hreg Hdis Hcheck.
  apply check_srcs_effect in Hcheck. destruct Hcheck as (_ & Hframe & _).
  destruct (Hframe (src_of (self st) s)) as [H|H];
    rewrite H, Hreg; simpl; by rewrite ?Hdis.
Qed.

(** C3, as the code has it: a path already claimed keeps a claimant that
    disallows duplicate sources, whatever the new target and the policy
    are; a claimant that allows them gives the path to the new target,
    whether or not the new target allows duplicates. *)
Theorem check_srcs_ownership st s existed r st' :
  s ∈ srcs (self st) ->
  src_target_map (world st) !! src_of (self st) s = Some existed ->
  _check_srcs E st = (r, st') ->
  (existed.2 = false ->
   src_target_map (world st') !! src_of (self st) s = Some existed)
  /\ (existed.2 = true -> r = Ok () ->
      src_target_map (world st') !! src_of (self st) s = Some (claim_of (self st))).
Proof.
  intros Hs Hreg Hcheck. split.
  - intros Hdis. by eapply check_srcs_keeps.
  - apply check_srcs_effect in Hcheck. destruct Hcheck as (_ & _ & Hown).
    intros Hallow Hr. rewrite (Hown Hr s Hs), Hreg. simpl. by rewrite Hallow.
Qed.

(** *** The policy for conflicts *)

Lemma duplicate_srcs_fold (l : list str) (dups : list str) (seen : gset str) :
  dups = [] -> NoDup l -> (forall x, x ∈ l -> x ∉ seen) ->
  fst (fold_left
         (fun '(dups, srcset) s =>
            if bool_decide (s ∈ (srcset : gset str)) then (dups ++ [s], srcset)
            else (dups, srcset ∪ {[s]}))
         l (dups, seen)) = [].
Proof.
  revert seen. induction l as [|x l IH]; intros seen Hd Hnd Hfresh; simpl; [done|].
  apply NoDup_cons in Hnd. destruct Hnd as [Hx Hnd].
  rewrite bool_decide_eq_false_2 by (apply Hfresh; apply elem_of_cons; by left).
  apply IH; [done|done|].
  intros y Hy. assert (y ≠ x) as Hyx by (intros ->; done).
  specialize (Hfresh y (proj2 (elem_of_cons _ _ _) (or_intror Hy))).
  rewrite elem_of_union, elem_of_singleton. tauto.
Qed.

Lemma duplicate_srcs_NoDup l : NoDup l -> duplicate_srcs l = [].
Proof.
  intros H. unfold duplicate_srcs. apply duplicate_srcs_fold; [done|done|set_solver].
Qed.

(** A claimant that disallows duplicates and is not [self] stays through
    a step of the loop. *)
Lemma claim_step_keeps action s st r st' k e :
  _check_srcs_claim action s st = (r, st') ->
  src_target_map (world st) !! k = Some e -> e.2 = false ->
  src_target_map (world st') !! k = Some e.
Proof.
  intros Hstep Hk He. apply claim_step_effect in Hstep.
  destruct Hstep as (_ & Hframe & _).
  destruct (Hframe k) as [H|H]; rewrite H, Hk; simpl; by rewrite ?He.
Qed.

Ltac claim_step_split Hstep :=
  rewrite claim_step_cases in Hstep;
  match type of Hstep with
  | context [Py.contains ?s ?d || Py.startswith ?s ?p] =>
      destruct (Py.contains s d || Py.startswith s p) eqn:?
  end;
  [|match type of Hstep with
    | context [src_target_map ?w !! ?k] =>
        destruct (src_target_map w !! k) as [?existed|] eqn:?
    end;
    [case_bool_decide;
     [|match type of Hstep with
       | context [if ?e.2 then _ else _] => destruct (e.2) eqn:?
       end;
       [|match type of Hstep with
         | context [if (claim_of ?t).2 then _ else _] => destruct ((claim_of t).2) eqn:?
         end;
         [|repeat case_bool_decide; try discriminate]]]|]];
  injection Hstep as <- <-.

Lemma claim_loop_warning l st r st' :
  Forall valid_src l ->
  for_each l (_check_srcs_claim "warning") st = (r, st') ->
  r = Ok ()
  /\ (forall m, m ∈ console_log (world st) -> m ∈ console_log (world st'))
  /\ (forall s e, s ∈ l ->
        src_target_map (world st) !! src_of (self st) s = Some e ->
        e.2 = false -> (claim_of (self st)).2 = false -> e.1 ≠ fullname (self st) ->
        (Warning_level, conflict_message s e.1 (fullname (self st)))
          ∈ console_log (world st')).
Proof.
  revert st. induction l as [|s0 l IH]; intros st Hvalid Hloop.
  - injection Hloop as <- <-. split; [done|]. split; [done|].
    intros s e Hs. by apply elem_of_nil in Hs.
  - apply Forall_cons in Hvalid. destruct Hvalid as [Hv0 Hvalid].
    rewrite for_each_cons in Hloop.
    destruct (_check_srcs_claim "warning" s0 st) as [r0 st0] eqn:Hstep.
    pose proof (claim_step_effect _ _ _ _ _ Hstep) as (Hself0 & _ & _).
    pose proof (fun k e => claim_step_keeps _ _ _ _ _ k e Hstep) as Hkeep.
    assert (r0 = Ok ()
            /\ (forall m, m ∈ console_log (world st) -> m ∈ console_log (world st0))
            /\ (forall e, src_target_map (world st) !! src_of (self st) s0 = Some e ->
                  e.2 = false -> (claim_of (self st)).2 = false ->
                  e.1 ≠ fullname (self st) ->
                  (Warning_level, conflict_message s0 e.1 (fullname (self st)))
                    ∈ console_log (world st0))) as (-> & Hlog0 & Hwarn0).
    { clear Hkeep Hself0 Hloop IH. unfold valid_src in Hv0.
      claim_step_split Hstep; try congruence; (split; [done|]); (split; [try done|]).
      - intros e [= <-] He _ Hne. exfalso. apply Hne.
        match goal with H : existed = claim_of _ |- _ => by rewrite H end.
      - intros e [= <-]. congruence.
      - intros e _ _. discriminate.
      - intros m Hm. simpl. apply elem_of_app. by left.
      - intros e [= <-] _ _ _. simpl. apply elem_of_app. right.
        apply list_elem_of_singleton. reflexivity.
      - intros e. discriminate. }
    apply IH in Hloop; [|done]. destruct Hloop as (-> & Hlog & Hwarn).
    rewrite Hself0 in *.
    split; [done|]. split; [auto|].
    intros s e Hs Hreg He Hc Hne.
    apply elem_of_cons in Hs. destruct Hs as [->|Hs]; [by eauto|].
    apply (Hwarn s e); auto.
Qed.

Lemma claim_loop_silent (action : str) l st r st' :
  action ≠ "error" -> action ≠ "warning" ->
  Forall valid_src l ->
  for_each l (_check_srcs_claim action) st = (r, st') ->
  r = Ok () /\ console_log (world st') = console_log (world st).
Proof.
  intros Herr Hwarn. revert st. induction l as [|s0 l IH]; intros st Hvalid Hloop.
  - by injection Hloop as <- <-.
  - apply Forall_cons in Hvalid. destruct Hvalid as [Hv0 Hvalid].
    rewrite for_each_cons in Hloop.
    destruct (_check_srcs_claim action s0 st) as [r0 st0] eqn:Hstep.
    assert (r0 = Ok () /\ console_log (world st0) = console_log (world st))
      as (-> & Hlog0).
    { unfold valid_src in Hv0. claim_step_split Hstep; try congruence; done. }
    apply IH in Hloop; [|done]. destruct Hloop as (-> & Hlog).
    split; [done|]. by rewrite Hlog.
Qed.

Lemma claim_loop_error l st r st' s e :
  Forall valid_src l ->
  s ∈ l ->
  src_target_map (world st) !! src_of (self st) s = Some e ->
  e.2 = false -> (claim_of (self st)).2 = false -> e.1 ≠ fullname (self st) ->
  for_each l (_check_srcs_claim "error") st = (r, st') ->
  exists s' e',
    s' ∈ l /\ src_target_map (world st) !! src_of (self st) s' = Some e'
    /\ e'.2 = false /\ e'.1 ≠ fullname (self st)
    /\ r = Fail (Fatal (conflict_message s' e'.1 (fullname (self st)))).
Proof.
  revert st. induction l as [|s0 l IH]; intros st Hvalid Hs Hreg He Hc Hne Hloop.
  - by apply elem_of_nil in Hs.
  - apply Forall_cons in Hvalid. destruct Hvalid as [Hv0 Hvalid].
    rewrite for_each_cons in Hloop.
    destruct (_check_srcs_claim "error" s0 st) as [r0 st0] eqn:Hstep.
    pose proof (claim_step_effect _ _ _ _ _ Hstep) as (Hself0 & Hframe0 & _).
    pose proof (fun k e => claim_step_keeps _ _ _ _ _ k e Hstep) as Hkeep.
    (* either this step is fatal for [s0], or the loop goes on *)
    assert ((exists e0, src_target_map (world st) !! src_of (self st) s0 = Some e0
                        /\ e0.2 = false /\ e0.1 ≠ fullname (self st)
                        /\ r0 = Fail (Fatal (conflict_message s0 e0.1 (fullname (self st)))))
            \/ (r0 = Ok ()
                /\ (s = s0 -> False))) as [(e0 & Hreg0 & He0 & Hne0 & ->)|(-> & Hnot)].
    { clear Hkeep Hself0 Hloop IH Hframe0. unfold valid_src in Hv0.
      claim_step_split Hstep; try congruence.
      - right. split; [done|]. intros ->.
        match goal with H : existed = claim_of _ |- _ => rewrite H in * end.
        rewrite Hreg in *. simplify_eq.
      - right. split; [done|]. intros ->. congruence.
      - left. eexists. split; [done|]. split; [done|]. split; [|done].
        intros Hfull.
        match goal with H : existed ≠ claim_of _ |- _ => apply H end.
        destruct existed as [e1 e2]. unfold claim_of in *. simpl in *. congruence.
      - right. split; [done|]. intros ->. congruence. }
    + injection Hloop as <- <-. exists s0, e0. repeat split; auto. apply elem_of_cons; by left.
    + apply elem_of_cons in Hs. destruct Hs as [->|Hs]; [done|].
      apply (IH st0) in Hloop; auto; rewrite ?Hself0; auto.
      destruct Hloop as (s' & e' & Hs' & Hreg' & He' & Hne' & ->).
      rewrite Hself0 in *.
      exists s', e'. split; [apply elem_of_cons; by right|]. split; [|done].
      destruct (Hframe0 (src_of (self st) s')) as [H|H]; rewrite H in Hreg'; [done|].
      injection Hreg' as <-.
      destruct (src_target_map (world st) !! src_of (self st) s') as [x|]; simpl in *.
      * destruct (x.2) eqn:Hx; [|done]. unfold claim_of in Hne'. done.
      * unfold claim_of in Hne'. done.
Qed.

(** C8: when a target that disallows duplicate sources claims a source
    owned by a different target that disallows them too, the configured
    [duplicated_source_action] decides: "error" ends the run with a fatal
    message naming the two owners of the first such source, "warning"
    logs a warning naming both owners and goes on, any other value passes
    in silence. The existing owner stays in each case. *)
Theorem check_srcs_conflict_policy st s existed r st' :
  NoDup (srcs (self st)) ->
  Forall valid_src (srcs (self st)) ->
  s ∈ srcs (self st) ->
  src_target_map (world st) !! src_of (self st) s = Some existed ->
  existed.2 = false ->
  (claim_of (self st)).2 = false ->
  existed.1 ≠ fullname (self st) ->
  _check_srcs E st = (r, st') ->
  (config_duplicated_source_action E = "error" ->
   exists s' existed',
     s' ∈ srcs (self st)
     /\ src_target_map (world st) !! src_of (self st) s' = Some existed'
     /\ existed'.2 = false /\ existed'.1 ≠ fullname (self st)
     /\ r = Fail (Fatal (conflict_message s' existed'.1 (fullname (self st)))))
  /\ (config_duplicated_source_action E = "warning" ->
      r = Ok ()
      /\ (Warning_level, conflict_message s existed.1 (fullname (self st)))
           ∈ console_log (world st'))
  /\ (config_duplicated_source_action E ≠ "error" ->
      config_duplicated_source_action E ≠ "warning" ->
      r = Ok () /\ console_log (world st') = console_log (world st))
  /\ src_target_map (world st') !! src_of (self st) s = Some existed.
Proof.
  intros Hnd Hvalid Hs Hreg He Hc Hne Hcheck.
  pose proof (check_srcs_keeps _ _ _ _ _ Hreg He Hcheck) as Hkept.
  unfold _check_srcs in Hcheck. revert Hcheck. method_unfold.
  rewrite (duplicate_srcs_NoDup _ Hnd). simpl. intros Hloop.
  split; [|split; [|split]]; auto.
  - intros Ha. rewrite Ha in Hloop. eapply claim_loop_error; eauto.
  - intros Ha. rewrite Ha in Hloop.
    apply claim_loop_warning in Hloop; [|done].
    destruct Hloop as (-> & _ & Hwarn). split; [done|]. by apply (Hwarn s existed).
  - intros Ha1 Ha2. eapply claim_loop_silent; eauto.
Qed.

End Ownership.

(** The scenario of the spec: [a:x] disallows duplicate sources and
    registers [common.cc] first, [a:y] allows them and comes second;
    [a:x] stays the owner and nothing is fatal, whatever the policy. *)
Lemma check_srcs_ownership_witness :
  let E := example_env "error" in
  let st := constructing E example_class "y" ["common.cc" : str]
              (world_after E Target_class "x" ["common.cc" : str] (example_world "a")) in
  fst (_check_srcs E st) = Ok ()
  /\ src_target_map (world (snd (_check_srcs E st))) !! ("a/common.cc" : str)
     = Some ("a:x" : str, false).
Proof.
  intros E st. split; [vm_compute; reflexivity|].
  refine (proj1 (check_srcs_ownership E st "common.cc" ("a:x" : str, false)
                   (fst (_check_srcs E st)) (snd (_check_srcs E st)) _ _ _) _).
  - apply list_elem_of_singleton. reflexivity.
  - vm_compute. reflexivity.
  - destruct (_check_srcs E st). reflexivity.
  - reflexivity.
Defined.

(** C3 as the spec words it fails where both claimants allow duplicate
    sources: the claim does not stay with the first target, it moves to
    the second. *)
Lemma both_allowing_claim_moves :
  let E := example_env "warning" in
  let st := constructing E example_class "y" ["common.cc" : str]
              (world_after E example_class "x" ["common.cc" : str] (example_world "a")) in
  src_target_map (world st) !! src_of (self st) "common.cc" = Some ("a:x" : str, true)
  /\ claim_of (self st) = ("a:y" : str, true)
  /\ fst (_check_srcs E st) = Ok ()
  /\ src_target_map (world (snd (_check_srcs E st))) !! src_of (self st) "common.cc"
     = Some ("a:y" : str, true)
  /\ src_target_map (world (snd (_check_srcs E st))) !! src_of (self st) "common.cc"
     <> src_target_map (world st) !! src_of (self st) "common.cc".
Proof. vm_compute. repeat split. discriminate. Qed.

(** Two targets that both disallow duplicate sources claim [common.cc]
    under the policy "warning": a warning names both and [a:x] stays. *)
Lemma check_srcs_conflict_policy_witness :
  let E := example_env "warning" in
  let st := constructing E Target_class "y" ["common.cc" : str]
              (world_after E Target_class "x" ["common.cc" : str] (example_world "a")) in
  fst (_check_srcs E st) = Ok ()
  /\ (Warning_level, "Source file common.cc belongs to {a:x, a:y}" : str)
       ∈ console_log (world (snd (_check_srcs E st))).
Proof.
  intros E st.
  refine (proj1 (proj2 (check_srcs_conflict_policy E st "common.cc" ("a:x" : str, false)
                   (fst (_check_srcs E st)) (snd (_check_srcs E st)) _ _ _ _ _ _ _ _)) _).
  - apply NoDup_singleton.
  - apply Forall_singleton. reflexivity.
  - apply list_elem_of_singleton. reflexivity.
  - vm_compute. reflexivity.
  - reflexivity.
  - reflexivity.
  - vm_compute. discriminate.
  - destruct (_check_srcs E st). reflexivity.
  - reflexivity.
Defined.

(** The same two targets under the policies "error" and "ignore" *)
Example conflict_policy_error_and_other :
  let st E := constructing E Target_class "y" ["common.cc" : str]
                (world_after E Target_class "x" ["common.cc" : str] (example_world "a")) in
  fst (_check_srcs (example_env "error") (st (example_env "error")))
  = Fail (Fatal "Source file common.cc belongs to {a:x, a:y}")
  /\ _check_srcs (example_env "ignore") (st (example_env "ignore"))
     = (Ok (), st (example_env "ignore")).
Proof. vm_compute. split; reflexivity. Qed.

(** ** Dependency resolver *)

Section Resolver.
Context (E : Env).

Lemma rsplit1_absent sep (s : str) :
  Py.has_char sep s = false -> Py.rsplit1 sep s = [s].
Proof.
  induction s as [|c s IH]; simpl; [done|].
  intros H. apply orb_false_elim in H. destruct H as [Hc Hs].
  rewrite (IH Hs). rewrite Ascii.eqb_sym, Hc. by destruct s.
Qed.

Lemma rsplit1_last sep (p n : str) :
  Py.has_char sep n = false -> Py.rsplit1 sep (p ++ sep :: n) = [p; n].
Proof.
  intros Hn. induction p as [|c p IH]; simpl.
  - rewrite (rsplit1_absent _ _ Hn), Ascii.eqb_refl. by destruct n.
  - by rewrite IH.
Qed.

Lemma has_char_app c (a b : str) :
  Py.has_char c (a ++ b) = Py.has_char c a || Py.has_char c b.
Proof. unfold Py.has_char. apply existsb_app. Qed.

Lemma add_expanded_dep_effect k st :
  add_expanded_dep k st
  = (Ok (), {| self := update (fun a => set_expanded_deps (append_new k (expanded_deps a)) a)
                         (self st);
               world := world st |}).
Proof.
  unfold add_expanded_dep, append_new, update. method_unfold. simpl.
  destruct (bool_decide (k ∈ expanded_deps (self st))); simpl; [|done].
  destruct st as [[c a] w]. by destruct a.
Qed.

Lemma add_dep_effect k st :
  add_dep k st
  = (Ok (), {| self := update (fun a => set_deps (append_new k (deps a)) a) (self st);
               world := world st |}).
Proof.
  unfold add_dep, append_new, update. method_unfold. simpl.
  destruct (bool_decide (k ∈ deps (self st))); simpl; [|done].
  destruct st as [[c a] w]. by destruct a.
Qed.

Lemma modify_self_keeps_world f st :
  modify_self f st = (Ok (), {| self := update f (self st); world := world st |}).
Proof. reflexivity. Qed.

Lemma bind_ok {A B} (m : method A) (f : A -> method B) st a st1 :
  m st = (Ok a, st1) -> bind m f st = f a st1.
Proof. unfold bind. by intros ->. Qed.

Lemma bind_fail {A B} (m : method A) (f : A -> method B) st e st1 :
  m st = (Fail e, st1) -> bind m f st = (Fail e, st1).
Proof. unfold bind. by intros ->. Qed.

Lemma bind_inv {A B} (m : method A) (f : A -> method B) st r st' :
  bind m f st = (r, st') ->
  (exists a st1, m st = (Ok a, st1) /\ f a st1 = (r, st'))
  \/ (exists e, m st = (Fail e, st') /\ r = Fail e).
Proof.
  unfold bind. destruct (m st) as [[a|e] st1]; intros H.
  - left. eauto.
  - right. injection H as <- <-. eauto.
Qed.

Lemma add_system_library_cases k name st :
  _add_system_library E k name st =
    match target_database (world st) !! k with
    | Some _ => (Ok (), st)
    | None =>
        match SystemLibrary__init__ E name (world st) with
        | (Ok lib, w) =>
            (Ok (), {| self := self st;
                       world := set_target_database (<[key lib := lib]> (target_database w)) w |})
        | (Fail e, w) => (Fail e, {| self := self st; world := w |})
        end
    end.
Proof.
  unfold _add_system_library, register_target. method_unfold. simpl.
  destruct (target_database (world st) !! k); [reflexivity|].
  by destruct (SystemLibrary__init__ E name (world st)) as [[lib|e] w].
Qed.

Lemma add_system_library_self k name st r st' :
  _add_system_library E k name st = (r, st') -> self st' = self st.
Proof.
  rewrite add_system_library_cases.
  destruct (target_database (world st) !! k); [by intros [= <- <-]|].
  destruct (SystemLibrary__init__ E name (world st)) as [[lib|e] w];
    by intros [= <- <-].
Qed.

Lemma unify_dep_cases dep st :
  _unify_dep E dep st =
    if Py.startswith dep "#" then
      match _add_system_library E ("#" : str, drop 1 dep) dep st with
      | (Ok _, st') => (Ok ("#" : str, drop 1 dep), st')
      | (Fail e, st') => (Fail e, st')
      end
    else (unify_pure (path (self st)) (fullname (self st)) dep, st).
Proof.
  unfold _unify_dep, unify_pure. method_unfold.
  destruct dep as [|c dep']; [reflexivity|].
  destruct (Ascii.eqb c ":") eqn:Hc.
  { apply Ascii.eqb_eq in Hc. subst c. reflexivity. }
  destruct (Py.startswith (c :: dep') "//") eqn:Hss.
  { assert (Py.startswith (c :: dep') "#" = false) as ->.
    { change (Py.startswith (c :: dep') "//")
        with (Ascii.eqb "/" c && Py.startswith dep' "/") in Hss.
      destruct (Ascii.eqb "/" c) eqn:H; [|done].
      apply Ascii.eqb_eq in H. by subst c. }
    destruct (negb _); [reflexivity|]. unfold unpack2.
    by destruct (Py.rsplit1 ":" (drop 2 (c :: dep'))) as [|a [|b [|x l]]]. }
  destruct (Py.startswith (c :: dep') "#"); [reflexivity|].
  destruct (negb _); [reflexivity|]. unfold unpack2.
  destruct (Py.rsplit1 ":" (c :: dep')) as [|a [|b [|x l]]]; try reflexivity.
  simpl. by destruct (Py.contains a _).
Qed.

Lemma unify_dep_self dep st r st' :
  _unify_dep E dep st = (r, st') -> self st' = self st.
Proof.
  rewrite unify_dep_cases. destruct (Py.startswith dep "#").
  - destruct (_add_system_library _ _ _ st) as [[[]|e] st1] eqn:Hadd;
      apply add_system_library_self in Hadd; by intros [= <- <-].
  - by intros [= <- <-].
Qed.

(** *** Rules for [triple] *)

Lemma triple_weaken {A} (P P' Q Q' : Target -> Prop) (m : method A) :
  triple P' m Q' -> (forall t, P t -> P' t) -> (forall t, Q' t -> Q t) -> triple P m Q.
Proof. unfold triple. eauto. Qed.

Lemma triple_bind {A B} (P R Q : Target -> Prop) (m : method A) (f : A -> method B) :
  triple P m R -> (forall a, triple R (f a) Q) -> (forall t, R t -> Q t) ->
  triple P (bind m f) Q.
Proof.
  intros Hm Hf HRQ st HP. specialize (Hm st HP). unfold bind.
  destruct (m st) as [[a|e] st1]; simpl in *; auto. by apply Hf.
Qed.

Lemma triple_seq {A B} (P R Q : Target -> Prop) (m : method A) (k : method B) :
  triple P m R -> triple R k Q -> (forall t, R t -> Q t) -> triple P (m ;; k) Q.
Proof. intros Hm Hk HRQ. apply (triple_bind P R Q); auto. Qed.

Lemma triple_ret {A} (P : Target -> Prop) (a : A) : triple P (mret a) P.
Proof. by intros st HP. Qed.

Lemma triple_throw {A} (P : Target -> Prop) e : triple P (@throw A e) P.
Proof. by intros st HP. Qed.

Lemma triple_get_self (P : Target -> Prop) : triple P get_self P.
Proof. by intros st HP. Qed.

Lemma triple_get_world (P : Target -> Prop) : triple P get_world P.
Proof. by intros st HP. Qed.

Lemma triple_modify_world (P : Target -> Prop) f : triple P (modify_world f) P.
Proof. by intros st HP. Qed.

Lemma triple_modify_self (P Q : Target -> Prop) f :
  (forall t, P t -> Q (update f t)) -> triple P (modify_self f) Q.
Proof. intros H st HP. by apply H. Qed.

Lemma triple_modify_object (P Q : Target -> Prop) f :
  (forall t, P t -> Q (f t)) -> triple P (modify_object f) Q.
Proof. intros H st HP. by apply H. Qed.

Lemma triple_construct (P : Target -> Prop) ctor : triple P (construct ctor) P.
Proof. intros st HP. unfold construct. by destruct (ctor (world st)). Qed.

Lemma triple_fatal {A} (P : Target -> Prop) msg : triple P (@fatal A msg) P.
Proof. by intros st HP. Qed.

Lemma triple_console_warning (P : Target -> Prop) msg : triple P (console_warning msg) P.
Proof. by intros st HP. Qed.

Lemma triple_when (P : Target -> Prop) (c : bool) m :
  triple P m P -> triple P (when c m) P.
Proof. intros H. destruct c; [done|apply triple_ret]. Qed.

Lemma triple_for_each {A} (P : Target -> Prop) (l : list A) body :
  (forall x, triple P (body x) P) -> triple P (for_each l body) P.
Proof.
  intros H. induction l as [|x l IH]; simpl; [apply triple_ret|].
  apply (triple_seq P P P); auto.
Qed.

Lemma triple_unpack2 {A} (P : Target -> Prop) (l : list A) : triple P (unpack2 l) P.
Proof. unfold unpack2. destruct l as [|a [|b [|c l]]]; by intros st HP. Qed.

Lemma triple_same_self {A} (P : Target -> Prop) (m : method A) :
  (forall st r st', m st = (r, st') -> self st' = self st) -> triple P m P.
Proof.
  intros H st HP. destruct (m st) as [r st'] eqn:Hm. simpl.
  by rewrite (H _ _ _ Hm).
Qed.

Create HintDb triple.

#[local] Hint Resolve triple_ret triple_throw triple_get_self triple_get_world
  triple_modify_world triple_construct triple_fatal triple_console_warning
  triple_unpack2 : triple.

Lemma triple_unify_dep (P : Target -> Prop) dep : triple P (_unify_dep E dep) P.
Proof. apply triple_same_self. apply unify_dep_self. Qed.

Lemma triple_add_system_library (P : Target -> Prop) k name :
  triple P (_add_system_library E k name) P.
Proof. apply triple_same_self. apply add_system_library_self. Qed.

Lemma triple_check_format (P : Target -> Prop) t : triple P (_check_format t) P.
Proof.
  unfold _check_format. apply (triple_seq P P P); auto; apply triple_when; auto with triple.
Qed.

Lemma triple_convert (P : Target -> Prop) s :
  triple P (_convert_string_to_target_helper s) P.
Proof.
  unfold _convert_string_to_target_helper.
  repeat case_match; auto with triple.
  apply (triple_bind P P P); auto with triple. intros [a b]. auto with triple.
Qed.

(** *** The invariant [deps ⊆ expanded_deps] *)

Lemma append_new_elem k (l : list target_key) x :
  x ∈ append_new k l <-> x ∈ l \/ x = k.
Proof.
  unfold append_new. case_bool_decide as Hk.
  - split; [by left|]. by intros [?| ->].
  - rewrite elem_of_app, list_elem_of_singleton. tauto.
Qed.

Lemma triple_add_expanded_dep k :
  triple deps_invariant (add_expanded_dep k)
    (fun t => deps_invariant t /\ k ∈ expanded_deps t).
Proof.
  intros st Hinv. rewrite add_expanded_dep_effect. simpl. split.
  - intros x Hx. apply append_new_elem. left. by apply Hinv.
  - apply append_new_elem. by right.
Qed.

Lemma triple_add_dep k :
  triple (fun t => deps_invariant t /\ k ∈ expanded_deps t) (add_dep k) deps_invariant.
Proof.
  intros st [Hinv Hk]. rewrite add_dep_effect. simpl.
  intros x Hx. apply append_new_elem in Hx. destruct Hx as [Hx| ->]; [by apply Hinv|done].
Qed.

Lemma triple_init_target_deps ds :
  triple deps_invariant (_init_target_deps E ds) deps_invariant.
Proof.
  unfold _init_target_deps. apply triple_for_each. intros d.
  apply (triple_bind _ deps_invariant); [apply triple_unify_dep| |done].
  intros k. eapply triple_seq; [apply triple_add_expanded_dep|apply triple_add_dep|].
  by intros t [H _].
Qed.

Lemma triple_add_location_reference_target m :
  triple deps_invariant (_add_location_reference_target E m) deps_invariant.
Proof.
  unfold _add_location_reference_target. destruct m as [m|]; [|apply triple_ret].
  apply (triple_bind _ deps_invariant); [apply triple_unpack2| |done].
  intros [k ty]. destruct k as [k|]; [|apply triple_throw].
  apply (triple_bind _ deps_invariant); [apply triple_unify_dep| |done].
  intros dkey. eapply triple_seq; [apply triple_add_expanded_dep| |by intros t [H _]].
  eapply triple_seq; [apply triple_add_dep|apply triple_ret|done].
Qed.

Lemma triple_add_hardcode_library l :
  triple deps_invariant (_add_hardcode_library E l) deps_invariant.
Proof.
  unfold _add_hardcode_library. apply triple_for_each. intros dep.
  apply (triple_bind _ deps_invariant); [apply triple_convert| |done].
  intros dkey. apply (triple_seq _ deps_invariant); [| |done].
  - apply triple_when. apply triple_add_system_library.
  - eapply triple_weaken; [apply triple_add_expanded_dep|done|]. by intros t [H _].
Qed.

Lemma triple_init_checks (P : Target -> Prop) ds kwargs :
  triple P (init_checks E ds kwargs) P.
Proof.
  unfold init_checks, _check_name, _check_kwargs, _check_deps.
  apply (triple_seq P P P); [| |done].
  { apply (triple_bind P P P); auto with triple. intros t. apply triple_when; auto with triple. }
  apply (triple_seq P P P); [apply triple_when; auto with triple| |done].
  apply (triple_seq P P P); [| |done].
  - apply triple_same_self. intros st r st' H. by apply check_srcs_effect in H as (? & _).
  - apply triple_for_each. apply triple_check_format.
Qed.

Lemma triple_init_visibility (P : Target -> Prop) vis :
  (forall v t, P t -> P (update (set_visibility v) t)) ->
  triple P (_init_visibility E vis) P.
Proof.
  intros HP. unfold _init_visibility. destruct vis as [vis|]; [|apply triple_ret].
  case_bool_decide; [apply triple_ret|].
  apply (triple_seq P P P); [apply triple_modify_self, HP| |done].
  apply triple_for_each. intros v.
  apply (triple_seq P P P); [apply triple_check_format| |done].
  apply (triple_bind P P P); [apply triple_unify_dep| |done]. intros k.
  apply (triple_bind P P P); [apply triple_get_self| |done]. intros t.
  destruct (self_visibility t); [apply triple_throw|].
  apply triple_when. apply triple_modify_self, HP.
Qed.

Lemma triple_init_finish (P : Target -> Prop) :
  (forall v t, P t -> P (set_build_rules v t)) ->
  (forall v t, P t -> P (set_rule_hash_cache v t)) ->
  (forall f t, P t -> P (update (fun a => set_data (f a) a) t)) ->
  triple P init_finish P.
Proof.
  intros H1 H2 H3. unfold init_finish.
  apply (triple_seq P P P); [apply triple_modify_object, H1| |done].
  apply (triple_seq P P P); [apply triple_modify_object, H2| |done].
  apply triple_modify_self. intros t Ht.
  apply (H3 (fun a => dict_set (data a) "generated_hdrs" (VList [])) t Ht).
Qed.

Lemma run_init_ok c a body w t w' (P Q : Target -> Prop) :
  triple P body Q -> P (new_object c a) ->
  run_init c a body w = (Ok t, w') -> Q t.
Proof.
  intros Hbody HP. unfold run_init.
  specialize (Hbody {| self := new_object c a; world := w |} HP).
  destruct (body _) as [[[]|e] st]; intros [= <- <-]. exact Hbody.
Qed.

Lemma Target_init_invariant c name type srcs ds vis kwargs w t w' :
  Target__init__ E c name type srcs ds vis kwargs w = (Ok t, w') -> deps_invariant t.
Proof.
  unfold Target__init__.
  apply (run_init_ok _ _ _ _ _ _ deps_invariant deps_invariant);
    [|intros x Hx; by apply elem_of_nil in Hx].
  apply (triple_seq _ deps_invariant); [apply triple_init_checks| |done].
  apply (triple_seq _ deps_invariant); [apply triple_init_target_deps| |done].
  apply (triple_seq _ deps_invariant); [by apply triple_init_visibility| |done].
  by apply triple_init_finish.
Qed.

(** C5: a newly constructed target has [deps] within [expanded_deps],
    and each operation that changes the two lists keeps it so, whether it
    returns or fails half way. *)
Theorem deps_within_expanded_deps :
  (forall c name type srcs ds vis kwargs w t w',
     Target__init__ E c name type srcs ds vis kwargs w = (Ok t, w') ->
     deps t ⊆ expanded_deps t)
  /\ (forall st, deps (self st) ⊆ expanded_deps (self st) ->
      (forall ds,
          deps (self (snd (_init_target_deps E ds st)))
          ⊆ expanded_deps (self (snd (_init_target_deps E ds st))))
      /\ (forall m,
          deps (self (snd (_add_location_reference_target E m st)))
          ⊆ expanded_deps (self (snd (_add_location_reference_target E m st))))
      /\ (forall l,
          deps (self (snd (_add_hardcode_library E l st)))
          ⊆ expanded_deps (self (snd (_add_hardcode_library E l st))))).
Proof.
  split; [apply Target_init_invariant|].
  intros st Hinv. split; [|split].
  - intros ds. by apply triple_init_target_deps.
  - intros m. by apply triple_add_location_reference_target.
  - intros l. by apply triple_add_hardcode_library.
Qed.

(** *** Resolving twice *)

Lemma init_target_deps_single d st :
  _init_target_deps E [d] st =
    match _unify_dep E d st with
    | (Ok k, st1) => (Ok (), {| self := record_dep k (self st1); world := world st1 |})
    | (Fail e, st1) => (Fail e, st1)
    end.
Proof.
  unfold _init_target_deps. cbn [for_each]. unfold mbind, method_bind, bind.
  destruct (_unify_dep E d st) as [[k|e] st1]; [|reflexivity].
  rewrite add_expanded_dep_effect, add_dep_effect. reflexivity.
Qed.

Lemma add_location_reference_target_cases m st :
  _add_location_reference_target E (Some m) st =
    match Re.groups m with
    | [Some ref; ty] =>
        match _unify_dep E ref st with
        | (Ok k, st1) =>
            (Ok (Some (k, Py.strip (default [] ty))),
             {| self := record_dep k (self st1); world := world st1 |})
        | (Fail e, st1) => (Fail e, st1)
        end
    | [None; _] => (Fail (Raise "TypeError" "'NoneType' object is not subscriptable"), st)
    | _ => (Fail (unpack_failure (Re.groups m)), st)
    end.
Proof.
  unfold _add_location_reference_target, unpack2. unfold mbind, method_bind, bind.
  destruct (Re.groups m) as [|[ref|] [|ty [|x l]]]; try reflexivity.
  unfold mret, method_ret.
  destruct (_unify_dep E ref st) as [[k|e] st1]; [|reflexivity].
  rewrite add_expanded_dep_effect, add_dep_effect.
  destruct ty as [ty|]; [|reflexivity]. simpl. by case_bool_decide; subst.
Qed.

Lemma system_library_key name w lib w' :
  SystemLibrary__init__ E name w = (Ok lib, w') -> key lib = ("#" : str, drop 1 name).
Proof.
  unfold SystemLibrary__init__, run_init. unfold mbind, method_bind.
  set (st0 := {| self := _; world := w |}).
  destruct (bind _ _ st0) as [[[]|e] st] eqn:Hbody; intros [= <- <-].
  apply bind_inv in Hbody as [(? & st1 & _ & Hbody)|(? & ? & ?)]; [|done].
  apply bind_inv in Hbody as [(? & st2 & _ & Hbody)|(? & ? & ?)]; [|done].
  injection Hbody as <-. reflexivity.
Qed.

Lemma add_system_library_registers name st st' :
  _add_system_library E ("#" : str, drop 1 name) name st = (Ok (), st') ->
  is_Some (target_database (world st') !! ("#" : str, drop 1 name)).
Proof.
  rewrite add_system_library_cases.
  destruct (target_database (world st) !! _) as [lib|] eqn:Hdb.
  - intros [= <-]. by rewrite Hdb.
  - destruct (SystemLibrary__init__ E name (world st)) as [[lib|e] w] eqn:Hinit;
      intros [= <-]. simpl.
    rewrite (system_library_key _ _ _ _ Hinit). eexists. apply lookup_insert_eq.
Qed.

(** A reference that resolved once resolves to the same key again, and
    the second resolution changes nothing. *)
Lemma unify_dep_again d st k st1 st2 :
  _unify_dep E d st = (Ok k, st1) ->
  world st2 = world st1 ->
  path (self st2) = path (self st) ->
  fullname (self st2) = fullname (self st) ->
  _unify_dep E d st2 = (Ok k, st2).
Proof.
  rewrite !unify_dep_cases. intros Hfirst Hw Hp Hf.
  destruct (Py.startswith d "#").
  - destruct (_add_system_library _ _ _ st) as [[[]|e] st1'] eqn:Hadd; [|done].
    injection Hfirst as <- <-.
    apply add_system_library_registers in Hadd. rewrite <- Hw in Hadd.
    rewrite add_system_library_cases. by destruct Hadd as [lib ->].
  - injection Hfirst as Hk <-. by rewrite Hp, Hf, Hk.
Qed.

Lemma append_new_present k (l : list target_key) : k ∈ l -> append_new k l = l.
Proof. intros H. unfold append_new. by rewrite bool_decide_eq_true_2. Qed.

Lemma record_dep_again k t : record_dep k (record_dep k t) = record_dep k t.
Proof.
  unfold record_dep, update, set_deps, set_expanded_deps. simpl.
  rewrite (append_new_present k (append_new k (deps t))),
    (append_new_present k (append_new k (expanded_deps t)))
    by (apply append_new_elem; by right).
  reflexivity.
Qed.

Lemma append_new_NoDup k (l : list target_key) : NoDup l -> NoDup (append_new k l).
Proof.
  intros H. unfold append_new. case_bool_decide as Hk; [done|].
  apply NoDup_app. split; [done|]. split; [|apply NoDup_singleton].
  intros x Hx Hx'. apply list_elem_of_singleton in Hx'. by subst.
Qed.

Lemma occurrences_NoDup k (l : list target_key) :
  NoDup l -> k ∈ l -> occurrences k l = 1.
Proof.
  unfold occurrences. induction 1 as [|x l Hx Hnd IH]; intros Hk.
  - by apply elem_of_nil in Hk.
  - rewrite filter_cons. apply elem_of_cons in Hk. destruct Hk as [->|Hk].
    + rewrite decide_True by done. simpl. f_equal.
      apply length_zero_iff_nil. apply elem_of_nil_inv. intros y Hy.
      apply list_elem_of_filter in Hy as [-> Hy]. done.
    + rewrite decide_False by (intros ->; done). by apply IH.
Qed.

Lemma record_dep_once k (t : Target) :
  NoDup (deps t) -> NoDup (expanded_deps t) ->
  occurrences k (deps (record_dep k t)) = 1
  /\ occurrences k (expanded_deps (record_dep k t)) = 1.
Proof.
  intros Hd He. split; apply occurrences_NoDup; simpl;
    auto using append_new_NoDup; apply append_new_elem; by right.
Qed.

(** C6: a reference that has been resolved against a target resolves
    again to the same key and leaves the target and the process as they
    are; in lists without repetition the key then stands exactly once in
    [deps] and exactly once in [expanded_deps]. *)
Theorem resolution_idempotent :
  (forall st d st1,
     NoDup (deps (self st)) -> NoDup (expanded_deps (self st)) ->
     _init_target_deps E [d] st = (Ok (), st1) ->
     _init_target_deps E [d] st1 = (Ok (), st1)
     /\ exists k, fst (_unify_dep E d st) = Ok k
          /\ occurrences k (deps (self st1)) = 1
          /\ occurrences k (expanded_deps (self st1)) = 1)
  /\ (forall st m k ty st1,
     NoDup (deps (self st)) -> NoDup (expanded_deps (self st)) ->
     _add_location_reference_target E (Some m) st = (Ok (Some (k, ty)), st1) ->
     _add_location_reference_target E (Some m) st1 = (Ok (Some (k, ty)), st1)
     /\ occurrences k (deps (self st1)) = 1
     /\ occurrences k (expanded_deps (self st1)) = 1).
Proof.
  split.
  - intros st d st1 Hd He Hfirst. rewrite init_target_deps_single in *.
    destruct (_unify_dep E d st) as [[k|e] st0] eqn:Hu; [|done].
    injection Hfirst as <-.
    pose proof (unify_dep_self _ _ _ _ Hu) as Hself.
    rewrite (unify_dep_again d st k st0 _ Hu) by (simpl; by rewrite ?Hself).
    simpl. rewrite record_dep_again. split; [done|].
    exists k. split; [done|]. rewrite Hself. by apply record_dep_once.
  - intros st m k ty st1 Hd He Hfirst.
    rewrite add_location_reference_target_cases in *.
    destruct (Re.groups m) as [|[ref|] [|ty' [|x l]]]; try done.
    destruct (_unify_dep E ref st) as [[k'|e] st0] eqn:Hu; [|done].
    injection Hfirst as <- <- <-.
    pose proof (unify_dep_self _ _ _ _ Hu) as Hself.
    rewrite (unify_dep_again ref st k' st0 _ Hu) by (simpl; by rewrite ?Hself).
    simpl. rewrite record_dep_again. split; [done|].
    rewrite Hself. by apply record_dep_once.
Qed.

(** *** Relative references *)

Lemma startswith_dot_slash (s : str) :
  Py.startswith s "./" = true -> exists s', s = "."%char :: "/"%char :: s'.
Proof.
  destruct s as [|a [|b s']]; try done.
  - simpl. by rewrite andb_false_r.
  - change (Py.startswith (a :: b :: s') "./")
      with (Ascii.eqb "." a && (Ascii.eqb "/" b && true)).
    intros H. apply andb_prop in H as [Ha H]. apply andb_prop in H as [Hb _].
    apply Ascii.eqb_eq in Ha, Hb. subst. eauto.
Qed.

Lemma count_absent c (s : str) : Py.has_char c s = false -> Py.count c s = 0.
Proof.
  unfold Py.count. induction s as [|d s IH]; [done|]. simpl.
  intros H. apply orb_false_elim in H as [Hd Hs]. rewrite filter_cons.
  destruct (decide (d = c)) as [->|]; [by rewrite Ascii.eqb_refl in Hd|]. auto.
Qed.

Lemma count_app c (a b : str) : Py.count c (a ++ b) = Py.count c a + Py.count c b.
Proof. unfold Py.count. by rewrite filter_app, length_app. Qed.

Section Relative.
Context (dir lib : str).
Hypothesis dir_relative : Py.startswith dir "./" = true.
Hypothesis dir_no_colon : Py.has_char ":" dir = false.
Hypothesis lib_no_colon : Py.has_char ":" lib = false.
Hypothesis dir_no_dots : Py.contains dir ".." = false.

Lemma relative_check_format st : _check_format (dir ++ ":" ++ lib) st = (Ok (), st).
Proof.
  unfold _check_format. method_unfold.
  destruct (startswith_dot_slash _ dir_relative) as [dir' Hdir].
  assert (Py.count ":" (dir ++ ":" ++ lib) = 1) as ->.
  { rewrite !count_app, (count_absent _ _ dir_no_colon), (count_absent _ _ lib_no_colon).
    reflexivity. }
  rewrite Hdir. reflexivity.
Qed.

Lemma relative_unify_dep st :
  _unify_dep E (dir ++ ":" ++ lib) st
  = (Ok (PosixPath.normpath (path (self st) ++ "/" ++ dir), lib), st).
Proof.
  rewrite unify_dep_cases.
  destruct (startswith_dot_slash _ dir_relative) as [dir' Hdir].
  assert (Py.startswith (dir ++ ":" ++ lib) "#" = false) as -> by by rewrite Hdir.
  f_equal. unfold unify_pure.
  assert (Py.has_char ":" (dir ++ ":" ++ lib) = true) as Hcolon.
  { rewrite !has_char_app. simpl. by rewrite orb_true_r. }
  assert (Py.rsplit1 ":" (dir ++ ":" ++ lib) = [dir; lib]) as Hsplit
    by apply (rsplit1_last ":" dir lib lib_no_colon).
  rewrite Hsplit, Hcolon, dir_no_dots. by rewrite Hdir.
Qed.

Lemma relative_init_target_deps st :
  _init_target_deps E [dir ++ ":" ++ lib] st
  = (Ok (), {| self := record_dep
                 (PosixPath.normpath (path (self st) ++ "/" ++ dir), lib) (self st);
               world := world st |}).
Proof. by rewrite init_target_deps_single, relative_unify_dep. Qed.

End Relative.

End Resolver.

(** The scenarios of the spec inside the target [app:server]: the location
    reference [$(location //proto:msg jar)] and the system library
    [#pthread]. *)
Lemma resolution_idempotent_witness :
  let E := example_env "warning" in
  let st := constructing E Target_class "server" [] (example_world "app") in
  Re.search LOCATION_RE "cp $(location //proto:msg jar) out" = example_match
  /\ let r := _add_location_reference_target E example_match st in
     fst r = Ok (Some (("proto" : str, "msg" : str), "jar" : str))
     /\ deps (self (snd r)) = [("proto" : str, "msg" : str)]
     /\ expanded_deps (self (snd r)) = [("proto" : str, "msg" : str)]
     /\ _add_location_reference_target E example_match (snd r) = r
     /\ occurrences ("proto" : str, "msg" : str) (deps (self (snd r))) = 1.
Proof.
  intros E st. split; [vm_compute; reflexivity|].
  cbv zeta. split; [vm_compute; reflexivity|]. split; [vm_compute; reflexivity|].
  split; [vm_compute; reflexivity|].
  unfold example_match.
  match goal with |- context [_add_location_reference_target E (Some ?m0) st] =>
    set (m := m0); set (r := _add_location_reference_target E (Some m) st) end.
  destruct (proj2 (resolution_idempotent E) st m ("proto" : str, "msg" : str) "jar" (snd r))
    as (Hagain & Hdeps & _).
  - apply NoDup_nil_2.
  - apply NoDup_nil_2.
  - vm_compute. reflexivity.
  - split; [|exact Hdeps]. rewrite Hagain. vm_compute. reflexivity.
Defined.

(** C4 as the spec words it fails: a reference [path:name] without a
    leading marker is one [_unify_dep] would resolve, but a target that
    declares it is not constructed: [_check_deps] is fatal first. *)
Lemma unmarked_relative_dep_is_fatal :
  let E := example_env "warning" in
  fst (_unify_dep E "sub:lib"
         (constructing E Target_class "server" ["main.cc" : str] (example_world "app")))
  = Ok ("app/sub" : str, "lib" : str)
  /\ fst (Target__init__ E Target_class "server" "cc_library" ["main.cc" : str]
            ["sub:lib" : str] None [] (example_world "app"))
     = Fail (Fatal "app/BUILD:1 error: server: Invalid format sub:lib.").
Proof. vm_compute. split; reflexivity. Qed.

Lemma deps_within_expanded_deps_witness :
  let E := example_env "warning" in
  let st := snd (_init_target_deps E ["#pthread" : str; "//base:log" : str]
                   (constructing E Target_class "server" [] (example_world "app"))) in
  deps (self st) = [("#" : str, "pthread" : str); ("base" : str, "log" : str)]
  /\ is_Some (target_database (world st) !! ("#" : str, "pthread" : str))
  /\ deps (self (snd (_add_hardcode_library E ["#dl" : str; "//thirdparty/glog:glog" : str] st)))
     ⊆ expanded_deps
         (self (snd (_add_hardcode_library E ["#dl" : str; "//thirdparty/glog:glog" : str] st))).
Proof.
  intros E st. split; [vm_compute; reflexivity|]. split; [vm_compute; eauto|].
  refine (proj2 (proj2 (proj2 (deps_within_expanded_deps E) st _)) _).
  refine (proj1 (proj2 (deps_within_expanded_deps E)
                   (constructing E Target_class "server" [] (example_world "app")) _) _).
  intros x Hx. by apply elem_of_nil in Hx.
Defined.

(** ** Location references *)

Section Location.
Context (E : Env).

Lemma startswith_split (s l : str) :
  Py.startswith s l = true -> s = l ++ drop (length l) s.
Proof.
  revert s. induction l as [|c l IH]; intros s; [done|].
  destruct s as [|d s]; [done|]. simpl.
  intros H. apply andb_prop in H as [Hc Hl]. apply Ascii.eqb_eq in Hc. subst d.
  f_equal. by apply IH.
Qed.

Lemma match_star_sound {R} k s (cont : str -> option R) x :
  Re.match_star k s cont = Some x ->
  exists text s', s = text ++ s'
    /\ Forall (fun c => Re.in_class k c = true) text /\ cont s' = Some x.
Proof.
  induction s as [|c s IH]; simpl.
  - intros H. exists [], []. auto.
  - destruct (Re.in_class k c) eqn:Hc.
    + destruct (Re.match_star k s cont) as [y|] eqn:Hrec.
      * intros [= ->]. destruct (IH eq_refl) as (text & s' & -> & Hall & Hcont).
        exists (c :: text), s'. auto.
      * intros H. exists [], (c :: s). auto.
    + intros H. exists [], (c :: s). auto.
Qed.

Lemma match_here_sound {R} r : forall s caps (cont : str -> Re.captures -> option R) x,
  Re.match_here r s caps cont = Some x ->
  exists text s' caps', s = text ++ s' /\ matches r text caps caps'
    /\ cont s' caps' = Some x.
Proof.
  induction r as [l|k|k|r1 IH1 r2 IH2|r IH|n r IH]; intros s caps cont x; simpl.
  - destruct (Py.startswith s l) eqn:Hl; [|done]. intros H.
    exists l, (drop (length l) s), caps. split; [by apply startswith_split|].
    split; [constructor|done].
  - intros H. apply match_star_sound in H as (text & s' & -> & Hall & H).
    exists text, s', caps. split; [done|]. split; [by constructor|done].
  - destruct s as [|c s]; [done|]. destruct (Re.in_class k c) eqn:Hc; [|done].
    intros H. apply match_star_sound in H as (text & s' & -> & Hall & H).
    exists (c :: text), s', caps. split; [done|]. split; [|done].
    constructor; [done|]. by constructor.
  - intros H. apply IH1 in H as (text1 & s1 & caps1 & -> & H1 & H).
    apply IH2 in H as (text2 & s2 & caps2 & -> & H2 & H).
    exists (text1 ++ text2), s2, caps2. rewrite <- app_assoc.
    split; [done|]. split; [by econstructor|done].
  - destruct (Re.match_here r s caps cont) as [y|] eqn:Hr.
    + intros [= ->]. apply IH in Hr as (text & s' & caps' & -> & Hm & H).
      exists text, s', caps'. split; [done|]. split; [by constructor|done].
    + intros H. exists [], s, caps. split; [done|]. split; [constructor|done].
  - intros H. apply IH in H as (text & s' & caps' & -> & Hm & H).
    exists text, s', (<[n := text]> caps'). split; [done|]. split; [by constructor|].
    rewrite length_app, Nat.add_sub, take_app_length in H. done.
Qed.

Lemma match_at_sound r pos s m :
  Re.match_at r pos s = Some m ->
  exists text s', s = text ++ s' /\ matches r text ∅ (Re.m_captures m)
    /\ Re.m_ngroups m = Re.ngroups r.
Proof.
  unfold Re.match_at. intros H.
  apply match_here_sound in H as (text & s' & caps' & -> & Hm & [= <-]).
  exists text, s'. auto.
Qed.

Lemma search_from_sound r pos s m :
  Re.search_from r pos s = Some m ->
  exists skipped rest, s = skipped ++ rest
    /\ Re.match_at r (pos + length skipped) rest = Some m.
Proof.
  revert pos. induction s as [|c s IH]; intros pos; simpl.
  - destruct (Re.match_at r pos []) as [m'|] eqn:Hm; [|done].
    intros [= ->]. exists [], []. by rewrite Nat.add_0_r.
  - destruct (Re.match_at r pos (c :: s)) as [m'|] eqn:Hm.
    + intros [= ->]. exists [], (c :: s). by rewrite Nat.add_0_r.
    + intros H. apply IH in H as (skipped & rest & -> & H).
      exists (c :: skipped), rest. split; [done|].
      simpl. by rewrite <- Nat.add_succ_comm.
Qed.

Ltac invert_matches :=
  repeat match goal with
    | H : matches (Re.Seq _ _) _ _ _ |- _ => inversion H; subst; clear H
    | H : matches (Re.Lit _) _ _ _ |- _ => inversion H; subst; clear H
    | H : matches (Re.Star _) _ _ _ |- _ => inversion H; subst; clear H
    | H : matches (Re.Plus _) _ _ _ |- _ => inversion H; subst; clear H
    | H : matches (Re.Group _ _) _ _ _ |- _ => inversion H; subst; clear H
    | H : matches (Re.Opt _) _ _ _ |- _ => inversion H; subst; clear H
    end.

(** The shape of every text [LOCATION_RE] matches and of its first group *)
Lemma LOCATION_RE_shape text caps :
  matches LOCATION_RE text ∅ caps ->
  exists ws a b tail,
    text = "$(location" ++ ws ++ (a ++ ":" ++ b) ++ tail
    /\ ws <> [] /\ all_space ws /\ no_space a /\ b <> [] /\ no_space b
    /\ caps !! 1 = Some (a ++ ":" ++ b).
Proof.
  unfold LOCATION_RE. intros H. invert_matches.
  all: match goal with
       | |- exists ws a b tail, _ ++ ?w ++ (?x ++ _ ++ ?y) ++ ?tl = _ /\ _ =>
           exists w, x, y, tl
       end.
  all: split; [reflexivity|].
  all: repeat split; auto.
  all: try (eapply Forall_impl; [eassumption|]; simpl; intros c Hc;
            by apply negb_true_iff in Hc).
  all: rewrite ?lookup_insert_ne by done; by rewrite lookup_insert_eq.
Qed.

Lemma has_char_middle c (a b : str) : Py.has_char c (a ++ c :: b) = true.
Proof.
  unfold Py.has_char. rewrite existsb_app. simpl.
  by rewrite Ascii.eqb_refl, orb_true_r.
Qed.

Lemma has_char_cons c d (s : str) :
  Py.has_char c (d :: s) = Ascii.eqb c d || Py.has_char c s.
Proof. reflexivity. Qed.

Lemma first_nonspace_unique (ws1 ws2 : str) x y r1 r2 :
  all_space ws1 -> all_space ws2 -> Py.isspace x = false -> Py.isspace y = false ->
  ws1 ++ x :: r1 = ws2 ++ y :: r2 -> ws1 = ws2 /\ x :: r1 = y :: r2.
Proof.
  intros H1. revert ws2. induction H1 as [|c ws1 Hc H1 IH]; intros ws2 H2 Hx Hy Heq.
  - destruct H2 as [|d ws2 Hd H2]; [done|]. simpl in Heq. congruence.
  - destruct H2 as [|d ws2 Hd H2]; simpl in Heq.
    + congruence.
    + injection Heq as -> Heq. destruct (IH ws2 H2 Hx Hy Heq) as [-> ?]. done.
Qed.

Lemma colon_outside_token (a v rest Z : str) :
  no_space a -> Py.has_char ":" v = false ->
  rest = [] \/ (exists c r, rest = c :: r /\ Py.isspace c = true) ->
  a ++ ":"%char :: Z = v ++ rest -> False.
Proof.
  intros Ha Hv Hrest. revert a Ha. induction v as [|d v IH]; intros a Ha Heq.
  - simpl in Heq. destruct Hrest as [->|(c & r & -> & Hc)].
    + by destruct a.
    + destruct Ha as [|x a Hx Ha]; simpl in Heq; injection Heq as <- _; [done|congruence].
  - rewrite has_char_cons in Hv. apply orb_false_elim in Hv as [Hd Hv].
    destruct Ha as [|x a Hx Ha]; simpl in Heq; injection Heq as <- Heq.
    + done.
    + by apply (IH Hv a).
Qed.

(** C10, as the code has it: whatever [LOCATION_RE] finds has a first
    group of the form [a:b] with [b] not empty and no white space in [a]
    or [b]; a text without a colon holds no location reference, and
    resolving what the search returns then adds nothing; and no match
    starts at [$(location #tok] when [tok], the text up to the next
    white space or the end, has no colon. *)
Theorem location_reference_needs_colon :
  (forall s m, Re.search LOCATION_RE s = Some m ->
     exists a b, Re.groups m !! 0 = Some (Some (a ++ ":" ++ b))
       /\ b <> [] /\ no_space a /\ no_space b)
  /\ (forall s, Py.has_char ":" s = false ->
        Re.search LOCATION_RE s = None
        /\ forall st, _add_location_reference_target E (Re.search LOCATION_RE s) st
                      = (Ok None, st))
  /\ (forall pos ws tok rest,
        all_space ws -> Py.has_char ":" tok = false ->
        rest = [] \/ (exists c r, rest = c :: r /\ Py.isspace c = true) ->
        Re.match_at LOCATION_RE pos ("$(location" ++ ws ++ "#" ++ tok ++ rest) = None).
Proof.
  assert (forall s m, Re.search LOCATION_RE s = Some m ->
            exists skipped ws a b tail,
              s = skipped ++ "$(location" ++ ws ++ (a ++ ":" ++ b) ++ tail
              /\ b <> [] /\ no_space a /\ no_space b
              /\ Re.m_captures m !! 1 = Some (a ++ ":" ++ b)
              /\ Re.m_ngroups m = 2) as Hsearch.
  { intros s m H. apply search_from_sound in H as (skipped & rest & -> & H).
    apply match_at_sound in H as (text & s' & -> & H & Hn).
    apply LOCATION_RE_shape in H as (ws & a & b & tail & -> & _ & _ & Ha & Hb & Hb' & Hc).
    exists skipped, ws, a, b, (tail ++ s'). rewrite <- !app_assoc. auto 10. }
  split; [|split].
  - intros s m H. apply Hsearch in H as (_ & _ & a & b & _ & _ & Hb & Ha & Hb' & Hc & Hn).
    exists a, b. unfold Re.groups. rewrite Hn. simpl. rewrite Hc. auto.
  - intros s Hs.
    assert (Re.search LOCATION_RE s = None) as Hnone.
    { destruct (Re.search LOCATION_RE s) as [m|] eqn:H; [|done].
      apply Hsearch in H as (skipped & ws & a & b & tail & -> & _).
      apply not_true_iff_false in Hs. exfalso. apply Hs.
      apply existsb_exists. exists ":"%char. split; [|reflexivity].
      rewrite !in_app_iff. simpl. auto 10. }
    split; [done|]. intros st. by rewrite Hnone.
  - intros pos ws tok rest Hws Htok Hrest.
    destruct (Re.match_at LOCATION_RE pos _) as [m|] eqn:H; [exfalso|done].
    apply match_at_sound in H as (text & s' & Heq & H & _).
    apply LOCATION_RE_shape in H as (ws' & a & b & tail & -> & _ & Hws' & Ha & _ & _ & _).
    rewrite <- !app_assoc in Heq. apply app_inv_head in Heq.
    assert (ws = ws' /\ "#" ++ tok ++ rest = a ++ ":" ++ b ++ tail ++ s') as [<- Heq'].
    { destruct Ha as [|x a Hx Ha].
      - destruct (first_nonspace_unique ws ws' "#" ":" (tok ++ rest) (b ++ tail ++ s'));
          auto.
      - destruct (first_nonspace_unique ws ws' "#" x (tok ++ rest)
                    (a ++ ":" ++ b ++ tail ++ s')); auto. }
    symmetry in Heq'.
    apply (colon_outside_token a ("#" ++ tok) rest (b ++ tail ++ s')); auto.
Qed.

End Location.

(** A system library written without a colon is no location reference. *)
Lemma location_reference_needs_colon_witness :
  let E := example_env "warning" in
  let st := constructing E Target_class "server" [] (example_world "app") in
  Re.search LOCATION_RE "cp $(location #pthread) out" = None
  /\ _add_location_reference_target E
       (Re.search LOCATION_RE "cp $(location #pthread) out") st = (Ok None, st)
  /\ Re.match_at LOCATION_RE 3 "$(location #pthread) a:b" = None.
Proof.
  intros E st.
  destruct (proj1 (proj2 (location_reference_needs_colon E)) "cp $(location #pthread) out"
              eq_refl) as [Hnone Hadd].
  split; [exact Hnone|]. split; [apply Hadd|].
  apply (proj2 (proj2 (location_reference_needs_colon E)) 3 " " "pthread)" " a:b").
  - repeat constructor.
  - reflexivity.
  - right. exists " "%char, ("a:b" : str). split; reflexivity.
Defined.

(** C10 as it is worded fails: a text can hold [$(location #name)] with
    a system library named without a colon and still hold a location
    reference, which adds a dependency. In [$(location #name):foo)] the
    token goes on to the next white space, so the reference is
    [#name):foo]; in the second text the reference [//a:b] follows the
    system library. *)
Lemma location_of_colon_free_name_is_matched :
  let E := example_env "warning" in
  let st := constructing E Target_class "server" [] (example_world "app") in
  let run s := _add_location_reference_target E (Re.search LOCATION_RE s) st in
  Py.has_char ":" "name" = false
  /\ fst (run "$(location #name):foo)") = Ok (Some (("#" : str, "name):foo" : str), [] : str))
  /\ deps (self (snd (run "$(location #name):foo)"))) = [("#" : str, "name):foo" : str)]
  /\ Py.has_char ":" "pthread" = false
  /\ fst (run "cp $(location #pthread) $(location //a:b) out")
     = Ok (Some (("a" : str, "b" : str), [] : str))
  /\ deps (self (snd (run "cp $(location #pthread) $(location //a:b) out")))
     = [("a" : str, "b" : str)].
Proof. vm_compute. repeat split. Qed.

(** A colon later in the same token makes a reference of it all. *)
Example location_token_with_colon :
  Re.groups <$> Re.search LOCATION_RE "$(location #name):foo)"
  = Some [Some ("#name):foo" : str); None].
Proof. vm_compute. reflexivity. Qed.

(** ** Path normalization *)

Section Normpath.

Lemma split_cons_slash (s : str) : Py.split "/" ("/"%char :: s) = [] :: Py.split "/" s.
Proof. reflexivity. Qed.

Lemma split_nonempty sep (s : str) : Py.split sep s <> [].
Proof.
  induction s as [|c s IH]; simpl; [done|].
  destruct (Ascii.eqb c sep); [done|]. by destruct (Py.split sep s).
Qed.

Lemma split_absent sep (s : str) : Py.has_char sep s = false -> Py.split sep s = [s].
Proof.
  induction s as [|c s IH]; simpl; [done|].
  intros H. apply orb_false_elim in H as [Hc Hs].
  rewrite Ascii.eqb_sym, Hc, (IH Hs). reflexivity.
Qed.

Lemma split_app sep (x rest : str) :
  Py.has_char sep x = false ->
  Py.split sep (x ++ sep :: rest) = x :: Py.split sep rest.
Proof.
  induction x as [|c x IH]; simpl.
  - intros _. by rewrite Ascii.eqb_refl.
  - intros H. apply orb_false_elim in H as [Hc Hx].
    rewrite Ascii.eqb_sym, Hc, (IH Hx). reflexivity.
Qed.

Lemma split_parts_no_sep sep (s : str) :
  Forall (fun c => Py.has_char sep c = false) (Py.split sep s).
Proof.
  induction s as [|c s IH]; simpl; [by repeat constructor|].
  destruct (Ascii.eqb c sep) eqn:Hc; [by constructor|].
  destruct (Py.split sep s) as [|h t].
  - constructor; [|constructor]. simpl. by rewrite Ascii.eqb_sym, Hc.
  - apply Forall_cons in IH as [Hh Ht]. constructor; [|done].
    simpl. by rewrite Ascii.eqb_sym, Hc.
Qed.

Lemma split_join (l : list str) :
  l <> [] -> Forall (fun c => Py.has_char "/" c = false) l ->
  Py.split "/" (Py.join "/" l) = l.
Proof.
  induction l as [|x l IH]; [done|]. intros _ H.
  apply Forall_cons in H as [Hx Hl]. destruct l as [|y l].
  - simpl. by apply split_absent.
  - change (Py.join "/" (x :: y :: l)) with (x ++ "/"%char :: Py.join "/" (y :: l)).
    rewrite split_app by done. f_equal. by apply IH.
Qed.

(** *** The loop of [normpath] *)

Lemma proper_step k acc c : proper c -> PosixPath.normpath_step k acc c = acc ++ [c].
Proof.
  intros (H1 & H2 & H3 & _). unfold PosixPath.normpath_step.
  rewrite (bool_decide_eq_false_2 (c = [])), (bool_decide_eq_false_2 (c = ".")),
    (bool_decide_eq_false_2 (c = "..")) by done.
  reflexivity.
Qed.

Lemma dotdots_normal l : Forall (fun c => c = (".." : str)) l -> normal 0 l.
Proof.
  induction l as [|c l IH] using rev_ind; [constructor|].
  intros H. apply Forall_app in H as [Hl Hc].
  apply Forall_inv in Hc; simpl in Hc; subst c. by constructor.
Qed.

Lemma normal_removelast k l : normal k l -> normal k (removelast l).
Proof.
  destruct 1 as [|l -> Hl|l c Hl Hc]; simpl.
  - constructor.
  - rewrite removelast_last. by apply dotdots_normal.
  - by rewrite removelast_last.
Qed.

Lemma dotdot_not_proper : ~ proper "..".
Proof. by intros (_ & _ & H & _). Qed.

Lemma normal_last_dotdot k l :
  normal k l -> last l = Some (".." : str) ->
  k = 0 /\ Forall (fun c => c = (".." : str)) l.
Proof.
  destruct 1 as [|l Hk Hl|l c Hl Hc]; [done| |].
  - intros _. split; [done|]. apply Forall_app. split; [done|]. by repeat constructor.
  - rewrite last_snoc. intros [= ->]. by apply dotdot_not_proper in Hc.
Qed.

Lemma normal_step k acc c :
  Py.has_char "/" c = false -> normal k acc -> normal k (PosixPath.normpath_step k acc c).
Proof.
  intros Hc Hacc. unfold PosixPath.normpath_step.
  case_bool_decide as H1; [done|]. case_bool_decide as H2; [done|]. simpl.
  case_bool_decide as H3; simpl.
  - subst c. case_bool_decide as Hk; simpl.
    + case_bool_decide as He; simpl.
      * subst acc. by apply (normal_dotdot k []).
      * case_bool_decide as Hl; simpl; [|by apply normal_removelast].
        destruct (normal_last_dotdot _ _ Hacc Hl). by constructor.
    + case_bool_decide as He; simpl; [done|].
      case_bool_decide as Hl; simpl; [|by apply normal_removelast].
      destruct (normal_last_dotdot _ _ Hacc Hl). by constructor.
  - by constructor.
Qed.

Lemma normal_fold k comps acc :
  Forall (fun c => Py.has_char "/" c = false) comps -> normal k acc ->
  normal k (fold_left (PosixPath.normpath_step k) comps acc).
Proof.
  intros H. revert acc. induction H as [|c comps Hc H IH]; intros acc Hacc; simpl; [done|].
  apply IH. by apply normal_step.
Qed.

Lemma normpath_comps_normal path :
  normal (PosixPath.initial_slashes path) (PosixPath.normpath_comps path).
Proof. apply normal_fold; [apply split_parts_no_sep|constructor]. Qed.

Lemma dotdots_fold l :
  Forall (fun c => c = (".." : str)) l ->
  fold_left (PosixPath.normpath_step 0) l [] = l.
Proof.
  induction l as [|c l IH] using rev_ind; [done|].
  intros H. apply Forall_app in H as [Hl Hc]. apply Forall_inv in Hc; simpl in Hc; subst c.
  rewrite fold_left_app, (IH Hl). simpl. unfold PosixPath.normpath_step. simpl.
  destruct l as [|c l _] using rev_ind; [done|].
  apply Forall_app in Hl as [_ Hc]. apply Forall_inv in Hc; simpl in Hc; subst c.
  rewrite last_snoc.
  assert (l ++ [".." : str] <> []) as Hne by (by destruct l).
  repeat case_bool_decide; simpl; done.
Qed.

(** The loop leaves a normal list as it is. *)
Lemma normal_fold_fixed k l :
  normal k l -> fold_left (PosixPath.normpath_step k) l [] = l.
Proof.
  induction 1 as [|l -> Hl|l c Hl IH Hc].
  - done.
  - by apply dotdots_fold, Forall_app, conj, Forall_singleton.
  - by rewrite fold_left_app, IH; simpl; rewrite proper_step.
Qed.

Lemma normal_parts k l : normal k l -> Forall (fun c => Py.has_char "/" c = false) l.
Proof.
  induction 1 as [|l Hk Hl|l c Hl IH Hc].
  - constructor.
  - apply Forall_app. split; [|by repeat constructor].
    eapply Forall_impl; [exact Hl|]. by intros c ->.
  - apply Forall_app. split; [done|]. destruct Hc as (_ & _ & _ & Hc). by repeat constructor.
Qed.

Lemma normal_head k c l : normal k (c :: l) -> c <> [] /\ Py.has_char "/" c = false.
Proof.
  revert c. induction l as [|d l IH] using rev_ind; intros c H.
  - inversion H as [|l' Hk Hl' Heq|l' c' Hl' Hc' Heq].
    + destruct l' as [|? [|]]; simpl in Heq; simplify_eq. by split.
    + destruct l' as [|? [|]]; simpl in Heq; simplify_eq.
      by destruct Hc' as (? & _ & _ & ?).
  - inversion H as [|l' Hk Hl' Heq|l' c' Hl' Hc' Heq].
    + change (c :: l ++ [d]) with ((c :: l) ++ [d]) in Heq.
      apply app_inj_tail in Heq as [-> _].
      apply Forall_cons in Hl' as [-> _]. by split.
    + change (c :: l ++ [d]) with ((c :: l) ++ [d]) in Heq.
      apply app_inj_tail in Heq as [-> _]. by apply IH.
Qed.

Lemma join_no_leading_slash k l : normal k l -> Py.startswith (Py.join "/" l) "/" = false.
Proof.
  destruct l as [|c l]; [done|]. intros H.
  destruct (normal_head _ _ _ H) as [Hne Hc].
  destruct c as [|x c]; [done|].
  assert (Ascii.eqb "/" x = false) as Hx by (by apply orb_false_elim in Hc as [? _]).
  destruct l; change (Ascii.eqb "/" x && true = false); by rewrite Hx.
Qed.

Lemma fold_split_join k new :
  normal k new ->
  fold_left (PosixPath.normpath_step k) (Py.split "/" (Py.join "/" new)) [] = new.
Proof.
  intros H. destruct new as [|c new]; [done|].
  rewrite split_join; [by apply normal_fold_fixed|done|by eapply normal_parts].
Qed.

Lemma initial_slashes_cases path :
  PosixPath.initial_slashes path = 0 \/ PosixPath.initial_slashes path = 1
  \/ PosixPath.initial_slashes path = 2.
Proof.
  unfold PosixPath.initial_slashes.
  destruct (Py.startswith path "/"); [|auto].
  destruct (_ && _); auto.
Qed.

(** What [normpath] returns is a path it leaves alone. *)
Lemma normpath_of_normal k new :
  normal k new -> k = 0 \/ k = 1 \/ k = 2 ->
  concat (repeat ("/" : str) k) ++ Py.join "/" new <> [] ->
  PosixPath.normpath (concat (repeat ("/" : str) k) ++ Py.join "/" new)
  = concat (repeat ("/" : str) k) ++ Py.join "/" new.
Proof.
  intros Hn Hk Hout.
  pose proof (join_no_leading_slash _ _ Hn) as Hj.
  pose proof (fold_split_join _ _ Hn) as Hfold.
  set (j := Py.join "/" new) in *.
  assert (PosixPath.initial_slashes (concat (repeat ("/" : str) k) ++ j) = k
          /\ PosixPath.normpath_comps (concat (repeat ("/" : str) k) ++ j) = new)
    as [Hk' Hcomps].
  { unfold PosixPath.normpath_comps.
    assert (forall t : str, Py.startswith ("/"%char :: t) "/" = true) as Hs1 by done.
    assert (forall t : str, Py.startswith ("/"%char :: t) "//" = Py.startswith t "/")
      as Hs2 by done.
    assert (forall t : str, Py.startswith ("/"%char :: t) "///" = Py.startswith t "//")
      as Hs3 by done.
    destruct Hk as [->|[->| ->]].
    - change (concat (repeat ("/" : str) 0) ++ j) with j.
      assert (PosixPath.initial_slashes j = 0) as Hi
        by (unfold PosixPath.initial_slashes; by rewrite Hj).
      by rewrite Hi.
    - change (concat (repeat ("/" : str) 1) ++ j) with ("/"%char :: j).
      assert (PosixPath.initial_slashes ("/"%char :: j) = 1) as Hi
        by (unfold PosixPath.initial_slashes; by rewrite Hs1, Hs2, Hj).
      by rewrite Hi, split_cons_slash.
    - change (concat (repeat ("/" : str) 2) ++ j) with ("/"%char :: "/"%char :: j).
      assert (PosixPath.initial_slashes ("/"%char :: "/"%char :: j) = 2) as Hi
        by (unfold PosixPath.initial_slashes; by rewrite Hs1, Hs2, Hs1, Hs3, Hs2, Hj).
      by rewrite Hi, !split_cons_slash. }
  unfold PosixPath.normpath. rewrite Hk', Hcomps. fold j.
  by rewrite !bool_decide_eq_false_2.
Qed.

Lemma normpath_value path :
  PosixPath.normpath path = "."
  \/ exists k new,
       normal k new /\ (k = 0 \/ k = 1 \/ k = 2)
       /\ concat (repeat ("/" : str) k) ++ Py.join "/" new <> []
       /\ PosixPath.normpath path = concat (repeat ("/" : str) k) ++ Py.join "/" new.
Proof.
  unfold PosixPath.normpath. case_bool_decide; [by left|].
  cbv zeta. case_bool_decide as Hout; [by left|]. right.
  exists (PosixPath.initial_slashes path), (PosixPath.normpath_comps path).
  split; [apply normpath_comps_normal|]. split; [apply initial_slashes_cases|done].
Qed.

Lemma normpath_idempotent path :
  PosixPath.normpath (PosixPath.normpath path) = PosixPath.normpath path.
Proof.
  destruct (normpath_value path) as [->|(k & new & Hn & Hk & Hout & ->)]; [done|].
  by apply normpath_of_normal.
Qed.

Lemma normpath_nonempty path : PosixPath.normpath path <> [].
Proof. unfold PosixPath.normpath. repeat case_bool_decide; done. Qed.

End Normpath.

(** ** Target key normalizer *)

Lemma rsplit1_present sep (s : str) :
  Py.has_char sep s = true ->
  exists a b, Py.rsplit1 sep s = [a; b] /\ s = a ++ sep :: b /\ Py.has_char sep b = false.
Proof.
  induction s as [|c s IH]; [done|]. rewrite has_char_cons. intros H.
  destruct (Py.has_char sep s) eqn:Hs.
  - destruct (IH eq_refl) as (a & b & Hsplit & -> & Hb).
    exists (c :: a), b. simpl. by rewrite Hsplit.
  - rewrite orb_false_r in H. apply Ascii.eqb_eq in H. subst c.
    exists [], s. simpl. rewrite (rsplit1_absent _ _ Hs), Ascii.eqb_refl.
    by destruct s.
Qed.

(** The canonical form is a normalized path, a colon and a name without
    a colon. *)
Lemma normalize_one_shape s d o :
  _normalize_one s d = Ok o ->
  exists path name, o = PosixPath.normpath path ++ ":" ++ name
                    /\ Py.has_char ":" name = false.
Proof.
  unfold _normalize_one.
  set (prefixed := if Py.startswith s "//" then _ else _).
  destruct prefixed as [target|e]; [|done].
  destruct (Py.has_char ":" target) eqn:Hcolon.
  - destruct (rsplit1_present _ _ Hcolon) as (a & b & -> & _ & Hb).
    intros [= <-]. eauto.
  - destruct (Py.endswith target "..."); intros [= <-]; eauto.
Qed.

Lemma canonical_form_fixed (dir name : str) :
  Py.has_char ":" name = false ->
  Py.startswith (PosixPath.normpath dir ++ ":" ++ name) "/" = false ->
  _normalize_one (PosixPath.normpath dir ++ ":" ++ name) "."
  = Ok (PosixPath.normpath dir ++ ":" ++ name).
Proof.
  intros Hname Hrel. unfold _normalize_one.
  set (o := PosixPath.normpath dir ++ ":" ++ name) in *.
  assert (Py.startswith o "//" = false) as ->.
  { destruct o as [|c o']; [done|].
    change (Py.startswith (c :: o') "/") with (Ascii.eqb "/" c && true) in Hrel.
    change (Py.startswith (c :: o') "//") with (Ascii.eqb "/" c && Py.startswith o' "/").
    rewrite andb_true_r in Hrel. by rewrite Hrel. }
  rewrite Hrel. rewrite bool_decide_eq_true_2 by done. simpl negb. cbv iota.
  assert (Py.has_char ":" o = true) as -> by apply has_char_middle.
  unfold o. rewrite (rsplit1_last ":" _ name Hname).
  by rewrite normpath_idempotent.
Qed.

(** [normalize] returns its own canonical output unchanged, for every
    reference and working directory whose canonical form does not begin
    with a slash. *)
Theorem normalize_idempotent s d l o :
  normalize [s] d = Ok l ->
  l !! 0 = Some o ->
  Py.startswith o "/" = false ->
  normalize [o] "." = normalize [s] d.
Proof.
  intros Hl Ho Hrel. rewrite Hl. cbn [normalize] in Hl.
  destruct (_normalize_one s d) as [o'|e] eqn:Hone; [|done].
  injection Hl as <-. injection Ho as ->.
  destruct (normalize_one_shape _ _ _ Hone) as (dir & name & -> & Hname).
  cbn [normalize]. by rewrite canonical_form_fixed.
Qed.

Lemma normalize_idempotent_witness :
  normalize ["//lib/./util/:helper" : str] "app/service" = Ok ["lib/util:helper" : str]
  /\ normalize ["lib/util:helper" : str] "." = normalize ["//lib/./util/:helper" : str] "app/service".
Proof.
  split; [vm_compute; reflexivity|].
  apply (normalize_idempotent "//lib/./util/:helper" "app/service"
           ["lib/util:helper" : str] "lib/util:helper").
  - vm_compute. reflexivity.
  - reflexivity.
  - reflexivity.
Defined.

(** C7 holds but for a slip of the code: [_normalize_one] strips one
    [//] and then lets through what its own branch for rooted
    references refuses. [///foo] gets the canonical form [/foo:*], whose
    directory starts from the root path, and that form is refused when
    it is normalized again, as [/foo] is at once; [////foo:bar] gets
    [//foo:bar], whose canonical form is [foo:bar]. *)
Lemma normalize_rooted_output_not_fixed :
  normalize ["///foo" : str] "." = Ok ["/foo:*" : str]
  /\ normalize ["/foo:*" : str] "."
     = Fail (Fatal ("Invalid target " ++ Py.dquote ++ "/foo:*" ++ Py.dquote
                    ++ " starting from root path."))
  /\ normalize ["/foo" : str] "."
     = Fail (Fatal ("Invalid target " ++ Py.dquote ++ "/foo" ++ Py.dquote
                    ++ " starting from root path."))
  /\ normalize ["////foo:bar" : str] "." = Ok ["//foo:bar" : str]
  /\ normalize ["//foo:bar" : str] "." = Ok ["foo:bar" : str].
Proof. vm_compute. repeat split. Qed.

(** ** Rule fingerprint: the hashed text *)

Section FactorsText.

Lemma repr_quote_cases s : repr_quote s = "'"%char \/ repr_quote s = "034"%char.
Proof. unfold repr_quote. destruct (_ && _); auto. Qed.

Lemma read_body_repr_char q c rest :
  q = "'"%char \/ q = "034"%char ->
  read_body q (repr_char q c ++ rest)
  = match read_body q rest with
    | Some (s, rest') => Some (c :: s, rest')
    | None => None
    end.
Proof.
  intros [-> | ->]; destruct c as [[] [] [] [] [] [] [] []]; reflexivity.
Qed.

Lemma read_body_literal q s rest :
  q = "'"%char \/ q = "034"%char ->
  read_body q (flat_map (repr_char q) s ++ q :: rest) = Some (s, rest).
Proof.
  intros Hq. induction s as [|c s IH].
  - simpl. by rewrite Ascii.eqb_refl.
  - cbn [flat_map]. rewrite <- app_assoc, read_body_repr_char, IH; done.
Qed.

(** A string literal can be read back: [repr] of strings is a prefix code. *)
Lemma repr_str_prefix_free a b x y :
  repr_str a ++ x = repr_str b ++ y -> a = b /\ x = y.
Proof.
  unfold repr_str. simpl. intros H. injection H as Hq H. rewrite <- Hq in H.
  rewrite <- !app_assoc in H. simpl in H.
  pose proof (read_body_literal (repr_quote a) a x (repr_quote_cases a)) as Ha.
  pose proof (read_body_literal (repr_quote a) b y (repr_quote_cases a)) as Hb.
  rewrite H, Hb in Ha. by injection Ha as -> ->.
Qed.

Lemma repr_str_head s : exists q rest, repr_str s = q :: rest /\ (q = "'"%char \/ q = "034"%char).
Proof. unfold repr_str. eexists _, _. split; [reflexivity|apply repr_quote_cases]. Qed.

Lemma join_cons sep (x : str) l :
  Py.join sep (x :: l) = x ++ (if l is [] then [] else sep ++ Py.join sep l).
Proof. destruct l; simpl; by rewrite ?app_nil_r. Qed.

Lemma repr_strs_inj l l' x y :
  Py.join ", " (map repr_str l) ++ "]" ++ x = Py.join ", " (map repr_str l') ++ "]" ++ y ->
  l = l' /\ x = y.
Proof.
  revert l'. induction l as [|a l IH]; intros [|b l'] H.
  - by injection H as ->.
  - exfalso. cbn [map] in H. rewrite join_cons in H.
    destruct (repr_str_head b) as (q & rest & Hb & [-> | ->]); rewrite Hb in H; done.
  - exfalso. cbn [map] in H. rewrite join_cons in H.
    destruct (repr_str_head a) as (q & rest & Ha & [-> | ->]); rewrite Ha in H; done.
  - cbn [map] in H. rewrite !join_cons, <- !app_assoc in H.
    apply repr_str_prefix_free in H as [-> H].
    destruct l as [|a' l], l' as [|b' l']; simpl in H.
    + by injection H as ->.
    + done.
    + done.
    + injection H as H.
      change (Py.join ", " (map repr_str (a' :: l)) ++ "]" ++ x
              = Py.join ", " (map repr_str (b' :: l')) ++ "]" ++ y) in H.
      apply IH in H as [-> ->]. done.
Qed.

(** [repr] of a list of strings determines the list. *)
Lemma repr_str_list_inj l l' x y :
  repr (VList (map VStr l)) ++ x = repr (VList (map VStr l')) ++ y -> l = l' /\ x = y.
Proof.
  cbn [repr]. rewrite !map_map. cbn [repr].
  change (map (fun s => repr_str s) l) with (map repr_str l).
  change (map (fun s => repr_str s) l') with (map repr_str l').
  intros H. simpl in H. injection H as H. rewrite <- !app_assoc in H.
  by apply repr_strs_inj in H.
Qed.

(** *** Dictionaries *)

Lemma dict_get_set d k v k' :
  dict_get (dict_set d k v) k' = if bool_decide (k = k') then Some v else dict_get d k'.
Proof.
  induction d as [|[k0 v0] d IH]; simpl.
  - by repeat case_bool_decide.
  - repeat (case_bool_decide; simpl; subst; try done); by rewrite ?IH, ?bool_decide_eq_true_2,
      ?bool_decide_eq_false_2.
Qed.




(** An assignment to another key leaves the entry of [k] where it is. *)
Lemma dict_set_other (l1 l2 : dict) k k' v :
  k' <> k -> k ∉ map fst l1 ->
  exists l1' l2', (k ∉ map fst l1')
    /\ forall v1, dict_set (l1 ++ (k, v1) :: l2) k' v = l1' ++ (k, v1) :: l2'.
Proof.
  intros Hne. induction l1 as [|[k0 v0] l1 IH]; simpl.
  - intros _. exists [], (dict_set l2 k' v). split; [apply not_elem_of_nil|].
    intros v1. by rewrite bool_decide_eq_false_2.
  - intros H. apply not_elem_of_cons in H as [Hk Hl].
    destruct (IH Hl) as (l1' & l2' & Hl1' & Heq).
    case_bool_decide as Hk0.
    + exists ((k', v) :: l1), l2. split; [|done].
      simpl. apply not_elem_of_cons. done.
    + exists ((k0, v0) :: l1'), l2'. split.
      * simpl. apply not_elem_of_cons. done.
      * intros v1. by rewrite Heq.
Qed.


Lemma dict_update_keeps (l1 l2 : dict) k e :
  k ∉ map fst l1 -> k ∉ map fst e ->
  exists l1' l2', forall v1,
    dict_update (l1 ++ (k, v1) :: l2) e = l1' ++ (k, v1) :: l2'.
Proof.
  unfold dict_update. revert l1 l2.
  induction e as [|[k0 v0] e IH]; intros l1 l2 Hl1 Hk; simpl.
  - by exists l1, l2.
  - simpl in Hk. apply not_elem_of_cons in Hk as [Hne Hk].
    destruct (dict_set_other l1 l2 k k0 v0 (not_eq_sym Hne) Hl1) as (l1' & l2' & Hl1' & Heq).
    destruct (IH l1' l2' Hl1' Hk) as (l1'' & l2'' & Heq').
    exists l1'', l2''. intros v1. by rewrite Heq, Heq'.
Qed.

(** *** Sorting the items and printing them *)

Lemma insert_item_other x (s1 s2 : list (str * value)) k :
  exists s1' s2', forall v,
    insert_item x (s1 ++ (k, v) :: s2) = s1' ++ (k, v) :: s2'.
Proof.
  induction s1 as [|y s1 IH]; simpl.
  - destruct (Py.str_ltb x.1 k).
    + by exists [x], s2.
    + by exists [], (insert_item x s2).
  - destruct IH as (s1' & s2' & Heq). destruct (Py.str_ltb x.1 y.1).
    + by exists (x :: y :: s1), s2.
    + exists (y :: s1'), s2'. intros v. by rewrite Heq.
Qed.

Lemma insert_item_self k (s : list (str * value)) :
  exists s1 s2, forall v, insert_item (k, v) s = s1 ++ (k, v) :: s2.
Proof.
  induction s as [|y s IH]; simpl.
  - by exists [], [].
  - destruct IH as (s1 & s2 & Heq). destruct (Py.str_ltb k y.1).
    + by exists [], (y :: s).
    + exists (y :: s1), s2. intros v. by rewrite Heq.
Qed.

Lemma sorted_items_entry (l1 l2 : dict) k :
  exists s1 s2, forall v, sorted_items (l1 ++ (k, v) :: l2) = s1 ++ (k, v) :: s2.
Proof.
  unfold sorted_items.
  assert (forall (l : dict) s1 s2, exists s1' s2', forall v,
            fold_left (fun acc x => insert_item x acc) l (s1 ++ (k, v) :: s2)
            = s1' ++ (k, v) :: s2') as Hrest.
  { induction l as [|x l IH]; intros s1 s2; simpl; [by exists s1, s2|].
    destruct (insert_item_other x s1 s2 k) as (s1' & s2' & Heq).
    destruct (IH s1' s2') as (s1'' & s2'' & Heq').
    exists s1'', s2''. intros v. by rewrite Heq, Heq'. }
  destruct (insert_item_self k (fold_left (fun acc x => insert_item x acc) l1 []))
    as (s1 & s2 & Heq).
  destruct (Hrest l2 s1 s2) as (s1' & s2' & Heq').
  exists s1', s2'. intros v. by rewrite fold_left_app; simpl; rewrite Heq, Heq'.
Qed.

Lemma join_entry (f : str * value -> str) (s1 s2 : list (str * value)) sep :
  exists A B, forall x, Py.join sep (map f (s1 ++ x :: s2)) = A ++ f x ++ B.
Proof.
  induction s1 as [|y s1 IH].
  - exists [], (if s2 is [] then [] else sep ++ Py.join sep (map f s2)).
    intros x. simpl app. cbn [map]. by rewrite join_cons; destruct s2.
  - destruct IH as (A & B & Heq). exists (f y ++ sep ++ A), B. intros x.
    change (map f ((y :: s1) ++ x :: s2)) with (f y :: map f (s1 ++ x :: s2)).
    rewrite join_cons, Heq. destruct s1; simpl; by rewrite <- ?app_assoc.
Qed.

(** The printed items are a fixed text around the printed value of one
    key. *)
Lemma str_sorted_items_entry (l1 l2 : dict) k :
  exists X Y, forall v, str_sorted_items (l1 ++ (k, v) :: l2) = X ++ repr v ++ Y.
Proof.
  destruct (sorted_items_entry l1 l2 k) as (s1 & s2 & Hsorted).
  destruct (join_entry (fun kv => repr (VTuple [VStr kv.1; kv.2])) s1 s2 ", ")
    as (A & B & Hjoin).
  exists ("[" ++ A ++ "(" ++ repr_str k ++ ", "), (")" ++ B ++ "]"). intros v.
  unfold str_sorted_items. rewrite Hsorted. cbn [repr]. rewrite map_map.
  rewrite (Hjoin (k, v)). cbn [repr fst snd map]. rewrite join_cons. cbn [Py.join].
  by rewrite <- !app_assoc.
Qed.

(** The dictionary [rule_hash] starts from *)
Lemma rule_hash_factors_dict_core type name srcs deps extra :
  rule_hash_factors_dict type name srcs deps extra
  = dict_update [("type" : str, VStr type); ("name" : str, VStr name);
                 ("srcs" : str, VList (map VStr srcs));
                 ("deps" : str, VList (map VStr deps))] extra.
Proof. reflexivity. Qed.

Ltac not_a_key :=
  let H := fresh in
  simpl; intros H;
  repeat (apply elem_of_cons in H as [H|H]; [discriminate H|]);
  by apply elem_of_nil in H.

(** Changing the declared sources changes the hashed text, unless the
    extra factors have a key [srcs] of their own. *)
Lemma factors_text_srcs_inj type name srcs srcs' deps extra :
  ("srcs" : str) ∉ map fst extra ->
  factors_text type name srcs deps extra = factors_text type name srcs' deps extra ->
  srcs = srcs'.
Proof.
  intros Hextra. unfold factors_text. rewrite !rule_hash_factors_dict_core.
  destruct (dict_update_keeps [("type" : str, VStr type); ("name" : str, VStr name)]
              [("deps" : str, VList (map VStr deps))] "srcs" extra)
    as (l1 & l2 & Hupdate); [not_a_key|done|].
  assert (forall v, dict_update [("type" : str, VStr type); ("name" : str, VStr name);
                                 ("srcs" : str, v); ("deps" : str, VList (map VStr deps))]
                      extra = l1 ++ ("srcs" : str, v) :: l2) as Hcore
    by (intros v; exact (Hupdate v)).
  rewrite !Hcore.
  destruct (str_sorted_items_entry l1 l2 "srcs") as (X & Y & Htext).
  rewrite !Htext. intros H. apply app_inv_head in H.
  by apply repr_str_list_inj in H as [-> _].
Qed.


End FactorsText.

(** ** Rule fingerprint: the recursion *)

Section RuleHash.
Context (E : Env).

Lemma same_public_refl db : same_public db db.
Proof. intros k. by destruct (db !! k). Qed.

Lemma same_public_trans db1 db2 db3 :
  same_public db1 db2 -> same_public db2 db3 -> same_public db1 db3.
Proof.
  intros H12 H23 k. specialize (H12 k). specialize (H23 k).
  destruct (db1 !! k), (db2 !! k), (db3 !! k); try done.
  destruct H12 as [-> ->]. done.
Qed.

Lemma same_public_cache db k (t : Target) h :
  db !! k = Some t -> same_public db (<[k := set_rule_hash_cache h t]> db).
Proof.
  intros Hk k'. destruct (decide (k = k')) as [<-|Hne].
  - by rewrite lookup_insert_eq, Hk.
  - rewrite lookup_insert_ne by done. by destruct (db !! k').
Qed.

Lemma same_public_lookup db db' k (t : Target) :
  same_public db db' -> db !! k = Some t ->
  exists t', db' !! k = Some t' /\ class t = class t' /\ attrs t = attrs t'.
Proof.
  intros H Hk. specialize (H k). rewrite Hk in H.
  destruct (db' !! k) as [t'|]; [eauto|done].
Qed.

(** The loop over the dependencies, for any recursive call that only
    touches private fields *)
Lemma dep_rule_hashes_frame rec dkeys acc db r db' :
  (forall d db0 r0 db1, rec d db0 = (r0, db1) -> same_public db0 db1) ->
  dep_rule_hashes rec dkeys acc db = (r, db') -> same_public db db'.
Proof.
  intros Hrec. revert acc db. induction dkeys as [|d dkeys IH]; intros acc db; simpl.
  - intros [= <- <-]. apply same_public_refl.
  - destruct (rec d db) as [[h|e] db1] eqn:Hd.
    + intros H. eapply same_public_trans; [by eapply Hrec|by eapply IH].
    + intros [= <- <-]. by eapply Hrec.
Qed.

(** [rule_hash] changes nothing but cached digests. *)
Lemma rule_hash_frame fuel k db r db' :
  rule_hash E fuel k db = (r, db') -> same_public db db'.
Proof.
  revert k db r db'. induction fuel as [|fuel IH]; intros k db r db'; simpl.
  - intros [= <- <-]. apply same_public_refl.
  - destruct (db !! k) as [t|] eqn:Hk; [|intros [= <- <-]; apply same_public_refl].
    destruct (rule_hash_cache t); [intros [= <- <-]; apply same_public_refl|].
    destruct (dep_rule_hashes _ _ _ _) as [[hs|e] db1] eqn:Hloop.
    + apply dep_rule_hashes_frame in Hloop; [|by apply IH].
      destruct (db1 !! k) as [t1|] eqn:Hk1; [|by intros [= <- <-]].
      destruct (Py.contains _ _); intros [= <- <-]; [done|].
      eapply same_public_trans; [exact Hloop|]. by apply same_public_cache.
    + apply dep_rule_hashes_frame in Hloop; [|by apply IH]. by intros [= <- <-].
Qed.

(** One call of [rule_hash] on a target without a cached digest, once
    the digests of its dependencies are known *)
Lemma rule_hash_step fuel k db (t : Target) hs db1 :
  db !! k = Some t -> rule_hash_cache t = None ->
  dep_rule_hashes (rule_hash E fuel) (deps t) [] db = (Ok hs, db1) ->
  exists t1, db1 !! k = Some t1 /\ class t = class t1 /\ attrs t = attrs t1
    /\ rule_hash E (S fuel) k db =
         if Py.contains (digest_text t hs) " object at 0x"
         then (Fail (Raise "AssertionError" []), db1)
         else (Ok (md5sum E (digest_text t hs)),
               <[k := set_rule_hash_cache (Some (md5sum E (digest_text t hs))) t1]> db1).
Proof.
  intros Hk Hcache Hloop.
  pose proof (dep_rule_hashes_frame _ _ _ _ _ _
                (fun d db0 r0 db1 => rule_hash_frame fuel d db0 r0 db1) Hloop) as Hframe.
  destruct (same_public_lookup _ _ _ _ Hframe Hk) as (t1 & Hk1 & Hclass & Hattrs).
  exists t1. repeat split; try done.
  cbn [rule_hash]. rewrite Hk, Hcache, Hloop, Hk1.
  unfold digest_text, factors_text. by rewrite Hclass, Hattrs.
Qed.

(** *** Databases that [rule_hash] cannot tell apart *)

Lemma dep_rule_hashes_sim rec rec' dkeys acc db db' :
  (forall d db0 db0', same_digests db0 db0' ->
     fst (rec d db0) = fst (rec' d db0')
     /\ same_digests (snd (rec d db0)) (snd (rec' d db0'))) ->
  same_digests db db' ->
  fst (dep_rule_hashes rec dkeys acc db) = fst (dep_rule_hashes rec' dkeys acc db')
  /\ same_digests (snd (dep_rule_hashes rec dkeys acc db))
       (snd (dep_rule_hashes rec' dkeys acc db')).
Proof.
  intros Hrec. revert acc db db'.
  induction dkeys as [|d dkeys IH]; intros acc db db' Hsim; simpl; [done|].
  destruct (Hrec d db db' Hsim) as [Hr Hs].
  destruct (rec d db) as [[h|e] db1], (rec' d db') as [[h'|e'] db1'];
    simpl in Hr, Hs; simplify_eq; auto.
Qed.

Lemma rule_hash_sim fuel : forall k db db',
  same_digests db db' ->
  fst (rule_hash E fuel k db) = fst (rule_hash E fuel k db')
  /\ same_digests (snd (rule_hash E fuel k db)) (snd (rule_hash E fuel k db')).
Proof.
  induction fuel as [|fuel IH]; intros k db db' Hsim; [done|].
  pose proof (Hsim k) as Hk.
  destruct (db !! k) as [t|] eqn:Ht, (db' !! k) as [t'|] eqn:Ht'; try done.
  2: { cbn [rule_hash]. by rewrite Ht, Ht'. }
  destruct Hk as (Hdeps & Hcache & Htext).
  destruct (rule_hash_cache t) as [h|] eqn:Hc.
  { cbn [rule_hash]. by rewrite Ht, Ht', <- Hcache, Hc. }
  destruct (dep_rule_hashes_sim (rule_hash E fuel) (rule_hash E fuel) (deps t) [] db db'
              (IH) Hsim) as [Hr Hs].
  destruct (dep_rule_hashes (rule_hash E fuel) (deps t) [] db) as [[hs|e] db1] eqn:Hloop.
  - destruct (dep_rule_hashes (rule_hash E fuel) (deps t) [] db') as [[hs'|e'] db1'] eqn:Hloop';
      [|done].
    simpl in Hr, Hs. injection Hr as <-.
    destruct (rule_hash_step fuel k db t hs db1 Ht Hc Hloop) as (t1 & Hk1 & _ & _ & ->).
    rewrite Hdeps in Hloop'.
    destruct (rule_hash_step fuel k db' t' hs db1' Ht' (eq_sym Hcache) Hloop')
      as (t1' & Hk1' & _ & _ & ->).
    rewrite <- Htext. destruct (Py.contains _ _); [done|]. split; [done|]. simpl.
    intros y. destruct (decide (k = y)) as [<-|Hne].
    + rewrite !lookup_insert_eq. specialize (Hs k). rewrite Hk1, Hk1' in Hs.
      destruct Hs as (? & _ & ?). done.
    + rewrite !lookup_insert_ne by done. apply Hs.
  - cbn [rule_hash]. rewrite Ht, Ht', <- Hcache, Hc, <- Hdeps, Hloop.
    destruct (dep_rule_hashes (rule_hash E fuel) (deps t) [] db') as [[hs'|e'] db1'];
      simpl in Hr, Hs; [done|]. by injection Hr as <-.
Qed.

(** *** Termination on acyclic databases *)

Lemma ranked_same_public rank db db' :
  same_public db db' -> ranked rank db -> ranked rank db'.
Proof.
  intros Hsame Hranked k t' Hk d Hd.
  pose proof (Hsame k) as Hk'. rewrite Hk in Hk'.
  destruct (db !! k) as [t|] eqn:Ht; [|done]. destruct Hk' as [_ Hattrs].
  rewrite <- Hattrs in Hd. destruct (Hranked k t Ht d Hd) as [[td Htd] Hlt].
  split; [|done]. specialize (Hsame d). rewrite Htd in Hsame.
  by destruct (db' !! d).
Qed.

(** With fuel above its rank the recursion on a target of an acyclic
    database ends in a digest or in the failed assertion. *)
Lemma rule_hash_returns rank fuel : forall k db (t : Target),
  ranked rank db -> db !! k = Some t -> rank k < fuel ->
  exists r db1, rule_hash E fuel k db = (r, db1)
    /\ ((exists h, r = Ok h) \/ r = Fail (Raise "AssertionError" [])).
Proof.
  induction fuel as [|fuel IH]; intros k db t Hranked Hk Hfuel; [lia|].
  destruct (rule_hash_cache t) as [h|] eqn:Hc.
  { exists (Ok h), db. cbn [rule_hash]. rewrite Hk, Hc. eauto. }
  assert (forall dkeys acc db0,
            same_public db db0 -> (forall d, d ∈ dkeys -> d ∈ deps t) ->
            exists r db1, dep_rule_hashes (rule_hash E fuel) dkeys acc db0 = (r, db1)
              /\ ((exists hs, r = Ok hs) \/ r = Fail (Raise "AssertionError" [])))
    as Hloop.
  { induction dkeys as [|d dkeys IHd]; intros acc db0 Hsame Hin; simpl; [eauto 6|].
    destruct (Hranked k t Hk d (Hin d (proj2 (elem_of_cons _ _ _) (or_introl eq_refl))))
      as [[td Htd] Hlt].
    pose proof (Hsame d) as Hd. rewrite Htd in Hd.
    destruct (db0 !! d) as [td0|] eqn:Htd0; [|done].
    destruct (IH d db0 td0) as (r & db1 & Hrec & Hr);
      [by eapply ranked_same_public|done|lia|].
    rewrite Hrec. destruct Hr as [[h ->]| ->]; [|eauto 6]. apply IHd.
    - eapply same_public_trans; [exact Hsame|]. by eapply rule_hash_frame.
    - intros d' Hd'. apply Hin, elem_of_cons. by right. }
  destruct (Hloop (deps t) [] db (same_public_refl db) (fun d H => H))
    as (r & db1 & Hdeps & [[hs ->]| ->]).
  - destruct (rule_hash_step fuel k db t hs db1 Hk Hc Hdeps) as (t1 & _ & _ & _ & ->).
    destruct (Py.contains _ _); eauto 6.
  - exists (Fail (Raise "AssertionError" [])), db1. cbn [rule_hash].
    rewrite Hk, Hc, Hdeps. eauto.
Qed.

(** C1, as the code has it: two targets without a cached digest whose
    type, name, extra factors and dependency digests are the same get
    the same digest when their sources are the same, and hash different
    texts when their sources differ and no extra factor is named
    [srcs], their digests being the [md5sum] of these two texts; the
    digest does not depend on [expanded_deps]; and on
    an acyclic database that holds every dependency the recursion ends,
    in a digest or in the failed assertion of [rule_hash]. *)
Theorem rule_hash_of_factors :
  (forall fuel1 fuel2 k1 k2 db1 db2 (t1 t2 : Target) hs db1' db2',
     db1 !! k1 = Some t1 -> db2 !! k2 = Some t2 ->
     rule_hash_cache t1 = None -> rule_hash_cache t2 = None ->
     dep_rule_hashes (rule_hash E fuel1) (deps t1) [] db1 = (Ok hs, db1') ->
     dep_rule_hashes (rule_hash E fuel2) (deps t2) [] db2 = (Ok hs, db2') ->
     type t1 = type t2 -> name t1 = name t2 ->
     _rule_hash_factors (class t1) t1 = _rule_hash_factors (class t2) t2 ->
     (srcs t1 = srcs t2 ->
      fst (rule_hash E (S fuel1) k1 db1) = fst (rule_hash E (S fuel2) k2 db2))
     /\ (srcs t1 <> srcs t2 ->
         ("srcs" : str) ∉ map fst (_rule_hash_factors (class t1) t1) ->
         digest_text t1 hs <> digest_text t2 hs
         /\ forall h1 h2,
              fst (rule_hash E (S fuel1) k1 db1) = Ok h1 ->
              fst (rule_hash E (S fuel2) k2 db2) = Ok h2 ->
              h1 = md5sum E (digest_text t1 hs) /\ h2 = md5sum E (digest_text t2 hs)))
  /\ (forall fuel k db (g : Target -> list target_key),
        (forall y (t : Target), db !! y = Some t ->
           _rule_hash_factors (class t) (set_expanded_deps (g t) t)
           = _rule_hash_factors (class t) t) ->
        fst (rule_hash E fuel k ((fun t => update (set_expanded_deps (g t)) t) <$> db))
        = fst (rule_hash E fuel k db))
  /\ (forall rank fuel k db (t : Target),
        ranked rank db -> db !! k = Some t -> rank k < fuel ->
        (exists h, fst (rule_hash E fuel k db) = Ok h)
        \/ fst (rule_hash E fuel k db) = Fail (Raise "AssertionError" [])).
Proof.
  split; [|split].
  - intros fuel1 fuel2 k1 k2 db1 db2 t1 t2 hs db1' db2' Hk1 Hk2 Hc1 Hc2 Hd1 Hd2
      Htype Hname Hextra.
    destruct (rule_hash_step fuel1 k1 db1 t1 hs db1' Hk1 Hc1 Hd1) as (t1' & _ & _ & _ & ->).
    destruct (rule_hash_step fuel2 k2 db2 t2 hs db2' Hk2 Hc2 Hd2) as (t2' & _ & _ & _ & ->).
    split.
    + intros Hsrcs. unfold digest_text. rewrite Htype, Hname, Hsrcs, Hextra.
      by destruct (Py.contains _ _).
    + intros Hsrcs Hkey.
      assert (digest_text t1 hs <> digest_text t2 hs) as Htext.
      { unfold digest_text. rewrite <- Htype, <- Hname, <- Hextra. intros Heq.
        by apply factors_text_srcs_inj in Heq. }
      split; [done|]. intros h1 h2.
      destruct (Py.contains (digest_text t1 hs) _); [done|].
      destruct (Py.contains (digest_text t2 hs) _); [done|].
      simpl. by intros [= <-] [= <-].
  - intros fuel k db g Hextra. apply rule_hash_sim. intros y.
    rewrite lookup_fmap. destruct (db !! y) as [t|] eqn:Hy; simpl; [|done].
    split; [done|]. split; [done|]. intros hs. unfold digest_text. simpl.
    by rewrite (Hextra y t Hy).
  - intros rank fuel k db t Hr Hk Hfuel.
    destruct (rule_hash_returns rank fuel k db t Hr Hk Hfuel) as (r & db1 & -> & H).
    destruct H as [[h ->]| ->]; eauto.
Qed.



End RuleHash.

(** ** The digests of the example database *)

Lemma example_target_at_lookup k :
  is_Some (example_database !! k) -> example_database !! k = Some (example_target_at k).
Proof. unfold example_target_at. by intros [t ->]. Qed.

Lemma dep_rule_hashes_result rec dkeys db hs :
  fst (dep_rule_hashes rec dkeys [] db) = Ok hs ->
  dep_rule_hashes rec dkeys [] db = (Ok hs, snd (dep_rule_hashes rec dkeys [] db)).
Proof. intros <-. by destruct (dep_rule_hashes _ _ _ _). Qed.

Ltac example_lookup :=
  apply example_target_at_lookup, (bool_decide_unpack _); vm_compute; exact I.

Ltac example_deps := apply dep_rule_hashes_result; vm_compute; reflexivity.

Lemma example_database_keys k (t : Target) :
  example_database !! k = Some t -> k ∈ example_keys /\ t = example_target_at k.
Proof.
  intros Hk. split.
  - assert (k ∈ (dom example_database : gset target_key)) as H by (apply elem_of_dom; eauto).
    revert H.
    assert ((dom example_database : gset target_key) = list_to_set example_keys) as ->
      by (apply (bool_decide_unpack _); vm_compute; exact I).
    apply elem_of_list_to_set.
  - rewrite example_target_at_lookup in Hk by eauto. apply (inj Some) in Hk. by symmetry.
Qed.

Ltac example_cases Hk :=
  let Hin := fresh "Hin" in
  apply example_database_keys in Hk as [Hin ->]; unfold example_keys in Hin;
  repeat (apply elem_of_cons in Hin as [->|Hin]); try (by apply elem_of_nil in Hin).

Lemma example_database_ranked : ranked example_rank example_database.
Proof.
  intros k t Hk. apply (proj1 (Forall_forall _ _)). example_cases Hk.
  all: apply (bool_decide_unpack _); vm_compute; exact I.
Qed.

(** The extra factors of the targets of the example database are their
    [data], whatever their [expanded_deps] are. *)
Lemma example_database_factors k (t : Target) a :
  example_database !! k = Some t ->
  _rule_hash_factors (class t) (set_expanded_deps a t) = _rule_hash_factors (class t) t.
Proof. intros Hk. example_cases Hk. all: vm_compute; reflexivity. Qed.

(** [a:x] and [c:x] are alike and have the same digest; [a:x] and [e:x]
    differ in their source and hash different texts; the digest of
    [a:x] is the same without its [expanded_deps]; and the recursion
    ends on [a:x]. *)
Lemma rule_hash_of_factors_witness :
  let E := example_env "warning" in
  let db := example_database in
  let ax : target_key := ("a" : str, "x" : str) in
  let cx : target_key := ("c" : str, "x" : str) in
  let ex : target_key := ("e" : str, "x" : str) in
  let hs := ["f13d9527ccf6be5f0d8ddc706fec6dbf" : str] in
  fst (rule_hash E 2 ax db) = fst (rule_hash E 2 cx db)
  /\ digest_text (example_target_at ax) hs <> digest_text (example_target_at ex) hs
  /\ fst (rule_hash E 2 ax ((fun t => update (set_expanded_deps []) t) <$> db))
     = fst (rule_hash E 2 ax db)
  /\ ((exists h, fst (rule_hash E 2 ax db) = Ok h)
      \/ fst (rule_hash E 2 ax db) = Fail (Raise "AssertionError" [])).
Proof.
  intros E db ax cx ex hs.
  destruct (rule_hash_of_factors E) as (Hsame & Hexp & Hret).
  split; [|split; [|split]].
  - refine (proj1 (Hsame 1 1 ax cx db db (example_target_at ax) (example_target_at cx) hs
                     _ _ _ _ _ _ _ _ _ _ _) _).
    1-2: example_lookup.
    1-2: vm_compute; reflexivity.
    1-2: example_deps.
    all: vm_compute; reflexivity.
  - refine (proj1 (proj2 (Hsame 1 1 ax ex db db (example_target_at ax) (example_target_at ex) hs
                     _ _ _ _ _ _ _ _ _ _ _) _ _)).
    1-2: example_lookup.
    1-2: vm_compute; reflexivity.
    1-2: example_deps.
    1-3: vm_compute; reflexivity.
    + vm_compute. discriminate.
    + apply (bool_decide_unpack _). vm_compute. exact I.
  - apply (Hexp 2 ax db (fun _ => [])). intros y t Hy. by eapply example_database_factors.
  - apply (Hret example_rank 2 ax db (example_target_at ax)).
    + exact example_database_ranked.
    + example_lookup.
    + vm_compute. lia.
Defined.

(** C1 as the spec words it does not hold. [a:x] and [b:x] have the same
    type, name, sources and dependency digests, but [b:x] has an output
    file recorded in its [data], which is hashed too: their digests
    differ. And the digest of [d:x], whose [data] has a key [srcs], is
    the same after its declared source is changed. *)
Lemma rule_hash_depends_on_data :
  let E := example_env "warning" in
  let db := example_database in
  let ax : target_key := ("a" : str, "x" : str) in
  let bx : target_key := ("b" : str, "x" : str) in
  let dx : target_key := ("d" : str, "x" : str) in
  (db !! ax = Some (example_target_at ax) /\ db !! bx = Some (example_target_at bx)
   /\ type (example_target_at ax) = type (example_target_at bx)
   /\ name (example_target_at ax) = name (example_target_at bx)
   /\ srcs (example_target_at ax) = srcs (example_target_at bx)
   /\ fst (dep_rule_hashes (rule_hash E 1) (deps (example_target_at ax)) [] db)
      = Ok ["f13d9527ccf6be5f0d8ddc706fec6dbf" : str]
   /\ fst (dep_rule_hashes (rule_hash E 1) (deps (example_target_at bx)) [] db)
      = Ok ["f13d9527ccf6be5f0d8ddc706fec6dbf" : str]
   /\ fst (rule_hash E 2 ax db) = Ok ("fce26266a2e6383f8e0eeb62c3d1b497" : str)
   /\ fst (rule_hash E 2 bx db) = Ok ("080e55cfddb326c98f1e1f22edd41ae6" : str)
   /\ fst (rule_hash E 2 ax db) <> fst (rule_hash E 2 bx db))
  /\ (srcs (example_target_at dx) = ["x.cc" : str]
      /\ fst (rule_hash E 2 dx db) = Ok ("cb1d72eced9f6946cbdbf81221425c46" : str)
      /\ fst (rule_hash E 2 dx (alter (update (set_srcs ["y.cc" : str])) dx db))
         = Ok ("cb1d72eced9f6946cbdbf81221425c46" : str)).
Proof.
  intros E db ax bx dx.
  split; [split; [example_lookup|split; [example_lookup|]]|].
  - do 7 (split; [vm_compute; reflexivity|]). vm_compute. discriminate.
  - do 2 (split; [vm_compute; reflexivity|]). vm_compute. reflexivity.
Qed.



(** With the key [deps] in its [data], [a:x] still has the digests of
    its declared dependencies computed: one that the database lacks
    raises [KeyError]. *)
Example overridden_deps_are_still_walked :
  let E := example_env "warning" in
  let ax : target_key := ("a" : str, "x" : str) in
  let db := example_deps_overridden in
  (db !! ax) ≫= (fun t : Target => dict_get (_rule_hash_factors (class t) t) "deps")
  = Some (VList [])
  /\ fst (rule_hash E 2 ax (alter (update (set_deps [])) ax db))
     = Ok ("4cfc18e604f77491d35b668d4812d1ee" : str)
  /\ fst (rule_hash E 2 ax (alter (update (set_deps [("no" : str, "where" : str)])) ax db))
     = Fail (Raise "KeyError" "('no', 'where')").
Proof. vm_compute. repeat split. Qed.

(* ================================================================== *)
(** * Further properties *)

(** ** Target key normalizer: outcomes and canonical forms *)

Lemma startswith_app (p s : str) : Py.startswith (p ++ s) p = true.
Proof. induction p as [|c p IH]; simpl; [done|]. by rewrite Ascii.eqb_refl. Qed.

Lemma normalize_one_rooted t d :
  rooted t = true -> _normalize_one t d = Fail (Fatal (rooted_message t)).
Proof.
  unfold rooted, _normalize_one. intros H. apply andb_prop in H as [H1 H2].
  apply negb_true_iff in H2. by rewrite H1, H2.
Qed.

Lemma normalize_one_accepts t d :
  rooted t = false -> exists o, _normalize_one t d = Ok o.
Proof.
  unfold rooted, _normalize_one. intros H.
  destruct (Py.startswith t "//") eqn:H2.
  - cbv zeta. destruct (Py.has_char _ _); [destruct (Py.rsplit1 _ _) as [|? [|? [|]]]|
      destruct (Py.endswith _ _)]; eauto.
  - rewrite andb_true_r in H. rewrite H.
    destruct (negb _); cbv zeta;
      (destruct (Py.has_char _ _); [destruct (Py.rsplit1 _ _) as [|? [|? [|]]]|
         destruct (Py.endswith _ _)]); eauto.
Qed.

(** The normalizer returns one canonical form per reference, in order,
    unless a reference starts from the root path: the first such
    reference ends the run with a message that names it. *)
Theorem normalize_outcome targets d :
  (Forall (fun t => rooted t = false) targets ->
   exists l, normalize targets d = Ok l
     /\ length l = length targets
     /\ forall i t, targets !! i = Some t ->
          exists o, _normalize_one t d = Ok o /\ l !! i = Some o)
  /\ (forall pre t post,
        targets = pre ++ t :: post ->
        Forall (fun t => rooted t = false) pre -> rooted t = true ->
        normalize targets d = Fail (Fatal (rooted_message t))).
Proof.
  split.
  - induction targets as [|t targets IH]; intros Hall.
    + exists []. by split.
    + apply Forall_cons in Hall as [Ht Hall].
      destruct (IH Hall) as (l & Hl & Hlen & Hnth).
      destruct (normalize_one_accepts t d Ht) as [o Ho].
      exists (o :: l). simpl. rewrite Ho, Hl. split; [done|]. split; [by rewrite Hlen|].
      intros [|i] t'; simpl; [intros [= <-]; eauto|apply Hnth].
  - intros pre t post -> Hpre Ht. induction Hpre as [|x pre Hx Hpre IH]; simpl.
    + by rewrite (normalize_one_rooted t d Ht).
    + destruct (normalize_one_accepts x d Hx) as [o ->]. by rewrite IH.
Qed.

Lemma normalize_outcome_witness :
  normalize ["//a/b:c" : str; "d/..." : str; "e" : str] "w"
  = Ok ["a/b:c" : str; "w/d:..." : str; "w/e:*" : str]
  /\ normalize ["//a:b" : str; "/c" : str; "/d" : str] "w" = Fail (Fatal (rooted_message "/c")).
Proof.
  split.
  - destruct (proj1 (normalize_outcome ["//a/b:c" : str; "d/..." : str; "e" : str] "w"))
      as (l & Hl & _); [repeat constructor|].
    rewrite Hl. revert Hl. vm_compute. by intros [= <-].
  - apply (proj2 (normalize_outcome _ "w") ["//a:b" : str] "/c" ["/d" : str]).
    + reflexivity.
    + repeat constructor.
    + reflexivity.
Defined.

Lemma rsplit1_suffix sep (a s : str) :
  Py.has_char sep s = true ->
  exists p n, Py.rsplit1 sep s = [p; n] /\ Py.rsplit1 sep (a ++ s) = [a ++ p; n].
Proof.
  intros H. destruct (rsplit1_present _ _ H) as (p & n & Hs & -> & Hn).
  exists p, n. split; [done|]. rewrite app_assoc. by apply rsplit1_last.
Qed.

Lemma join_suffix (a b : str) :
  Py.startswith b "/" = false -> exists pre, PosixPath.join a b = pre ++ b.
Proof.
  intros H. unfold PosixPath.join. rewrite H.
  destruct (_ || _); [by exists a|]. exists (a ++ "/"). by rewrite <- app_assoc.
Qed.

Lemma join_has_char c (a b : str) :
  Py.has_char c a = false -> Py.has_char c b = false -> Ascii.eqb c "/" = false ->
  Py.has_char c (PosixPath.join a b) = false.
Proof.
  intros Ha Hb Hc. unfold PosixPath.join.
  destruct (Py.startswith b "/"); [done|].
  destruct (_ || _); rewrite !has_char_app, ?Ha, ?Hb; [done|].
  simpl. by rewrite Hc.
Qed.

(** The text [_normalize_one] splits into a path and a name: the
    reference without its leading [//], or joined to the working
    directory. *)
Lemma normalize_one_target s d o :
  _normalize_one s d = Ok o ->
  exists pre target,
    (Py.startswith s "//" = true /\ s = "//" ++ target
     \/ Py.startswith s "/" = false /\ target = pre ++ s
        /\ (Py.has_char ":" d = false -> Py.has_char ":" pre = false))
    /\ (let '(path, name) :=
          if Py.has_char ":" target then
            match Py.rsplit1 ":" target with
            | [path; name] => (path, name)
            | _ => (target, [])
            end
          else if Py.endswith target "..." then
            (firstn (length target - 3) target, "..." : str)
          else (target, "*" : str) in
        o = PosixPath.normpath path ++ ":" ++ name).
Proof.
  unfold _normalize_one.
  destruct (Py.startswith s "//") eqn:H2.
  - intros H. exists [], (drop 2 s). split.
    + left. split; [done|]. by apply (startswith_split s "//").
    + cbv zeta in H. destruct (if Py.has_char ":" (drop 2 s) then _ else _) as [p n].
      by injection H as <-.
  - destruct (Py.startswith s "/") eqn:H1; [done|].
    destruct (negb (bool_decide (d = "."))) eqn:Hd; intros H.
    + unfold PosixPath.join in *. rewrite H1 in *.
      destruct (bool_decide (d = []) || Py.endswith d "/").
      * exists d, (d ++ s). split; [right; auto|].
        cbv zeta in H. destruct (if Py.has_char ":" (d ++ s) then _ else _) as [p n].
        by injection H as <-.
      * exists (d ++ "/"), (d ++ "/" ++ s). split.
        { right. split; [done|]. split; [by rewrite <- app_assoc|].
          intros Hc. by rewrite has_char_app, Hc. }
        cbv zeta in H. destruct (if Py.has_char ":" (d ++ "/" ++ s) then _ else _) as [p n].
        by injection H as <-.
    + exists [], s. split; [right; auto|].
      cbv zeta in H. destruct (if Py.has_char ":" s then _ else _) as [p n].
      by injection H as <-.
Qed.

(** Every canonical form is [dir:name] with [dir] a normalized path and
    [name] free of colons, so that splitting it at its last colon gives
    the two back; the name is the text after the last colon of the
    reference when it has one, and one of the two wildcards when neither
    the reference nor the working directory has a colon. *)
Theorem normalize_one_canonical s d o :
  _normalize_one s d = Ok o ->
  exists dir name,
    o = dir ++ ":" ++ name
    /\ PosixPath.normpath dir = dir
    /\ Py.has_char ":" name = false
    /\ Py.rsplit1 ":" o = [dir; name]
    /\ (Py.has_char ":" s = true -> exists p, Py.rsplit1 ":" s = [p; name])
    /\ (Py.has_char ":" s = false -> Py.has_char ":" d = false ->
        name = "*" \/ name = "...").
Proof.
  intros H. apply normalize_one_target in H as (pre & target & Hfrom & Ho).
  assert (exists pre', target = pre' ++ s \/ s = pre' ++ target) as [pre' Hpre'].
  { destruct Hfrom as [[_ ->]|(_ & -> & _)]; [exists "//"|exists pre]; auto. }
  assert (Py.has_char ":" s = true -> Py.has_char ":" target = true
          /\ forall p n, Py.rsplit1 ":" target = [p; n] -> exists p', Py.rsplit1 ":" s = [p'; n])
    as Hcolon.
  { intros Hs. destruct Hfrom as [[_ Heq]|(_ & -> & _)].
    - rewrite Heq in Hs. rewrite has_char_app in Hs. simpl in Hs. split; [done|].
      intros p n Hsplit. destruct (rsplit1_suffix ":" "//" target Hs) as (p0 & n0 & H0 & H1).
      rewrite Heq, H1. rewrite Hsplit in H0. injection H0 as <- <-. eauto.
    - rewrite has_char_app, Hs, orb_true_r. split; [done|].
      intros p n Hsplit. destruct (rsplit1_suffix ":" pre s Hs) as (p0 & n0 & H0 & H1).
      rewrite Hsplit in H1. injection H1 as -> ->. eauto. }
  assert (Py.has_char ":" s = false -> Py.has_char ":" d = false ->
          Py.has_char ":" target = false) as Hfree.
  { intros Hs Hd. destruct Hfrom as [[_ Heq]|(_ & -> & Hp)].
    - rewrite Heq, has_char_app in Hs. by apply orb_false_elim in Hs as [_ Hs].
    - by rewrite has_char_app, (Hp Hd), Hs. }
  destruct (Py.has_char ":" target) eqn:Ht.
  - destruct (rsplit1_present _ _ Ht) as (p & n & Hsplit & Heq & Hn).
    rewrite Hsplit in Ho. exists (PosixPath.normpath p), n.
    split; [done|]. split; [apply normpath_idempotent|]. split; [done|].
    split; [rewrite Ho; by apply rsplit1_last|]. split.
    + intros Hs. destruct (Hcolon Hs) as [_ H]. by apply (H p n).
    + intros Hs Hd. by specialize (Hfree Hs Hd).
  - assert (exists p n, o = PosixPath.normpath p ++ ":" ++ n /\ (n = "*" \/ n = "..."))
      as (p & n & -> & Hn).
    { destruct (Py.endswith target "..."); eauto. }
    exists (PosixPath.normpath p), n.
    assert (Py.has_char ":" n = false) as Hfreen by (by destruct Hn as [-> | ->]).
    split; [done|]. split; [apply normpath_idempotent|]. split; [done|].
    split; [by apply rsplit1_last|]. split; [|done].
    intros Hs. by destruct (Hcolon Hs) as [Hc _].
Qed.

Lemma normalize_one_canonical_witness :
  exists dir name,
    _normalize_one "lib/./util/:helper" "app/service" = Ok (dir ++ ":" ++ name)
    /\ dir = "app/service/lib/util" /\ name = "helper"
    /\ Py.rsplit1 ":" (dir ++ ":" ++ name) = [dir; name].
Proof.
  destruct (normalize_one_canonical "lib/./util/:helper" "app/service"
              "app/service/lib/util:helper") as (dir & name & Ho & _ & _ & Hsplit & _).
  { vm_compute. reflexivity. }
  exists dir, name. rewrite <- Ho. split; [vm_compute; reflexivity|].
  revert Hsplit. vm_compute. intros [= <- <-].
  split; [reflexivity|]. split; reflexivity.
Defined.

(** A reference that starts with [//] has the same canonical form in
    every working directory, that of the bare reference in the root
    directory; and a reference in a working directory has the canonical
    form of the joined path taken from the root. *)
Theorem normalize_one_root_relative t d :
  _normalize_one ("//" ++ t) d = _normalize_one ("//" ++ t) "."
  /\ (Py.startswith t "/" = false ->
      _normalize_one t "." = _normalize_one ("//" ++ t) d
      /\ (d <> "." ->
          _normalize_one t d = _normalize_one ("//" ++ PosixPath.join d t) ".")).
Proof.
  split; [done|]. intros Ht. split.
  - unfold _normalize_one at 1. assert (Py.startswith t "//" = false) as ->.
    { destruct t as [|c t]; [done|]. simpl in *. rewrite andb_true_r in Ht. by rewrite Ht. }
    by rewrite Ht.
  - intros Hd. unfold _normalize_one at 1. assert (Py.startswith t "//" = false) as ->.
    { destruct t as [|c t]; [done|]. simpl in *. rewrite andb_true_r in Ht. by rewrite Ht. }
    rewrite Ht. by rewrite bool_decide_eq_false_2.
Qed.

Lemma normalize_one_root_relative_witness :
  _normalize_one "lib:x" "." = _normalize_one "//lib:x" "app"
  /\ _normalize_one "lib:x" "app" = _normalize_one "//app/lib:x" ".".
Proof.
  destruct (proj2 (normalize_one_root_relative "lib:x" "app") eq_refl) as [H1 H2].
  split; [exact H1|]. apply H2. discriminate.
Defined.

(** ** Source ownership registry: errors, silent runs and reruns *)

Section Registry.
Context (E : Env).

Lemma duplicate_srcs_fold_elem (l : list str) : forall (dups : list str) (seen : gset str) x,
  x ∈ fst (fold_left
             (fun '(dups, srcset) s =>
                if bool_decide (s ∈ (srcset : gset str)) then (dups ++ [s], srcset)
                else (dups, srcset ∪ {[s]}))
             l (dups, seen))
  <-> x ∈ dups \/ exists l1 l2, l = l1 ++ x :: l2 /\ (x ∈ seen \/ x ∈ l1).
Proof.
  induction l as [|y l IH]; intros dups seen x; simpl.
  - split; [auto|]. intros [H|(l1 & l2 & H & _)]; [done|]. by destruct l1.
  - case_bool_decide as Hy; rewrite IH.
    + rewrite elem_of_app, list_elem_of_singleton. split.
      * intros [[H| ->]|(l1 & l2 & -> & H)]; [by left| |].
        -- right. exists [], l. auto.
        -- right. exists (y :: l1), l2. split; [done|].
           destruct H as [H|H]; [by left|]. right. apply elem_of_cons. by right.
      * intros [H|(l1 & l2 & Heq & H)]; [by left; left|].
        destruct l1 as [|z l1]; simpl in Heq; injection Heq as <- ->.
        -- left. by right.
        -- destruct H as [H|H]; [right; exists l1, l2; auto|].
           apply elem_of_cons in H as [->|H]; [left; by right|].
           right. exists l1, l2. auto.
    + split.
      * intros [H|(l1 & l2 & -> & H)]; [by left|].
        right. exists (y :: l1), l2. split; [done|].
        rewrite elem_of_union, elem_of_singleton in H.
        destruct H as [[H| ->]|H]; [by left| |]; right; apply elem_of_cons; auto.
      * intros [H|(l1 & l2 & Heq & H)]; [by left|].
        destruct l1 as [|z l1]; simpl in Heq; injection Heq as <- ->.
        -- destruct H as [H|H]; [done|]. by apply elem_of_nil in H.
        -- right. exists l1, l2. split; [done|].
           rewrite elem_of_union, elem_of_singleton.
           destruct H as [H|H]; [by left; left|].
           apply elem_of_cons in H as [->|H]; auto.
Qed.

(** The paths [_check_srcs] reports are those that occur again after an
    earlier occurrence. *)
Lemma duplicate_srcs_elem (l : list str) x :
  x ∈ duplicate_srcs l <-> exists l1 l2, l = l1 ++ x :: l2 /\ x ∈ l1.
Proof.
  unfold duplicate_srcs. rewrite duplicate_srcs_fold_elem. split.
  - intros [H|(l1 & l2 & -> & [H|H])]; [by apply elem_of_nil in H|done|eauto].
  - intros (l1 & l2 & -> & H). right. eauto.
Qed.

Lemma NoDup_no_repeat (l : list str) :
  (forall x l1 l2, l = l1 ++ x :: l2 -> x ∉ l1) -> NoDup l.
Proof.
  induction l as [|y l IH] using rev_ind; intros H; [constructor|].
  apply NoDup_app. split; [|split].
  - apply IH. intros x l1 l2 -> . apply (H x l1 (l2 ++ [y])). by rewrite <- app_assoc.
  - intros x Hx Hy. apply list_elem_of_singleton in Hy. subst x.
    by apply (H y l []).
  - apply NoDup_singleton.
Qed.


End Registry.


(** The cases of one step of the loop of [_check_srcs] *)
Ltac claim_cases Hstep :=
  rewrite claim_step_cases in Hstep;
  match type of Hstep with
  | context [Py.contains ?s ?d || Py.startswith ?s ?p] =>
      destruct (Py.contains s d || Py.startswith s p) eqn:?
  end;
  [|match type of Hstep with
    | context [src_target_map ?w !! ?k] =>
        destruct (src_target_map w !! k) as [?existed|] eqn:?
    end;
    [case_bool_decide;
     [|match type of Hstep with
       | context [if ?e.2 then _ else _] => destruct (e.2) eqn:?
       end;
       [|match type of Hstep with
         | context [if (claim_of ?t).2 then _ else _] => destruct ((claim_of t).2) eqn:?
         end;
         [|repeat case_bool_decide; try discriminate]]]|]];
  injection Hstep as <- <-.

Section RegistryRuns.
Context (E : Env).

Lemma for_each_app {A} (l1 l2 : list A) body st :
  for_each (l1 ++ l2) body st =
    match for_each l1 body st with
    | (Ok _, st') => for_each l2 body st'
    | (Fail e, st') => (Fail e, st')
    end.
Proof.
  revert st. induction l1 as [|x l1 IH]; intros st; [done|].
  simpl app. rewrite !for_each_cons. destruct (body x st) as [[[]|e] st0]; [apply IH|done].
Qed.

(** A step of the loop touches the registry entry of its source only,
    and nothing else of the process state but the console. *)
Lemma claim_step_frame action s st r st' :
  _check_srcs_claim action s st = (r, st') ->
  target_database (world st') = target_database (world st)
  /\ forall k, k <> src_of (self st) s ->
       src_target_map (world st') !! k = src_target_map (world st) !! k.
Proof.
  intros Hstep. claim_cases Hstep; (split; [done|]); intros k Hk; try done.
  all: simpl; by rewrite lookup_insert_ne.
Qed.

Lemma claim_loop_frame action l st r st' :
  for_each l (_check_srcs_claim action) st = (r, st') ->
  target_database (world st') = target_database (world st)
  /\ forall k, (forall s, s ∈ l -> k <> src_of (self st) s) ->
       src_target_map (world st') !! k = src_target_map (world st) !! k.
Proof.
  revert st. induction l as [|s0 l IH]; intros st Hloop.
  - by injection Hloop as <- <-.
  - rewrite for_each_cons in Hloop.
    destruct (_check_srcs_claim action s0 st) as [r0 st0] eqn:Hstep.
    pose proof (claim_step_effect _ _ _ _ _ Hstep) as (Hself0 & _ & _).
    apply claim_step_frame in Hstep as [Hdb0 Hframe0].
    assert (forall k, (forall s, s ∈ s0 :: l -> k <> src_of (self st) s) ->
              src_target_map (world st0) !! k = src_target_map (world st) !! k) as H0.
    { intros k Hk. apply Hframe0, Hk, elem_of_cons. by left. }
    destruct r0 as [[]|e].
    + apply IH in Hloop as [Hdb Hframe]. rewrite Hself0 in Hframe.
      split; [by rewrite Hdb|]. intros k Hk. rewrite Hframe, H0; [done|done|].
      intros s Hs. apply Hk, elem_of_cons. by right.
    + by injection Hloop as <- <-.
Qed.

(** The loop runs to its end without a word when no source is held by a
    different claimant while both disallow duplicate sources. *)
Lemma claim_loop_quiet action l st :
  Forall valid_src l ->
  (forall s e, s ∈ l -> src_target_map (world st) !! src_of (self st) s = Some e ->
     e = claim_of (self st) \/ e.2 = true \/ (claim_of (self st)).2 = true) ->
  exists st', for_each l (_check_srcs_claim action) st = (Ok (), st')
    /\ console_log (world st') = console_log (world st).
Proof.
  revert st. induction l as [|s0 l IH]; intros st Hvalid Hfree; [by exists st|].
  apply Forall_cons in Hvalid as [Hv0 Hvalid]. rewrite for_each_cons.
  destruct (_check_srcs_claim action s0 st) as [r0 st0] eqn:Hstep.
  pose proof (claim_step_effect _ _ _ _ _ Hstep) as (Hself0 & Hframe0 & _).
  assert (r0 = Ok () /\ console_log (world st0) = console_log (world st)) as [-> Hlog0].
  { clear Hframe0 Hself0. unfold valid_src in Hv0.
    claim_cases Hstep; try congruence; try done.
    all: match goal with H : src_target_map _ !! _ = Some ?e |- _ =>
           destruct (Hfree s0 e) as [?|[?|?]]; [apply elem_of_cons; by left|done|..];
           congruence end. }
  destruct (IH st0) as (st' & Hloop & Hlog); [done| |].
  - rewrite Hself0. intros s e Hs He.
    destruct (Hframe0 (src_of (self st) s)) as [H|H]; rewrite H in He.
    + apply (Hfree s e); [apply elem_of_cons; by right|done].
    + injection He as <-.
      destruct (src_target_map (world st) !! src_of (self st) s) as [e0|] eqn:He0;
        simpl; [|by left].
      destruct (e0.2) eqn:H2; [by left|].
      apply (Hfree s e0); [apply elem_of_cons; by right|done].
  - exists st'. split; [done|]. by rewrite Hlog.
Qed.

(** When no source of the target is held by a different claimant while
    both disallow duplicate sources, [_check_srcs] returns without a
    message whatever the policy is: it changes nothing but the registry
    entries of the sources, each of which goes to the owner
    [owner_after] names. *)
Theorem check_srcs_without_conflict st :
  NoDup (srcs (self st)) ->
  Forall valid_src (srcs (self st)) ->
  (forall s e, s ∈ srcs (self st) ->
     src_target_map (world st) !! src_of (self st) s = Some e ->
     e = claim_of (self st) \/ e.2 = true \/ (claim_of (self st)).2 = true) ->
  exists st',
    _check_srcs E st = (Ok (), st')
    /\ self st' = self st
    /\ console_log (world st') = console_log (world st)
    /\ target_database (world st') = target_database (world st)
    /\ (forall s, s ∈ srcs (self st) ->
          src_target_map (world st') !! src_of (self st) s
          = Some (owner_after (src_target_map (world st) !! src_of (self st) s)
                    (claim_of (self st))))
    /\ (forall k, (forall s, s ∈ srcs (self st) -> k <> src_of (self st) s) ->
          src_target_map (world st') !! k = src_target_map (world st) !! k).
Proof.
  intros Hnd Hvalid Hfree.
  destruct (claim_loop_quiet (config_duplicated_source_action E) _ st Hvalid Hfree)
    as (st' & Hloop & Hlog).
  assert (_check_srcs E st = (Ok (), st')) as Hcheck.
  { unfold _check_srcs. method_unfold. by rewrite (duplicate_srcs_NoDup _ Hnd). }
  exists st'. split; [done|].
  destruct (check_srcs_effect E _ _ _ Hcheck) as (Hself & _ & Hown).
  destruct (claim_loop_frame _ _ _ _ _ Hloop) as [Hdb Hframe].
  auto 10.
Qed.

(** Running [_check_srcs] again, after a run that returned, leaves the
    registry as it is, however the second run ends. *)
Theorem check_srcs_registry_stable st st1 r st2 :
  _check_srcs E st = (Ok (), st1) ->
  _check_srcs E st1 = (r, st2) ->
  src_target_map (world st2) = src_target_map (world st1).
Proof.
  intros H1 H2. apply map_eq. intros k.
  destruct (check_srcs_effect E _ _ _ H1) as (Hself1 & _ & Hown1).
  destruct (check_srcs_effect E _ _ _ H2) as (_ & Hframe2 & _).
  destruct (decide (Exists (fun s => k = src_of (self st) s) (srcs (self st)))) as [Hk|Hk].
  - apply Exists_exists in Hk as (s & Hs & ->).
    destruct (Hframe2 (src_of (self st) s)) as [H|H]; [done|].
    rewrite H, Hself1, (Hown1 eq_refl s Hs). by rewrite owner_after_idemp.
  - revert H2. unfold _check_srcs. method_unfold.
    destruct (negb _); [by intros [= _ <-]|]. intros H2.
    apply claim_loop_frame in H2 as [_ H2]. apply H2.
    rewrite Hself1. intros s Hs ->. apply Hk, Exists_exists. eauto.
Qed.

(** A source with [..] in it, or rooted, ends the run with a message
    that names it once the sources before it are claimed, unless the
    policy "error" has ended the run on one of those; the registry
    entries of the later sources are not touched. *)
Theorem check_srcs_invalid_path st pre s post :
  srcs (self st) = pre ++ s :: post ->
  NoDup (srcs (self st)) ->
  Forall valid_src pre ->
  ~ valid_src s ->
  exists st1,
    self st1 = self st
    /\ (forall k, (forall s', s' ∈ pre -> k <> src_of (self st) s') ->
          src_target_map (world st1) !! k = src_target_map (world st) !! k)
    /\ (_check_srcs E st
        = (Fail (Fatal (_format_message (self st) "error" (invalid_src_message s))), st1)
        /\ (forall s', s' ∈ pre ->
              src_target_map (world st1) !! src_of (self st) s'
              = Some (owner_after (src_target_map (world st) !! src_of (self st) s')
                        (claim_of (self st))))
        \/ config_duplicated_source_action E = "error"
           /\ exists s' e, s' ∈ pre
                /\ _check_srcs E st
                   = (Fail (Fatal (conflict_message s' e (fullname (self st)))), st1)).
Proof.
  intros Hsrcs Hnd Hvalid Hs.
  set (action := config_duplicated_source_action E).
  destruct (for_each pre (_check_srcs_claim action) st) as [r1 st1] eqn:Hpre.
  exists st1.
  pose proof (claim_loop_effect _ _ _ _ _ Hpre) as (Hself1 & _ & Hown1).
  pose proof (claim_loop_frame _ _ _ _ _ Hpre) as (_ & Hframe1).
  split; [done|]. split; [done|].
  assert (_check_srcs E st = for_each (pre ++ s :: post) (_check_srcs_claim action) st)
    as ->.
  { unfold _check_srcs. method_unfold. rewrite (duplicate_srcs_NoDup _ Hnd). simpl.
    by rewrite Hsrcs. }
  rewrite for_each_app, Hpre. destruct r1 as [[]|e].
  - left. split; [|by apply Hown1]. rewrite for_each_cons, claim_step_cases. cbv zeta.
    unfold valid_src in Hs. apply not_false_is_true in Hs. by rewrite Hs, Hself1.
  - right.
    assert (forall l st0 e0 st', Forall valid_src l ->
              for_each l (_check_srcs_claim action) st0 = (Fail e0, st') ->
              action = "error"
              /\ exists s' e', s' ∈ l
                   /\ e0 = Fatal (conflict_message s' e' (fullname (self st0)))) as Hfail.
    { clear. induction l as [|s0 l IH]; intros st0 e0 st' Hvalid Hloop; [done|].
      apply Forall_cons in Hvalid as [Hv0 Hvalid]. rewrite for_each_cons in Hloop.
      destruct (_check_srcs_claim action s0 st0) as [r0 st00] eqn:Hstep.
      pose proof (claim_step_effect _ _ _ _ _ Hstep) as (Hself0 & _ & _).
      assert (r0 = Ok ()
              \/ action = "error"
                 /\ exists e', r0 = Fail (Fatal (conflict_message s0 e' (fullname (self st0)))))
        as [-> | (Ha & e' & ->)].
      { unfold valid_src in Hv0. clear Hloop Hself0.
        claim_cases Hstep; try congruence; eauto. }
      - destruct (IH _ _ _ Hvalid Hloop) as (Ha & s' & e' & Hs' & ->).
        split; [done|]. exists s', e'. rewrite Hself0. split; [|done].
        apply elem_of_cons. by right.
      - injection Hloop as <- <-. split; [done|]. exists s0, e'.
        split; [apply elem_of_cons; by left|done]. }
    destruct (Hfail _ _ _ _ Hvalid Hpre) as (Ha & s' & e' & Hs' & ->). eauto 8.
Qed.

End RegistryRuns.

Lemma outcome_of_fst {A B} (p : A * B) a : fst p = a -> p = (a, snd p).
Proof. intros <-. by destruct p. Qed.

(** [a:x], which allows duplicate sources, holds [common.cc]; [a:y],
    which does not, takes it over without a word under the policy
    "error", and claims [y.cc]. *)
Lemma check_srcs_without_conflict_witness :
  let E := example_env "error" in
  let st := constructing E Target_class "y" ["common.cc" : str; "y.cc" : str]
              (world_after E example_class "x" ["common.cc" : str] (example_world "a")) in
  fst (_check_srcs E st) = Ok ()
  /\ console_log (world (snd (_check_srcs E st))) = []
  /\ src_target_map (world (snd (_check_srcs E st))) !! ("a/common.cc" : str)
     = Some ("a:y" : str, false)
  /\ src_target_map (world (snd (_check_srcs E st))) !! ("a/y.cc" : str)
     = Some ("a:y" : str, false).
Proof.
  intros E st.
  destruct (check_srcs_without_conflict E st) as (st' & -> & _ & Hlog & _ & Hown & _).
  - apply (bool_decide_unpack _). vm_compute. exact I.
  - repeat constructor.
  - intros s e Hs He. right. left.
    apply elem_of_cons in Hs as [->|Hs]; [|apply list_elem_of_singleton in Hs as ->].
    + vm_compute in He. by injection He as <-.
    + vm_compute in He. discriminate.
  - cbn [fst snd]. split; [done|]. split; [by rewrite Hlog|]. split.
    + change ("a/common.cc" : str) with (src_of (self st) "common.cc").
      rewrite Hown; [vm_compute; reflexivity|]. apply elem_of_cons. by left.
    + change ("a/y.cc" : str) with (src_of (self st) "y.cc").
      rewrite Hown; [vm_compute; reflexivity|]. apply elem_of_cons. right.
      by apply list_elem_of_singleton.
Defined.

Lemma check_srcs_registry_stable_witness :
  let E := example_env "warning" in
  let st := constructing E Target_class "y" ["common.cc" : str; "y.cc" : str]
              (world_after E Target_class "x" ["common.cc" : str] (example_world "a")) in
  let st1 := snd (_check_srcs E st) in
  src_target_map (world (snd (_check_srcs E st1))) = src_target_map (world st1)
  /\ src_target_map (world st1) !! ("a/common.cc" : str) = Some ("a:x" : str, false)
  /\ length (console_log (world (snd (_check_srcs E st1)))) = 2.
Proof.
  intros E st st1. split; [|split; vm_compute; reflexivity].
  apply (check_srcs_registry_stable E st st1 (fst (_check_srcs E st1))).
  - apply outcome_of_fst. vm_compute. reflexivity.
  - by apply outcome_of_fst.
Defined.

Lemma check_srcs_invalid_path_witness :
  let E := example_env "warning" in
  let st := constructing E Target_class "x" ["a.cc" : str; "../b.cc" : str; "c.cc" : str]
              (example_world "lib") in
  fst (_check_srcs E st)
  = Fail (Fatal ("lib/BUILD:1 error: x: Invalid source file path: ../b.cc. can only be "
                 ++ "relative path, and must in current directory or subdirectories."))
  /\ src_target_map (world (snd (_check_srcs E st))) !! ("lib/a.cc" : str)
     = Some ("lib:x" : str, false)
  /\ src_target_map (world (snd (_check_srcs E st))) !! ("lib/c.cc" : str) = None.
Proof.
  intros E st.
  destruct (check_srcs_invalid_path E st ["a.cc" : str] "../b.cc" ["c.cc" : str])
    as (st1 & _ & Hframe & [[H Hown]|(Ha & _)]).
  - reflexivity.
  - apply (bool_decide_unpack _). vm_compute. exact I.
  - repeat constructor.
  - unfold valid_src. vm_compute. discriminate.
  - rewrite H. cbn [fst snd]. split; [vm_compute; reflexivity|]. split.
    + change ("lib/a.cc" : str) with (src_of (self st) "a.cc").
      rewrite Hown; [vm_compute; reflexivity|]. by apply list_elem_of_singleton.
    + rewrite Hframe; [vm_compute; reflexivity|].
      intros s' Hs'. apply list_elem_of_singleton in Hs' as ->. vm_compute. discriminate.
  - vm_compute in Ha. discriminate.
Defined.

(** ** Dependency resolver: format checks and key forms *)

Section Formats.
Context (E : Env).

Lemma check_format_cases t st :
  _check_format t st =
    if well_formed t then (Ok (), st)
    else (Fail (Fatal (_format_message (self st) "error" (format_complaint t))), st).
Proof.
  unfold _check_format, well_formed, format_complaint, marked. method_unfold.
  destruct (_ || _); simpl; [|done].
  destruct (Py.count ":" t) as [|[|n]]; reflexivity.
Qed.

(** The format check of the declared dependencies changes nothing: it
    returns when every reference is well formed, and otherwise ends the
    run with the complaint about the first one that is not. *)
Theorem check_deps_outcome ds st :
  (Forall (fun t => well_formed t = true) ds -> _check_deps ds st = (Ok (), st))
  /\ (forall pre t post,
        ds = pre ++ t :: post ->
        Forall (fun t => well_formed t = true) pre -> well_formed t = false ->
        _check_deps ds st
        = (Fail (Fatal (_format_message (self st) "error" (format_complaint t))), st)).
Proof.
  unfold _check_deps. split.
  - induction 1 as [|t ds Ht _ IH]; [done|].
    rewrite for_each_cons, check_format_cases, Ht. exact IH.
  - intros pre t post -> Hpre Ht. induction Hpre as [|x pre Hx _ IH]; simpl app.
    + by rewrite for_each_cons, check_format_cases, Ht.
    + by rewrite for_each_cons, check_format_cases, Hx.
Qed.

End Formats.

Lemma check_deps_outcome_witness :
  let st := constructing (example_env "warning") Target_class "x" [] (example_world "lib") in
  _check_deps [":a" : str; "//b:c" : str; "#m" : str; "./d:e" : str] st = (Ok (), st)
  /\ _check_deps [":a" : str; "//b:c//d:e" : str; "f:g" : str] st
     = (Fail (Fatal ("lib/BUILD:1 error: x: Invalid format //b:c//d:e, "
                     ++ "missing ',' between labels?")), st).
Proof.
  intros st. split.
  - apply check_deps_outcome. repeat constructor.
  - rewrite (proj2 (check_deps_outcome _ st) [":a" : str] "//b:c//d:e" ["f:g" : str]);
      [reflexivity|reflexivity|repeat constructor|reflexivity].
Defined.

Section SystemLibraries.
Context (E : Env).

(** [SystemLibrary(name)] changes nothing in the process: it returns the
    object of key [('#', name[1:])], or is fatal when the name after the
    [#] has a slash. *)
Lemma system_library_init_cases lib_name w :
  SystemLibrary__init__ E lib_name w =
    if Py.has_char "/" (drop 1 lib_name)
    then (Fail (Fatal (util_source_location E
                         (PosixPath.join (blade_current_source_path w) "BUILD")
                       ++ " error: " ++ drop 1 lib_name
                       ++ ": Invalid target name, should not contain dir part")), w)
    else (Ok (system_library_object E (blade_current_source_path w) lib_name), w).
Proof.
  unfold SystemLibrary__init__, run_init, init_checks, init_finish, _check_name,
    _check_kwargs, _check_srcs, _check_deps.
  method_unfold. cbn [self world new_object attrs name initial_attributes srcs].
  destruct (Py.has_char "/" (drop 1 lib_name)); reflexivity.
Qed.


(** A dependency on a system library [#n] resolves to the key [('#', n)].
    When the database holds that key nothing changes; otherwise the
    library is constructed and registered under it, which is fatal when
    [n] has a slash. *)
Theorem unify_dep_system_library n st :
  let k : target_key := ("#" : str, n) in
  let db := target_database (world st) in
  (is_Some (db !! k) -> _unify_dep E ("#" ++ n) st = (Ok k, st))
  /\ (db !! k = None -> Py.has_char "/" n = false ->
      _unify_dep E ("#" ++ n) st
      = (Ok k,
         {| self := self st;
            world := set_target_database
                       (<[k := system_library_object E (blade_current_source_path (world st))
                                 ("#" ++ n)]> db) (world st) |}))
  /\ (db !! k = None -> Py.has_char "/" n = true ->
      _unify_dep E ("#" ++ n) st
      = (Fail (Fatal (util_source_location E
                        (PosixPath.join (blade_current_source_path (world st)) "BUILD")
                      ++ " error: " ++ n
                      ++ ": Invalid target name, should not contain dir part")),
         st)).
Proof.
  cbv zeta. rewrite unify_dep_cases, add_system_library_cases, system_library_init_cases.
  change (Py.startswith ("#" ++ n) "#") with true.
  change (drop 1 ("#" ++ n)) with n. cbv iota.
  split; [|split].
  - by intros [lib ->].
  - intros -> ->. reflexivity.
  - intros -> ->. by destruct st.
Qed.

(** Resolving a reference leaves [self], the registry and the console as
    they are, and every target of the database in its place. *)
Theorem unify_dep_frame dep st r st' :
  _unify_dep E dep st = (r, st') ->
  self st' = self st
  /\ src_target_map (world st') = src_target_map (world st)
  /\ console_log (world st') = console_log (world st)
  /\ blade_current_source_path (world st') = blade_current_source_path (world st)
  /\ (forall k (t : Target), target_database (world st) !! k = Some t ->
        target_database (world st') !! k = Some t).
Proof.
  rewrite unify_dep_cases. destruct (Py.startswith dep "#") eqn:Hsys.
  - rewrite add_system_library_cases, system_library_init_cases.
    destruct (target_database (world st) !! _) as [lib|] eqn:Hdb.
    + by intros [= <- <-].
    + destruct (Py.has_char "/" _); intros [= <- <-]; [by destruct st|].
      repeat (split; [done|]). intros k t Hk. simpl.
      rewrite lookup_insert_ne; [done|]. intros <-.
      discriminate (eq_trans (eq_sym Hk) Hdb).
  - by intros [= <- <-].
Qed.

End SystemLibraries.

Lemma unify_dep_system_library_witness :
  let E := example_env "warning" in
  let st := constructing E Target_class "x" [] (example_world "lib") in
  let st1 := snd (_unify_dep E "#pthread" st) in
  fst (_unify_dep E "#pthread" st) = Ok ("#" : str, "pthread" : str)
  /\ ((fun t : Target => fullname t)
      <$> (target_database (world st1) !! ("#" : str, "pthread" : str) : option Target))
     = Some ("#:pthread" : str)
  /\ _unify_dep E "#pthread" st1 = (Ok ("#" : str, "pthread" : str), st1)
  /\ fst (_unify_dep E "#sys/io" st)
     = Fail (Fatal "lib/BUILD:1 error: sys/io: Invalid target name, should not contain dir part").
Proof.
  intros E st st1.
  destruct (unify_dep_system_library E "pthread" st) as (_ & Hnew & _).
  destruct (unify_dep_system_library E "pthread" st1) as (Hold & _ & _).
  destruct (unify_dep_system_library E "sys/io" st) as (_ & _ & Hbad).
  specialize (Hnew eq_refl eq_refl). specialize (Hbad eq_refl eq_refl).
  change ("#" ++ "pthread") with ("#pthread" : str) in Hnew, Hold.
  change ("#" ++ "sys/io") with ("#sys/io" : str) in Hbad.
  assert (((fun t : Target => fullname t)
           <$> (target_database (world st1) !! ("#" : str, "pthread" : str) : option Target))
          = Some ("#:pthread" : str)) as Hin.
  { unfold st1. rewrite Hnew. cbn [snd world target_database set_target_database].
    by rewrite lookup_insert_eq. }
  split; [by rewrite Hnew|]. split; [done|]. split; [|by rewrite Hbad].
  apply Hold. destruct (target_database (world st1) !! _); [eauto|discriminate Hin].
Defined.

Lemma unify_dep_frame_witness :
  let E := example_env "warning" in
  let st := constructing E Target_class "x" [] (example_world "lib") in
  let st1 := snd (_unify_dep E "#pthread" st) in
  let st2 := snd (_unify_dep E "#m" st1) in
  ((fun t : Target => fullname t)
     <$> (target_database (world st2) !! ("#" : str, "pthread" : str) : option Target))
  = Some ("#:pthread" : str)
  /\ src_target_map (world st2) = src_target_map (world st1).
Proof.
  intros E st st1 st2.
  destruct (unify_dep_frame E "#m" st1 (fst (_unify_dep E "#m" st1)) st2)
    as (_ & Hreg & _ & _ & Hdb); [by apply outcome_of_fst|].
  split; [|done].
  destruct (target_database (world st1) !! ("#" : str, "pthread" : str)) as [t|] eqn:Ht.
  - rewrite (Hdb _ t Ht). revert Ht. vm_compute. by intros [= <-].
  - revert Ht. vm_compute. discriminate.
Defined.

Section KeyForms.
Context (E : Env).

(** Resolving a reference that is no system library changes nothing and
    never ends the process: it returns a key whose directory is a
    normalized path, or raises one of three exceptions, for the empty
    reference, for a reference without a colon, and for a relative
    reference with [..] before its last colon. *)
Theorem unify_dep_outcome dep st :
  Py.startswith dep "#" = false ->
  exists r, _unify_dep E dep st = (r, st)
    /\ ((exists k, r = Ok k /\ Py.has_char ":" dep = true
           /\ PosixPath.normpath k.1 = k.1
           /\ (Py.startswith dep ":" = false -> Py.has_char ":" k.2 = false))
        \/ (dep = [] /\ r = Fail (Raise "IndexError" "string index out of range"))
        \/ (dep <> [] /\ Py.has_char ":" dep = false
            /\ r = Fail (Raise "Exception" ("Wrong format in " ++ fullname (self st))))
        \/ (Py.startswith dep ":" = false /\ Py.startswith dep "//" = false
            /\ (exists p n, Py.rsplit1 ":" dep = [p; n] /\ Py.contains p ".." = true)
            /\ r = Fail (Raise "Exception" "Don't use '..' in path"))).
Proof.
  intros Hsys. rewrite unify_dep_cases, Hsys. eexists. split; [reflexivity|].
  unfold unify_pure. destruct dep as [|c dep']; [right; left; done|].
  destruct (Ascii.eqb c ":") eqn:Hc.
  { left. eexists. split; [reflexivity|]. apply Ascii.eqb_eq in Hc. subst c.
    split; [done|]. split; [apply normpath_idempotent|]. done. }
  assert (Py.startswith (c :: dep') ":" = false) as Hnot.
  { change (Py.startswith (c :: dep') ":") with (Ascii.eqb ":" c && true).
    by rewrite andb_true_r, Ascii.eqb_sym. }
  destruct (Py.startswith (c :: dep') "//") eqn:Hroot.
  - destruct (Py.has_char ":" (c :: dep')) eqn:Hcolon; simpl negb; cbv iota.
    + assert (Py.has_char ":" (drop 2 (c :: dep')) = true) as Hcolon'.
      { rewrite (startswith_split _ _ Hroot), has_char_app in Hcolon. exact Hcolon. }
      destruct (rsplit1_present _ _ Hcolon') as (p & n & -> & _ & Hn).
      left. eexists. split; [reflexivity|]. split; [done|].
      split; [apply normpath_idempotent|done].
    + right. right. left. done.
  - destruct (Py.has_char ":" (c :: dep')) eqn:Hcolon; simpl negb; cbv iota.
    + destruct (rsplit1_present _ _ Hcolon) as (p & n & Hsplit & _ & Hn).
      rewrite Hsplit. destruct (Py.contains p "..") eqn:Hdots.
      * right. right. right. eauto 8.
      * left. eexists. split; [reflexivity|]. split; [done|].
        split; [apply normpath_idempotent|done].
    + right. right. left. done.
Qed.

(** The keys of the two marked forms: [:name] is the target [name] of the
    directory of [self], and [//path:name] the target [name] of the
    directory [path] taken from the root, whatever [..] it has. *)
Theorem unify_dep_marked_forms st :
  (forall n, _unify_dep E (":" ++ n) st = (Ok (PosixPath.normpath (path (self st)), n), st))
  /\ (forall p n, Py.has_char ":" n = false ->
        _unify_dep E ("//" ++ p ++ ":" ++ n) st = (Ok (PosixPath.normpath p, n), st)).
Proof.
  split.
  - intros n. by rewrite unify_dep_cases.
  - intros p n Hn. rewrite unify_dep_cases. unfold unify_pure.
    change ("//" ++ p ++ ":" ++ n) with ("/"%char :: "/"%char :: p ++ ":"%char :: n).
    change (Py.startswith ("/"%char :: "/"%char :: p ++ ":"%char :: n) "#") with false.
    change (Ascii.eqb "/" ":") with false.
    change (Py.startswith ("/"%char :: "/"%char :: p ++ ":"%char :: n) "//") with true.
    cbv iota. rewrite !has_char_cons, has_char_middle, !orb_true_r. simpl negb. cbv iota.
    change (drop 2 ("/"%char :: "/"%char :: p ++ ":"%char :: n)) with (p ++ ":"%char :: n).
    by rewrite (rsplit1_last _ _ _ Hn).
Qed.

End KeyForms.

Lemma unify_dep_outcome_witness :
  let E := example_env "warning" in
  let st := constructing E Target_class "x" [] (example_world "lib") in
  _unify_dep E "//base/../util:str" st = (Ok ("util" : str, "str" : str), st)
  /\ _unify_dep E "./../util:str" st = (Fail (Raise "Exception" "Don't use '..' in path"), st)
  /\ _unify_dep E "//util" st = (Fail (Raise "Exception" "Wrong format in lib:x"), st).
Proof.
  intros E st.
  destruct (unify_dep_outcome E "//base/../util:str" st eq_refl) as (r1 & H1 & _).
  destruct (unify_dep_outcome E "./../util:str" st eq_refl) as (r2 & H2 & _).
  destruct (unify_dep_outcome E "//util" st eq_refl) as (r3 & H3 & _).
  rewrite H1, H2, H3.
  assert (fst (_unify_dep E "//base/../util:str" st) = Ok ("util" : str, "str" : str)) as F1
    by (vm_compute; reflexivity).
  assert (fst (_unify_dep E "./../util:str" st)
          = Fail (Raise "Exception" "Don't use '..' in path")) as F2 by (vm_compute; reflexivity).
  assert (fst (_unify_dep E "//util" st)
          = Fail (Raise "Exception" "Wrong format in lib:x")) as F3 by (vm_compute; reflexivity).
  rewrite H1 in F1. rewrite H2 in F2. rewrite H3 in F3. simpl in F1, F2, F3.
  by subst.
Defined.

Lemma unify_dep_marked_forms_witness :
  let E := example_env "warning" in
  let st := constructing E Target_class "x" [] (example_world "lib/./sub") in
  _unify_dep E ":y" st = (Ok ("lib/sub" : str, "y" : str), st)
  /\ _unify_dep E "//proto/:msg" st = (Ok ("proto" : str, "msg" : str), st).
Proof.
  intros E st. destruct (unify_dep_marked_forms E st) as [H1 H2]. split.
  - apply (H1 "y").
  - apply (H2 "proto/" "msg"). reflexivity.
Defined.

(** ** Visibility *)

Section Visibility.
Context (E : Env).

Lemma init_visibility_loop vis st :
  _init_visibility E (Some vis) st =
    if bool_decide (vis = ["PUBLIC" : str]) then (Ok (), st)
    else for_each vis (_init_visibility_entry E)
           {| self := update (set_visibility (VisibleTo [])) (self st); world := world st |}.
Proof. unfold _init_visibility. by case_bool_decide. Qed.

Lemma update_visibility_twice v v' (t : Target) :
  update (set_visibility v) (update (set_visibility v') t) = update (set_visibility v) t.
Proof. reflexivity. Qed.

Lemma update_visibility_same (t : Target) :
  update (set_visibility (visibility t)) t = t.
Proof. destruct t as [c a b r n]. by destruct a. Qed.

Lemma init_visibility_entry_cases v st :
  _init_visibility_entry E v st =
    if well_formed v then
      match _unify_dep E v st with
      | (Ok k, st1) =>
          match visibility (self st1) with
          | VisibleTo keys =>
              (Ok (), {| self := update (set_visibility (VisibleTo (append_new k keys)))
                                   (self st1);
                         world := world st1 |})
          | PUBLIC => (Fail (Raise "AttributeError" "append"), st1)
          end
      | (Fail e, st1) => (Fail e, st1)
      end
    else (Fail (Fatal (_format_message (self st) "error" (format_complaint v))), st).
Proof.
  unfold _init_visibility_entry. unfold mbind at 1, method_bind at 1. unfold bind at 1.
  rewrite check_format_cases. destruct (well_formed v); [|done].
  unfold bind at 1. destruct (_unify_dep E v st) as [[k|e] st1]; [|done].
  unfold get_self, bind, self_visibility. cbn [self].
  destruct (visibility (self st1)) as [|keys] eqn:Hvis; [done|].
  unfold append_new, when, modify_self. case_bool_decide; simpl; [|done].
  unfold mret, method_ret. f_equal. destruct st1 as [t w]. simpl in *. f_equal.
  by rewrite <- Hvis, update_visibility_same.
Qed.

Lemma init_visibility_entries vis : forall st keys r st',
  visibility (self st) = VisibleTo keys -> NoDup keys ->
  for_each vis (_init_visibility_entry E) st = (r, st') ->
  exists keys',
    self st' = update (set_visibility (VisibleTo keys')) (self st)
    /\ NoDup keys' /\ length keys' <= length keys + length vis
    /\ (r = Ok () -> Forall (fun v => well_formed v = true) vis)
    /\ (("PUBLIC" : str) ∈ vis -> r <> Ok ()).
Proof.
  induction vis as [|v vis IH]; intros st keys r st' Hvis Hnd Hloop.
  - injection Hloop as <- <-. exists keys. rewrite <- Hvis, update_visibility_same.
    split; [done|]. split; [done|]. split; [simpl; lia|]. split; [done|].
    intros H. by apply elem_of_nil in H.
  - rewrite for_each_cons, init_visibility_entry_cases in Hloop.
    destruct (well_formed v) eqn:Hv.
    2: { injection Hloop as <- <-. exists keys. rewrite <- Hvis, update_visibility_same.
         split; [done|]. split; [done|]. split; [simpl; lia|]. done. }
    destruct (_unify_dep E v st) as [[k|e] st1] eqn:Hunify.
    2: { injection Hloop as <- <-. apply unify_dep_self in Hunify. rewrite Hunify.
         exists keys. rewrite <- Hvis, update_visibility_same.
         split; [done|]. split; [done|]. split; [simpl; lia|]. done. }
    apply unify_dep_self in Hunify. rewrite Hunify, Hvis in Hloop.
    apply IH with (keys := append_new k keys) in Hloop; [|done|by apply append_new_NoDup].
    destruct Hloop as (keys' & Hself & Hnd' & Hlen & Hok & Hpub).
    exists keys'. cbn [self] in Hself. rewrite update_visibility_twice in Hself.
    split; [done|]. split; [done|]. split.
    + assert (length (append_new k keys) <= S (length keys)).
      { unfold append_new. case_bool_decide; [lia|]. rewrite length_app. simpl. lia. }
      simpl. lia.
    + split; [intros Hr; constructor; auto|].
      intros Hin. apply elem_of_cons in Hin as [<-|Hin]; [done|auto].
Qed.

(** [_init_visibility] keeps the visibility ['PUBLIC'] for [None] and
    for the list [['PUBLIC']]. For any other list it changes the
    visibility only, to a list of keys without repeats and no longer
    than the list given; it returns only if every entry is well formed,
    so never when ['PUBLIC'] is one of several entries. *)
Theorem init_visibility_outcome :
  (forall st, _init_visibility E None st = (Ok (), st)
              /\ _init_visibility E (Some ["PUBLIC" : str]) st = (Ok (), st))
  /\ (forall vis st r st',
        vis <> ["PUBLIC" : str] ->
        _init_visibility E (Some vis) st = (r, st') ->
        exists keys,
          self st' = update (set_visibility (VisibleTo keys)) (self st)
          /\ NoDup keys /\ length keys <= length vis
          /\ (r = Ok () -> Forall (fun v => well_formed v = true) vis)
          /\ (("PUBLIC" : str) ∈ vis -> r <> Ok ())).
Proof.
  split; [done|].
  intros vis st r st' Hvis. rewrite init_visibility_loop, bool_decide_eq_false_2 by done.
  intros Hloop.
  apply init_visibility_entries with (keys := []) in Hloop; [|done|constructor].
  destruct Hloop as (keys & Hself & H). exists keys. split; [|exact H].
  by rewrite Hself.
Qed.

End Visibility.

Lemma init_visibility_outcome_witness :
  let E := example_env "warning" in
  let st := constructing E Target_class "x" [] (example_world "lib") in
  visibility (self (snd (_init_visibility E (Some ["//app:main" : str; ":y" : str;
                                                    "//app/:main" : str]) st)))
  = VisibleTo [("app" : str, "main" : str); ("lib" : str, "y" : str)]
  /\ fst (_init_visibility E (Some ["PUBLIC" : str; "//app:main" : str]) st)
     = Fail (Fatal "lib/BUILD:1 error: x: Invalid format PUBLIC.").
Proof.
  intros E st. split.
  - destruct (proj2 (init_visibility_outcome E)
                ["//app:main" : str; ":y" : str; "//app/:main" : str] st
                (fst (_init_visibility E (Some ["//app:main" : str; ":y" : str;
                                                "//app/:main" : str]) st))
                (snd (_init_visibility E (Some ["//app:main" : str; ":y" : str;
                                                "//app/:main" : str]) st)))
      as (keys & Hself & _); [discriminate|by apply outcome_of_fst|].
    rewrite Hself. revert Hself. vm_compute. by intros [= <-].
  - vm_compute. reflexivity.
Defined.

(** ** Hard-coded libraries *)

Section Hardcode.
Context (E : Env).

Lemma convert_cases s st :
  _convert_string_to_target_helper s st = (converted (self st) s, st).
Proof.
  unfold _convert_string_to_target_helper, converted. method_unfold.
  destruct (negb _); [|done]. destruct (Py.startswith s "#"); [done|].
  destruct (Py.has_char ":" s); [|done]. unfold unpack2.
  by destruct (Py.split ":" s) as [|a [|b [|c l]]].
Qed.

Lemma split_length sep (s : str) : length (Py.split sep s) = S (Py.count sep s).
Proof.
  unfold Py.count. induction s as [|c s IH]; [done|]. simpl.
  destruct (Ascii.eqb c sep) eqn:Hc.
  - apply Ascii.eqb_eq in Hc. subst c. rewrite filter_cons_True by done. simpl. by rewrite IH.
  - rewrite filter_cons_False by (intros ->; by rewrite Ascii.eqb_refl in Hc).
    destruct (Py.split sep s); simpl in *; [done|lia].
Qed.

Lemma count_has_char c (s : str) : Py.has_char c s = true <-> 0 < Py.count c s.
Proof.
  unfold Py.count. induction s as [|d s IH]; simpl; [split; [done|lia]|].
  destruct (Ascii.eqb c d) eqn:Hc; simpl.
  - apply Ascii.eqb_eq in Hc. subst d. rewrite filter_cons_True by done. simpl.
    split; [lia|done].
  - rewrite filter_cons_False by (intros ->; by rewrite Ascii.eqb_refl in Hc). exact IH.
Qed.

(** The converter of hard-coded library names never changes the state.
    [#name] gives the key [('#', name)]; [path:name] gives the stripped
    path, without a leading [//], and the stripped name; a string
    without a colon, the empty string among them, is fatal; and a string
    with two colons or more raises, as the unpacking of the split does. *)
Theorem convert_string_outcome st :
  (forall s, exists r, _convert_string_to_target_helper s st = (r, st))
  /\ (forall n, _convert_string_to_target_helper ("#" ++ n) st = (Ok ("#" : str, n), st))
  /\ (forall p n,
        Py.startswith (p ++ ":" ++ n) "#" = false ->
        Py.has_char ":" p = false -> Py.has_char ":" n = false ->
        _convert_string_to_target_helper (p ++ ":" ++ n) st
        = (Ok (if Py.startswith (Py.strip p) "//" then drop 2 (Py.strip p) else Py.strip p,
               Py.strip n), st))
  /\ (forall s, Py.startswith s "#" = false -> Py.has_char ":" s = false ->
        exists msg, _convert_string_to_target_helper s st
                    = (Fail (Fatal (_format_message (self st) "error" msg)), st))
  /\ (forall s, Py.startswith s "#" = false -> 2 <= Py.count ":" s ->
        _convert_string_to_target_helper s st
        = (Fail (Raise "ValueError" "too many values to unpack (expected 2)"), st)).
Proof.
  split; [intros s; rewrite convert_cases; eauto|].
  split; [intros n; by rewrite convert_cases|].
  split; [|split].
  - intros p n Hsys Hp Hn. rewrite convert_cases. unfold converted.
    rewrite bool_decide_eq_false_2 by (by destruct p). simpl negb. cbv iota.
    rewrite Hsys.
    change (p ++ ":" ++ n) with (p ++ ":"%char :: n).
    by rewrite has_char_middle, (split_app _ _ _ Hp), (split_absent _ _ Hn).
  - intros s Hsys Hcolon. rewrite convert_cases. unfold converted.
    rewrite Hsys, Hcolon. destruct (negb _); eauto.
  - intros s Hsys Hcount. rewrite convert_cases. unfold converted.
    rewrite bool_decide_eq_false_2 by (intros ->; vm_compute in Hcount; lia).
    simpl negb. cbv iota. rewrite Hsys.
    assert (Py.has_char ":" s = true) as -> by (apply count_has_char; lia).
    pose proof (split_length ":" s) as Hlen.
    destruct (Py.split ":" s) as [|a [|b [|c l]]]; cbn [length] in Hlen; try lia.
    reflexivity.
Qed.

End Hardcode.

Lemma convert_string_outcome_witness :
  let E := example_env "warning" in
  let st := constructing E Target_class "x" [] (example_world "lib") in
  _convert_string_to_target_helper " //thirdparty/gtest : gtest " st
  = (Ok ("thirdparty/gtest" : str, "gtest" : str), st)
  /\ (exists msg, _convert_string_to_target_helper "gtest" st
                  = (Fail (Fatal (_format_message (self st) "error" msg)), st))
  /\ _convert_string_to_target_helper "//a:b:c" st
     = (Fail (Raise "ValueError" "too many values to unpack (expected 2)"), st).
Proof.
  intros E st. destruct (convert_string_outcome st) as (_ & _ & Hpair & Hnone & Hmany).
  split; [|split].
  - apply (Hpair " //thirdparty/gtest " " gtest "); reflexivity.
  - apply Hnone; reflexivity.
  - apply Hmany; [reflexivity|]. vm_compute. lia.
Defined.

Section HardcodeEffect.
Context (E : Env).

Lemma add_system_library_frame k lib_name st r st' :
  _add_system_library E k lib_name st = (r, st') ->
  self st' = self st
  /\ src_target_map (world st') = src_target_map (world st)
  /\ console_log (world st') = console_log (world st)
  /\ blade_current_source_path (world st') = blade_current_source_path (world st).
Proof.
  rewrite add_system_library_cases, system_library_init_cases.
  destruct (target_database (world st) !! k); [by intros [= <- <-]|].
  destruct (Py.has_char "/" _); intros [= <- <-]; [by destruct st|done].
Qed.

Lemma converted_ok (t t' : Target) d k : converted t d = Ok k -> converted t' d = Ok k.
Proof.
  unfold converted. destruct (negb _); [|done].
  destruct (Py.startswith d "#"); [done|]. by destruct (Py.has_char ":" d).
Qed.

Lemma append_new_app k (l : list target_key) :
  exists added, append_new k l = l ++ added /\ (NoDup l -> NoDup (l ++ added))
                /\ k ∈ l ++ added.
Proof.
  unfold append_new. case_bool_decide as Hk.
  - exists []. rewrite app_nil_r. auto.
  - exists [k]. split; [done|]. split.
    + intros Hnd. apply NoDup_app. split; [done|]. split; [|apply NoDup_singleton].
      intros x Hx Hx'. apply list_elem_of_singleton in Hx'. by subst.
    + apply elem_of_app. right. by apply list_elem_of_singleton.
Qed.

Lemma update_expanded_deps_twice x y (t : Target) :
  update (set_expanded_deps x) (update (set_expanded_deps y) t)
  = update (set_expanded_deps x) t.
Proof. reflexivity. Qed.

Lemma update_expanded_deps_same (t : Target) :
  update (set_expanded_deps (expanded_deps t)) t = t.
Proof. destruct t as [c a b r n]. by destruct a. Qed.

(** [_add_hardcode_library] adds keys at the end of [expanded_deps] and
    changes nothing else of [self]: [deps] stays as it is. It keeps
    [expanded_deps] free of repeats, leaves the registry and the console
    alone, and when it returns the key of every name of the list is in
    [expanded_deps]. *)
Theorem add_hardcode_library_effect l : forall st r st',
  _add_hardcode_library E l st = (r, st') ->
  exists added,
    self st' = update (set_expanded_deps (expanded_deps (self st) ++ added)) (self st)
    /\ (NoDup (expanded_deps (self st)) -> NoDup (expanded_deps (self st) ++ added))
    /\ src_target_map (world st') = src_target_map (world st)
    /\ console_log (world st') = console_log (world st)
    /\ (r = Ok () -> forall d, d ∈ l ->
          exists k, converted (self st) d = Ok k
                    /\ k ∈ expanded_deps (self st) ++ added).
Proof.
  unfold _add_hardcode_library.
  induction l as [|d l IH]; intros st r st' Hrun.
  - injection Hrun as <- <-. exists []. rewrite app_nil_r, update_expanded_deps_same.
    repeat (split; [done|]). intros _ d Hd. by apply elem_of_nil in Hd.
  - rewrite for_each_cons in Hrun. unfold bind at 1 in Hrun.
    rewrite convert_cases in Hrun.
    destruct (converted (self st) d) as [k|e] eqn:Hk.
    2: { injection Hrun as <- <-. exists []. rewrite app_nil_r, update_expanded_deps_same.
         by repeat (split; [done|]). }
    unfold mbind at 1, method_bind at 1 in Hrun. unfold bind at 1 in Hrun.
    destruct (when _ _ st) as [r1 st1] eqn:Hwhen.
    assert (self st1 = self st
            /\ src_target_map (world st1) = src_target_map (world st)
            /\ console_log (world st1) = console_log (world st)) as (Hself1 & Hreg1 & Hlog1).
    { unfold when in Hwhen. destruct (bool_decide _).
      - apply add_system_library_frame in Hwhen. tauto.
      - by injection Hwhen as <- <-. }
    destruct r1 as [[]|e].
    2: { injection Hrun as <- <-. exists []. rewrite app_nil_r, Hself1,
           update_expanded_deps_same. by repeat (split; [done|]). }
    rewrite add_expanded_dep_effect in Hrun.
    apply IH in Hrun as (added' & Hself & Hnd & Hreg & Hlog & Hin).
    cbn [self world] in *. rewrite Hself1 in *.
    destruct (append_new_app k (expanded_deps (self st))) as (added0 & Happ & Hnd0 & Hk0).
    cbn [update attrs expanded_deps set_expanded_deps] in Hnd, Hin, Hself.
    rewrite Happ in *. exists (added0 ++ added'). rewrite app_assoc.
    split; [done|]. split; [auto|]. split; [congruence|]. split; [congruence|].
    intros Hr d' Hd'. apply elem_of_cons in Hd' as [->|Hd'].
    + exists k. split; [done|]. apply elem_of_app. by left.
    + destruct (Hin Hr d' Hd') as (k' & Hk' & Hin'). exists k'. split; [|done].
      by apply (converted_ok _ _ _ _ Hk').
Qed.

End HardcodeEffect.

Lemma add_hardcode_library_effect_witness :
  let E := example_env "warning" in
  let st := constructing E Target_class "x" [] (example_world "lib") in
  let st' := snd (_add_hardcode_library E ["#pthread" : str; "//thirdparty/glog:glog" : str;
                                            "#pthread" : str] st) in
  deps (self st') = []
  /\ expanded_deps (self st')
     = [("#" : str, "pthread" : str); ("thirdparty/glog" : str, "glog" : str)]
  /\ src_target_map (world st') = src_target_map (world st).
Proof.
  intros E st st'.
  destruct (add_hardcode_library_effect E
              ["#pthread" : str; "//thirdparty/glog:glog" : str; "#pthread" : str] st
              (fst (_add_hardcode_library E ["#pthread" : str; "//thirdparty/glog:glog" : str;
                                             "#pthread" : str] st)) st')
    as (added & Hself & _ & Hreg & _); [by apply outcome_of_fst|].
  split; [by rewrite Hself|]. split; [vm_compute; reflexivity|done].
Defined.

(** ** Construction *)

Section Construction.
Context (E : Env).

Lemma claim_loop_valid action l : forall st st',
  for_each l (_check_srcs_claim action) st = (Ok (), st') -> Forall valid_src l.
Proof.
  induction l as [|s l IH]; intros st st' Hloop; [constructor|].
  rewrite for_each_cons, claim_step_cases in Hloop. cbv zeta in Hloop.
  destruct (Py.contains s ".." || Py.startswith s "/") eqn:Hs; [done|].
  constructor; [exact Hs|].
  destruct (match src_target_map (world st) !! _ with Some _ => _ | None => _ end)
    as [[[]|e] st1]; [by eapply IH|done].
Qed.

Lemma check_srcs_ok st st' :
  _check_srcs E st = (Ok (), st') ->
  NoDup (srcs (self st)) /\ Forall valid_src (srcs (self st)).
Proof.
  unfold _check_srcs. method_unfold.
  destruct (bool_decide (duplicate_srcs (srcs (self st)) = [])) eqn:Hdups; [|done].
  simpl. intros Hloop. split; [|by eapply claim_loop_valid].
  apply bool_decide_eq_true in Hdups. apply NoDup_no_repeat. intros x l1 l2 Heq Hx.
  assert (x ∈ duplicate_srcs (srcs (self st))) as H by (apply duplicate_srcs_elem; eauto).
  rewrite Hdups in H. by apply elem_of_nil in H.
Qed.

Lemma check_deps_ok ds st st' :
  _check_deps ds st = (Ok (), st') -> Forall (fun t => well_formed t = true) ds.
Proof.
  unfold _check_deps. revert st. induction ds as [|d ds IH]; intros st Hloop; [constructor|].
  rewrite for_each_cons, check_format_cases in Hloop.
  destruct (well_formed d) eqn:Hd; [|done]. constructor; [done|by eapply IH].
Qed.

(** What the checks of [Target.__init__] have found when they return *)
Lemma init_checks_ok ds kwargs st st1 :
  init_checks E ds kwargs st = (Ok (), st1) ->
  self st1 = self st
  /\ Py.has_char "/" (name (self st)) = false
  /\ kwargs = []
  /\ NoDup (srcs (self st))
  /\ Forall valid_src (srcs (self st))
  /\ Forall (fun t => well_formed t = true) ds.
Proof.
  intros Hchecks.
  assert (self st1 = self st) as Hself.
  { pose proof (triple_init_checks E (fun t => t = self st) ds kwargs st eq_refl) as H.
    by rewrite Hchecks in H. }
  split; [done|]. revert Hchecks. unfold init_checks.
  unfold mbind at 1, method_bind at 1. unfold bind at 1.
  destruct (_check_name st) as [[[]|e] sa] eqn:Hname; [|done].
  assert (sa = st /\ Py.has_char "/" (name (self st)) = false) as [-> Hslash].
  { revert Hname. unfold _check_name. method_unfold.
    destruct (Py.has_char "/" (name (self st))); [done|]. by intros [= <-]. }
  unfold mbind at 1, method_bind at 1. unfold bind at 1.
  destruct (_check_kwargs kwargs st) as [[[]|e] sb] eqn:Hkw; [|done].
  assert (sb = st /\ kwargs = []) as [-> Hkwargs].
  { revert Hkw. unfold _check_kwargs. method_unfold. case_bool_decide; [|done].
    by intros [= <-]. }
  unfold mbind at 1, method_bind at 1. unfold bind at 1.
  destruct (_check_srcs E st) as [[[]|e] sc] eqn:Hsrcs; [|done].
  apply check_srcs_ok in Hsrcs as [Hnd Hvalid].
  intros Hdeps. apply check_deps_ok in Hdeps. auto 10.
Qed.

Lemma unify_dep_resolved dep st k st' :
  _unify_dep E dep st = (Ok k, st') -> resolved (self st) dep = Ok k.
Proof.
  rewrite unify_dep_cases. unfold resolved. destruct (Py.startswith dep "#").
  - destruct (_add_system_library _ _ _ _) as [[[]|e] st1]; [|done]. by intros [= <- _].
  - by intros [= <- _].
Qed.

(** The loop of [_init_target_deps]: the keys it has recorded in both
    lists, those of the references up to the first that does not
    resolve. *)
Lemma init_target_deps_effect ds : forall st r st',
  _init_target_deps E ds st = (r, st') ->
  exists keys,
    self st' = fold_left (fun t k => record_dep k t) keys (self st)
    /\ (r = Ok () -> Forall2 (fun d k => resolved (self st) d = Ok k) ds keys).
Proof.
  unfold _init_target_deps.
  induction ds as [|d ds IH]; intros st r st' Hrun.
  - injection Hrun as <- <-. exists []. split; [done|]. constructor.
  - rewrite for_each_cons in Hrun. unfold bind at 1 in Hrun.
    destruct (_unify_dep E d st) as [[k|e] st1] eqn:Hunify.
    + pose proof (unify_dep_self _ _ _ _ _ Hunify) as Hself1.
      apply unify_dep_resolved in Hunify.
      unfold mbind, method_bind, bind in Hrun.
      rewrite add_expanded_dep_effect, add_dep_effect in Hrun.
      apply IH in Hrun as (keys & Hself & Hok). cbn [self] in *.
      exists (k :: keys). rewrite Hself1 in *. split; [done|].
      intros Hr. constructor; [done|]. specialize (Hok Hr).
      eapply Forall2_impl; [exact Hok|]. by intros d' k' H.
    + injection Hrun as <- <-. apply unify_dep_self in Hunify.
      exists []. by split.
Qed.

Lemma record_keys_fold keys : forall (t : Target),
  fold_left (fun t k => record_dep k t) keys t
  = update (fun a => set_deps (record_keys keys (deps a))
                       (set_expanded_deps (record_keys keys (expanded_deps a)) a)) t.
Proof.
  induction keys as [|k keys IH]; intros t; simpl.
  - destruct t as [c a b r n]. by destruct a.
  - by rewrite IH.
Qed.

Lemma record_keys_NoDup keys : forall acc, NoDup acc -> NoDup (record_keys keys acc).
Proof.
  induction keys as [|k keys IH]; intros acc Hacc; [done|].
  apply IH. by apply append_new_NoDup.
Qed.


Lemma init_visibility_self vis st r st' :
  _init_visibility E vis st = (r, st') ->
  exists v, self st' = update (set_visibility v) (self st)
    /\ (vis = None \/ vis = Some ["PUBLIC" : str] -> v = visibility (self st))
    /\ (forall l, vis = Some l -> l <> ["PUBLIC" : str] ->
          exists keys, v = VisibleTo keys /\ NoDup keys
            /\ (r = Ok () -> Forall (fun x => well_formed x = true) l)).
Proof.
  destruct vis as [l|].
  - rewrite init_visibility_loop. case_bool_decide as Hl.
    + intros [= <- <-]. exists (visibility (self st)).
      rewrite update_visibility_same. split; [done|]. split; [done|].
      intros l' [= <-]. done.
    + intros Hloop.
      apply (init_visibility_entries E) with (keys := []) in Hloop; [|done|constructor].
      destruct Hloop as (keys & Hself & Hnd & _ & Hok & _). exists (VisibleTo keys).
      split; [by rewrite Hself|]. split; [by intros [?|[= ->]]|].
      intros l' [= <-] _. eauto.
  - intros [= <- <-]. exists (visibility (self st)).
    rewrite update_visibility_same. split; [done|]. split; [done|]. done.
Qed.

(** Everything a returning [Target.__init__] tells *)
Lemma Target_init_ok c nm ty ss ds vis kwargs w (t : Target) w' :
  Target__init__ E c nm ty ss ds vis kwargs w = (Ok t, w') ->
  (Py.has_char "/" nm = false /\ kwargs = [] /\ NoDup ss /\ Forall valid_src ss
   /\ Forall (fun d => well_formed d = true) ds)
  /\ exists keys v,
       Forall2 (fun d k => resolved (new_object c (initial_attributes E w nm ty ss)) d = Ok k)
         ds keys
       /\ t = constructed_object E c (blade_current_source_path w) nm ty ss keys v
       /\ (vis = None \/ vis = Some ["PUBLIC" : str] -> v = PUBLIC)
       /\ (forall l, vis = Some l -> l <> ["PUBLIC" : str] ->
             exists vkeys, v = VisibleTo vkeys /\ NoDup vkeys
               /\ Forall (fun x => well_formed x = true) l).
Proof.
  unfold Target__init__, run_init.
  set (st0 := {| self := new_object c (initial_attributes E w nm ty ss); world := w |}).
  match goal with
  | |- context [match ?b st0 with _ => _ end] =>
      destruct (b st0) as [[[]|e] st] eqn:Hbody; intros [= <- <-]
  end.
  unfold mbind, method_bind in Hbody.
  apply bind_inv in Hbody as [([] & st1 & Hchecks & Hbody)|(? & ? & ?)]; [|done].
  apply bind_inv in Hbody as [([] & st2 & Hdeps & Hbody)|(? & ? & ?)]; [|done].
  apply bind_inv in Hbody as [([] & st3 & Hvis & Hbody)|(? & ? & ?)]; [|done].
  apply init_checks_ok in Hchecks as (Hself1 & Hname & Hkw & Hnd & Hvalid & Hwf).
  split; [done|].
  apply init_target_deps_effect in Hdeps as (keys & Hself2 & Hkeys).
  specialize (Hkeys eq_refl). rewrite Hself1 in Hkeys, Hself2.
  apply init_visibility_self in Hvis as (v & Hself3 & Hpub & Hlist).
  exists keys, v. split; [done|]. split.
  - injection Hbody as <-. cbn [self]. rewrite Hself3, Hself2, record_keys_fold.
    reflexivity.
  - rewrite Hself2, record_keys_fold in Hpub. split; [exact Hpub|].
    intros l Hl Hne. destruct (Hlist l Hl Hne) as (vkeys & -> & Hvnd & Hvwf). eauto.
Qed.

(** A target is constructed only if its name has no slash, no option is
    left unrecognized, its sources are distinct relative paths without
    [..], and its dependencies and visibility entries are well formed. *)
Theorem construction_checks c nm ty ss ds vis kwargs w (t : Target) w' :
  Target__init__ E c nm ty ss ds vis kwargs w = (Ok t, w') ->
  Py.has_char "/" nm = false
  /\ kwargs = []
  /\ NoDup ss
  /\ Forall valid_src ss
  /\ Forall (fun d => well_formed d = true) ds
  /\ (forall l, vis = Some l -> l <> ["PUBLIC" : str] ->
        Forall (fun x => well_formed x = true) l).
Proof.
  intros H. apply Target_init_ok in H as ((H1 & H2 & H3 & H4 & H5) & keys & v & _ & _ & _ & H6).
  repeat (split; [done|]). intros l Hl Hne. by destruct (H6 l Hl Hne) as (? & _ & _ & ?).
Qed.

(** A constructed target: its attributes are those given, its key and
    full name are made of the current source path and the name, [deps]
    and [expanded_deps] are the same list, the keys of the declared
    dependencies in their order with repeats left out, the visibility
    is ['PUBLIC'] or a list of keys without repeats, no output file is
    recorded and neither rules nor digest are cached. *)
Theorem constructed_target c nm ty ss ds vis kwargs w (t : Target) w' :
  Target__init__ E c nm ty ss ds vis kwargs w = (Ok t, w') ->
  exists keys v,
    Forall2 (fun d k => resolved (new_object c (initial_attributes E w nm ty ss)) d = Ok k)
      ds keys
    /\ t = constructed_object E c (blade_current_source_path w) nm ty ss keys v
    /\ deps t = expanded_deps t
    /\ NoDup (deps t)
    /\ (forall k, k ∈ deps t <-> k ∈ keys)
    /\ (v = PUBLIC \/ exists vkeys, v = VisibleTo vkeys /\ NoDup vkeys).
Proof.
  intros H. apply Target_init_ok in H as (_ & keys & v & Hkeys & -> & Hpub & Hlist).
  exists keys, v. split; [done|]. split; [done|]. split; [done|]. split; [|split].
  - apply record_keys_NoDup. constructor.
  - cbn [deps attrs constructed_object]. intros k.
    assert (forall acc, k ∈ record_keys keys acc <-> k ∈ acc \/ k ∈ keys) as Helem.
    { clear. induction keys as [|k0 keys IH]; intros acc; simpl.
      - split; [auto|]. intros [?|H]; [done|]. by apply elem_of_nil in H.
      - unfold record_keys in IH. rewrite IH, append_new_elem, elem_of_cons. tauto. }
    rewrite Helem. split; [|auto]. intros [H|H]; [by apply elem_of_nil in H|done].
  - destruct vis as [l|]; [|left; auto].
    destruct (decide (l = ["PUBLIC" : str])) as [->|Hne]; [left; auto|].
    right. destruct (Hlist l eq_refl Hne) as (vkeys & ? & ? & _). eauto.
Qed.

End Construction.

Lemma construction_checks_witness :
  let E := example_env "warning" in
  exists t w',
    Target__init__ E Target_class "server" "cc_binary" ["main.cc" : str; "rpc.cc" : str]
      ["//base:log" : str; ":rpc" : str] (Some ["//app:all" : str]) [] (example_world "app")
    = (Ok t, w')
    /\ Forall (fun d => well_formed d = true) ["//base:log" : str; ":rpc" : str].
Proof.
  intros E.
  set (r := Target__init__ E Target_class "server" "cc_binary" ["main.cc" : str; "rpc.cc" : str]
              ["//base:log" : str; ":rpc" : str] (Some ["//app:all" : str]) []
              (example_world "app")).
  assert (is_Some (match fst r with Ok t => Some t | Fail _ => None end)) as [t Ht]
    by (vm_compute; eauto).
  exists t, (snd r). assert (r = (Ok t, snd r)) as Hr.
  { apply outcome_of_fst. destruct (fst r); [by injection Ht as ->|done]. }
  split; [exact Hr|].
  by destruct (construction_checks E _ _ _ _ _ _ _ _ _ _ Hr) as (_ & _ & _ & _ & H & _).
Defined.

Lemma constructed_target_witness :
  let E := example_env "warning" in
  exists t w' keys v,
    Target__init__ E Target_class "server" "cc_binary" ["main.cc" : str]
      ["//base:log" : str; ":rpc" : str; "//base/:log" : str] None [] (example_world "app")
    = (Ok t, w')
    /\ t = constructed_object E Target_class "app" "server" "cc_binary" ["main.cc" : str] keys v
    /\ deps t = [("base" : str, "log" : str); ("app" : str, "rpc" : str)]
    /\ expanded_deps t = deps t.
Proof.
  intros E.
  set (r := Target__init__ E Target_class "server" "cc_binary" ["main.cc" : str]
              ["//base:log" : str; ":rpc" : str; "//base/:log" : str] None []
              (example_world "app")).
  assert (exists t, fst r = Ok t
                    /\ deps t = [("base" : str, "log" : str); ("app" : str, "rpc" : str)])
    as (t & Ht & Hd) by (vm_compute; eauto).
  assert (r = (Ok t, snd r)) as Hr by (by apply outcome_of_fst).
  destruct (constructed_target E _ _ _ _ _ _ _ _ _ _ Hr) as (keys & v & _ & Hshape & Hsame & _).
  exists t, (snd r), keys, v. auto.
Defined.

(** ** A relative dependency among the declared dependencies *)

Section RelativeAmongDeps.
Context (E : Env) (dir lib : str).
Hypothesis dir_relative : Py.startswith dir "./" = true.
Hypothesis dir_no_colon : Py.has_char ":" dir = false.
Hypothesis lib_no_colon : Py.has_char ":" lib = false.
Hypothesis dir_no_dots : Py.contains dir ".." = false.

Lemma relative_check_deps pre post st :
  _check_deps (pre ++ (dir ++ ":" ++ lib) :: post) st = _check_deps (pre ++ post) st.
Proof.
  unfold _check_deps. rewrite !for_each_app.
  destruct (for_each pre _check_format st) as [[[]|e] st']; [|done].
  by rewrite for_each_cons, relative_check_format.
Qed.

Lemma relative_init_checks_among pre post kwargs st :
  init_checks E (pre ++ (dir ++ ":" ++ lib) :: post) kwargs st
  = init_checks E (pre ++ post) kwargs st.
Proof.
  unfold init_checks. unfold mbind, method_bind, bind.
  destruct (_check_name st) as [[[]|e] sa]; [|done].
  destruct (_check_kwargs kwargs sa) as [[[]|e] sb]; [|done].
  destruct (_check_srcs E sb) as [[[]|e] sc]; [|done].
  apply relative_check_deps.
Qed.

Lemma record_keys_elem keys k : forall acc,
  k ∈ record_keys keys acc <-> k ∈ acc \/ k ∈ keys.
Proof.
  induction keys as [|k0 keys IH]; intros acc; simpl.
  - split; [auto|]. intros [?|H]; [done|]. by apply elem_of_nil in H.
  - unfold record_keys in IH. rewrite IH, append_new_elem, elem_of_cons. tauto.
Qed.

Lemma record_dep_path k (t : Target) : path (record_dep k t) = path t.
Proof. reflexivity. Qed.

(** The loop of [_init_target_deps] only adds to the two lists and
    leaves the path of [self] alone. *)
Lemma init_target_deps_grows ds st r st' :
  _init_target_deps E ds st = (r, st') ->
  path (self st') = path (self st)
  /\ (forall k, k ∈ deps (self st) -> k ∈ deps (self st'))
  /\ (forall k, k ∈ expanded_deps (self st) -> k ∈ expanded_deps (self st')).
Proof.
  intros Hrun. apply (init_target_deps_effect E) in Hrun as (keys & -> & _).
  rewrite record_keys_fold. cbn [path deps expanded_deps attrs update set_deps
    set_expanded_deps].
  split; [done|]. split; intros k Hk; apply record_keys_elem; by left.
Qed.

Lemma relative_init_target_deps_among pre post st st2 :
  _init_target_deps E pre st = (Ok (), st2) ->
  _init_target_deps E (pre ++ (dir ++ ":" ++ lib) :: post) st
  = _init_target_deps E post
      {| self := record_dep (PosixPath.normpath (path (self st) ++ "/" ++ dir), lib)
                   (self st2);
         world := world st2 |}.
Proof.
  intros Hpre. destruct (init_target_deps_grows _ _ _ _ Hpre) as (Hpath & _ & _).
  revert Hpre. unfold _init_target_deps. rewrite for_each_app. intros ->.
  change ((dir ++ ":" ++ lib) :: post) with ([dir ++ ":" ++ lib] ++ post).
  rewrite for_each_app.
  pose proof (relative_init_target_deps E dir lib dir_relative lib_no_colon
                dir_no_dots st2) as Hone.
  unfold _init_target_deps in Hone. rewrite Hone, Hpath. reflexivity.
Qed.

(** C4, as the code has it: a relative dependency must begin with [./];
    for [./dir:lib] with one colon and no [..] in the path the key is
    [(normpath(currentDir + '/' + './dir'), lib)]. Wherever the
    reference stands among the declared dependencies of a target that
    is constructed, the key is in [deps] and in [expanded_deps]; and the
    target is constructed whenever its name, options and sources pass
    their checks, its other dependencies are well formed and resolve,
    those before the reference from the state the checks leave and those
    after it once its key is recorded, and its visibility resolves. *)
Theorem relative_dep_resolution :
  (forall st,
     _check_format (dir ++ ":" ++ lib) st = (Ok (), st)
     /\ _unify_dep E (dir ++ ":" ++ lib) st
        = (Ok (PosixPath.normpath (path (self st) ++ "/" ++ dir), lib), st))
  /\ (forall c name type srcs ds visibility kwargs w (t : Target) w',
        let dkey := (PosixPath.normpath (blade_current_source_path w ++ "/" ++ dir), lib) in
        (dir ++ ":" ++ lib) ∈ ds ->
        Target__init__ E c name type srcs ds visibility kwargs w = (Ok t, w') ->
        dkey ∈ deps t /\ dkey ∈ expanded_deps t)
  /\ (forall c name type srcs pre post visibility kwargs w st1 st2 st3 st4,
        let dkey := (PosixPath.normpath (blade_current_source_path w ++ "/" ++ dir), lib) in
        init_checks E (pre ++ post) kwargs
          {| self := new_object c (initial_attributes E w name type srcs);
             world := w |} = (Ok (), st1) ->
        _init_target_deps E pre st1 = (Ok (), st2) ->
        _init_target_deps E post
          {| self := record_dep dkey (self st2); world := world st2 |} = (Ok (), st3) ->
        _init_visibility E visibility st3 = (Ok (), st4) ->
        exists t : Target,
          Target__init__ E c name type srcs (pre ++ (dir ++ ":" ++ lib) :: post)
            visibility kwargs w
          = (Ok t, world st4)
          /\ deps t = deps (self st3) /\ expanded_deps t = expanded_deps (self st3)
          /\ dkey ∈ deps t /\ dkey ∈ expanded_deps t).
Proof.
  split; [|split].
  - intros st. split; [by apply relative_check_format|by apply relative_unify_dep].
  - intros c name type srcs ds visibility kwargs w t w' dkey Hin Hinit.
    apply (Target_init_ok E) in Hinit as (_ & keys & v & Hkeys & -> & _).
    set (self0 := new_object c (initial_attributes E w name type srcs)) in Hkeys.
    assert (resolved self0 (dir ++ ":" ++ lib) = Ok dkey) as Hd.
    { apply (unify_dep_resolved E _ {| self := self0; world := w |} _
               {| self := self0; world := w |}).
      by rewrite (relative_unify_dep E dir lib). }
    assert (dkey ∈ keys) as Hkey.
    { clear -Hkeys Hin Hd. induction Hkeys as [|d k ds keys Hdk _ IH].
      - by apply elem_of_nil in Hin.
      - apply elem_of_cons in Hin as [<-|Hin].
        + rewrite Hd in Hdk. injection Hdk as <-. apply elem_of_cons. by left.
        + apply elem_of_cons. right. by apply IH. }
    cbn [deps expanded_deps attrs constructed_object].
    split; apply record_keys_elem; by right.
  - intros c name type srcs pre post visibility kwargs w st1 st2 st3 st4 dkey
      Hchecks Hpre Hpost Hvis.
    set (st0 := {| self := _; world := w |}) in Hchecks.
    assert (self st1 = self st0) as Hself1.
    { pose proof (triple_init_checks E (fun t => t = self st0) (pre ++ post) kwargs st0
                    eq_refl) as H.
      by rewrite Hchecks in H. }
    assert (path (self st1) = blade_current_source_path w) as Hpath1 by (by rewrite Hself1).
    assert (dkey ∈ deps (self st3) /\ dkey ∈ expanded_deps (self st3)) as [Hd He].
    { destruct (init_target_deps_grows _ _ _ _ Hpost) as (_ & Hdeps & Hexp).
      split; [apply Hdeps|apply Hexp]; cbn [self record_dep update deps expanded_deps attrs
        set_deps set_expanded_deps]; apply append_new_elem; by right. }
    assert (deps (self st4) = deps (self st3)
            /\ expanded_deps (self st4) = expanded_deps (self st3)) as [Hd4 He4].
    { pose proof (triple_init_visibility E
                    (fun t => deps t = deps (self st3)
                              /\ expanded_deps t = expanded_deps (self st3)) visibility
                    (fun v t H => H) st3 (conj eq_refl eq_refl)) as H.
      by rewrite Hvis in H. }
    eexists. split; [|split; [|split; [|split]]].
    + unfold Target__init__, run_init. fold st0. unfold mbind, method_bind.
      rewrite (bind_ok _ _ st0 () st1) by (by rewrite relative_init_checks_among).
      erewrite bind_ok;
        [|rewrite (relative_init_target_deps_among pre post st1 st2 Hpre), Hpath1;
          exact Hpost].
      erewrite bind_ok; [|exact Hvis]. reflexivity.
    + simpl. exact Hd4.
    + simpl. exact He4.
    + simpl. by rewrite Hd4.
    + simpl. by rewrite He4.
Qed.

End RelativeAmongDeps.

(** The target [app:server] declares the dependency [./sub:lib] between
    two others. *)
Lemma relative_dep_resolution_witness :
  let E := example_env "warning" in
  exists t w',
    Target__init__ E Target_class "server" "cc_binary" ["main.cc" : str]
      [":util" : str; "./sub:lib" : str; "//base:log" : str] None [] (example_world "app")
    = (Ok t, w')
    /\ deps t = [("app" : str, "util" : str); ("app/sub" : str, "lib" : str);
                 ("base" : str, "log" : str)]
    /\ ("app/sub" : str, "lib" : str) ∈ expanded_deps t.
Proof.
  intros E.
  set (st0 := {| self := new_object Target_class
                   (initial_attributes E (example_world "app") "server" "cc_binary"
                      ["main.cc" : str]);
                 world := example_world "app" |}).
  set (st1 := snd (init_checks E ([":util" : str] ++ ["//base:log" : str]) [] st0)).
  set (st2 := snd (_init_target_deps E [":util" : str] st1)).
  set (st3 := snd (_init_target_deps E ["//base:log" : str]
                     {| self := record_dep ("app/sub" : str, "lib" : str) (self st2);
                        world := world st2 |})).
  set (st4 := snd (_init_visibility E None st3)).
  destruct (proj2 (proj2 (relative_dep_resolution E "./sub" "lib" eq_refl eq_refl eq_refl
                            eq_refl))
              Target_class "server" "cc_binary" ["main.cc" : str] [":util" : str]
              ["//base:log" : str] None [] (example_world "app") st1 st2 st3 st4)
    as (t & Hinit & Hdeps & _ & _ & Hexp).
  - unfold st1. apply (outcome_of_fst (init_checks E _ [] st0)). vm_compute. reflexivity.
  - unfold st2. apply (outcome_of_fst (_init_target_deps E _ st1)). vm_compute. reflexivity.
  - unfold st3. apply (outcome_of_fst (_init_target_deps E _ _)). vm_compute. reflexivity.
  - unfold st4. apply (outcome_of_fst (_init_visibility E None st3)). vm_compute. reflexivity.
  - exists t, (world st4). split; [exact Hinit|]. split; [|exact Hexp].
    rewrite Hdeps. vm_compute. reflexivity.
Defined.

(** ** Location references *)

Section LocationTags.
Context (E : Env).

Ltac matches_inv :=
  repeat match goal with
    | H : matches (Re.Seq _ _) _ _ _ |- _ => inversion H; subst; clear H
    | H : matches (Re.Lit _) _ _ _ |- _ => inversion H; subst; clear H
    | H : matches (Re.Star _) _ _ _ |- _ => inversion H; subst; clear H
    | H : matches (Re.Plus _) _ _ _ |- _ => inversion H; subst; clear H
    | H : matches (Re.Group _ _) _ _ _ |- _ => inversion H; subst; clear H
    | H : matches (Re.Opt _) _ _ _ |- _ => inversion H; subst; clear H
    end.

(** The second group of [LOCATION_RE]: absent, or white space followed by
    word characters *)
Lemma LOCATION_RE_tag text caps :
  matches LOCATION_RE text ∅ caps ->
  caps !! 2 = None
  \/ exists ws w, caps !! 2 = Some (ws ++ w) /\ all_space ws
       /\ Forall (fun c => Re.isword c = true) w.
Proof.
  unfold LOCATION_RE. intros H. matches_inv.
  all: first [ left; rewrite lookup_insert_ne by done; apply lookup_empty
             | right; eexists _, _; rewrite lookup_insert_eq;
               split; [reflexivity|]; by split ].
Qed.

Lemma isword_not_space c : Re.isword c = true -> Py.isspace c = false.
Proof. destruct c as [[] [] [] [] [] [] [] []]; vm_compute; congruence. Qed.

Lemma lstrip_spaces (ws w : str) :
  all_space ws -> no_space w -> Py.lstrip (ws ++ w) = w.
Proof.
  intros Hws Hw. induction Hws as [|c ws Hc _ IH]; simpl.
  - destruct Hw as [|c w Hc _]; [done|]. simpl. by rewrite Hc.
  - by rewrite Hc.
Qed.

Lemma strip_tag (ws w : str) :
  all_space ws -> Forall (fun c => Re.isword c = true) w -> Py.strip (ws ++ w) = w.
Proof.
  intros Hws Hw.
  assert (no_space w) as Hns.
  { eapply Forall_impl; [exact Hw|]. apply isword_not_space. }
  unfold Py.strip, Py.rstrip. rewrite (lstrip_spaces _ _ Hws Hns).
  assert (no_space (rev w)) as Hrev by (by apply Forall_rev).
  pose proof (lstrip_spaces [] (rev w) (Forall_nil_2 _) Hrev) as H. simpl in H.
  rewrite H. apply rev_involutive.
Qed.

(** What resolving a location reference found by [LOCATION_RE] gives:
    the first group is a reference [a:b]; the call returns the key this
    reference resolves to, recorded in both lists of [self], with a tag
    made of word characters only, or fails as the resolution of the
    reference does. *)
Theorem location_reference_result s m st r st' :
  Re.search LOCATION_RE s = Some m ->
  _add_location_reference_target E (Some m) st = (r, st') ->
  exists a b,
    Re.groups m !! 0 = Some (Some (a ++ ":" ++ b))
    /\ ((exists k ty st1,
           r = Ok (Some (k, ty))
           /\ _unify_dep E (a ++ ":" ++ b) st = (Ok k, st1)
           /\ Forall (fun c => Re.isword c = true) ty
           /\ st' = {| self := record_dep k (self st); world := world st1 |})
        \/ (exists e, r = Fail e /\ _unify_dep E (a ++ ":" ++ b) st = (Fail e, st'))).
Proof.
  intros Hsearch. unfold Re.search in Hsearch.
  apply search_from_sound in Hsearch as (skipped & rest & -> & Hm).
  apply match_at_sound in Hm as (text & s' & -> & Hm & Hn).
  pose proof (LOCATION_RE_tag _ _ Hm) as Htag.
  apply LOCATION_RE_shape in Hm as (ws & a & b & tail & -> & _ & _ & _ & _ & _ & Hc).
  rewrite add_location_reference_target_cases. unfold Re.groups. rewrite Hn.
  cbn [Re.ngroups LOCATION_RE Nat.add seq map]. rewrite Hc.
  intros Hrun. exists a, b. split; [done|].
  destruct (_unify_dep E (a ++ ":" ++ b) st) as [[k|e] st1] eqn:Hunify.
  - left. injection Hrun as <- <-.
    pose proof (unify_dep_self _ _ _ _ _ Hunify) as ->.
    eexists k, _, st1. split; [done|]. split; [done|]. split; [|done].
    destruct Htag as [->|(ws2 & w & -> & Hws2 & Hw)]; [constructor|].
    simpl default. by rewrite strip_tag.
  - right. injection Hrun as <- <-. eauto.
Qed.

End LocationTags.

(** A location reference takes a relative reference without a marker,
    which the dependency list refuses. *)
Lemma location_reference_result_witness :
  let E := example_env "warning" in
  let st := constructing E Target_class "x" [] (example_world "lib") in
  let m := Re.search LOCATION_RE "cp $(location sub:gen  so) out" in
  fst (_add_location_reference_target E m st)
  = Ok (Some (("lib/sub" : str, "gen" : str), "so" : str))
  /\ deps (self (snd (_add_location_reference_target E m st)))
     = [("lib/sub" : str, "gen" : str)].
Proof.
  intros E st m.
  assert (fst (_add_location_reference_target E m st)
          = Ok (Some (("lib/sub" : str, "gen" : str), "so" : str))) as Hfst
    by (vm_compute; reflexivity).
  split; [exact Hfst|].
  assert (exists m0, m = Some m0) as [m0 Hm0] by (vm_compute; eauto).
  destruct (location_reference_result E _ m0 st
              (fst (_add_location_reference_target E (Some m0) st))
              (snd (_add_location_reference_target E (Some m0) st)) Hm0)
    as (a & b & _ & [(k & ty & st1 & Hr & _ & _ & Hst)|(e & Hr & _)]).
  - by apply outcome_of_fst.
  - rewrite Hm0 in *. rewrite Hst. cbn [self]. rewrite Hr in Hfst.
    injection Hfst as -> _. reflexivity.
  - rewrite Hm0 in *. congruence.
Defined.

(** ** Rule fingerprint: the cache, missing targets and cycles *)

Section Fingerprint.
Context (E : Env).

Lemma rule_hash_unfold fuel k db :
  rule_hash E (S fuel) k db =
    match (db !! k : option Target) with
    | None => (Fail (key_error k), db)
    | Some t =>
        match rule_hash_cache t with
        | Some h => (Ok h, db)
        | None =>
            match dep_rule_hashes (rule_hash E fuel) (deps t) [] db with
            | (Fail e, db') => (Fail e, db')
            | (Ok hs, db') =>
                match (db' !! k : option Target) with
                | None => (Fail (key_error k), db')
                | Some t' =>
                    let text := factors_text (type t) (name t) (srcs t) hs
                                  (_rule_hash_factors (class t') t') in
                    if Py.contains text " object at 0x"
                    then (Fail (Raise "AssertionError" []), db')
                    else (Ok (md5sum E text),
                          <[k := set_rule_hash_cache (Some (md5sum E text)) t']> db')
                end
            end
        end
    end.
Proof. reflexivity. Qed.

Lemma cached_insert_ne db k (t : Target) k' h :
  k <> k' -> cached db k' h -> cached (<[k := t]> db) k' h.
Proof. intros Hne (t' & Hk' & Hc). exists t'. by rewrite lookup_insert_ne. Qed.

(** A digest once cached stays. *)
Lemma dep_rule_hashes_keeps rec dkeys : forall acc db r db',
  (forall d db0 r0 db1, rec d db0 = (r0, db1) ->
     forall k h, cached db0 k h -> cached db1 k h) ->
  dep_rule_hashes rec dkeys acc db = (r, db') ->
  forall k h, cached db k h -> cached db' k h.
Proof.
  induction dkeys as [|d dkeys IH]; intros acc db r db' Hrec; simpl.
  - by intros [= <- <-].
  - destruct (rec d db) as [[h0|e] db1] eqn:Hd.
    + intros Hloop k h Hk. eapply IH; [done|exact Hloop|]. by eapply Hrec.
    + intros [= <- <-] k h Hk. by eapply Hrec.
Qed.

Lemma rule_hash_keeps fuel : forall k db r db',
  rule_hash E fuel k db = (r, db') ->
  forall k' h, cached db k' h -> cached db' k' h.
Proof.
  induction fuel as [|fuel IH]; intros k db r db'; [by intros [= <- <-]|].
  rewrite rule_hash_unfold.
  destruct (db !! k) as [t|] eqn:Hk; [|by intros [= <- <-]].
  destruct (rule_hash_cache t) eqn:Hc; [by intros [= <- <-]|].
  destruct (dep_rule_hashes _ _ _ _) as [[hs|e] db1] eqn:Hloop.
  - pose proof (dep_rule_hashes_keeps _ _ _ _ _ _ IH Hloop) as Hkeep.
    destruct (db1 !! k) as [t1|] eqn:Hk1; [|intros [= <- <-]; exact Hkeep].
    cbv zeta. destruct (Py.contains _ _); intros [= <- <-]; [exact Hkeep|].
    intros k' h Hk'. apply cached_insert_ne; [|by apply Hkeep].
    intros <-. destruct Hk' as (t' & Hk' & Hc'). congruence.
  - intros [= <- <-]. exact (dep_rule_hashes_keeps _ _ _ _ _ _ IH Hloop).
Qed.

Lemma rule_hash_caches fuel k db h db1 :
  rule_hash E fuel k db = (Ok h, db1) -> cached db1 k h.
Proof.
  intros Hrun. destruct fuel as [|fuel]; [done|]. rewrite rule_hash_unfold in Hrun.
  destruct (db !! k) as [t|] eqn:Hk; [|done].
  destruct (rule_hash_cache t) eqn:Hc.
  - injection Hrun as <- <-. by exists t.
  - destruct (dep_rule_hashes _ _ _ _) as [[hs|e] db'] eqn:Hloop; [|done].
    destruct (db' !! k) as [t1|] eqn:Hk1; [|done].
    cbv zeta in Hrun. destruct (Py.contains _ _); [done|].
    injection Hrun as <- <-. eexists. by rewrite lookup_insert_eq.
Qed.

(** When [rule_hash] returns a digest, the target has it cached, every
    digest cached before is still cached, and any later call returns the
    same digest without a change, also after the public attributes of
    the target have changed. *)
Theorem rule_hash_memoized fuel k db h db1 :
  rule_hash E fuel k db = (Ok h, db1) ->
  cached db1 k h
  /\ (forall k' h', cached db k' h' -> cached db1 k' h')
  /\ (forall fuel' f,
        rule_hash E (S fuel') k (alter (update f) k db1)
        = (Ok h, alter (update f) k db1)).
Proof.
  intros Hrun. pose proof (rule_hash_caches _ _ _ _ _ Hrun) as Hcached.
  split; [done|]. split; [by eapply rule_hash_keeps|].
  intros fuel' f. destruct Hcached as (t & Hk & Hc).
  rewrite rule_hash_unfold, lookup_alter_eq, Hk. simpl. by rewrite Hc.
Qed.

(** *** Cycles *)

Lemma dep_rule_hashes_pending (C : target_key -> Prop) rec dkeys : forall acc db r db',
  (forall d db0 r0 db1,
     (forall c, C c -> pending_on C db0 c) -> rec d db0 = (r0, db1) ->
     (forall c, C c -> pending_on C db1 c) /\ (C d -> exists e, r0 = Fail e)) ->
  (forall c, C c -> pending_on C db c) ->
  dep_rule_hashes rec dkeys acc db = (r, db') ->
  (forall c, C c -> pending_on C db' c)
  /\ ((exists d, d ∈ dkeys /\ C d) -> exists e, r = Fail e).
Proof.
  induction dkeys as [|d dkeys IH]; intros acc db r db' Hrec Hinv; simpl.
  - intros [= <- <-]. split; [done|]. intros (d & Hd & _). by apply elem_of_nil in Hd.
  - destruct (rec d db) as [r0 db1] eqn:Hd.
    destruct (Hrec _ _ _ _ Hinv Hd) as [Hinv1 Hfail]. destruct r0 as [h|e].
    + intros Hloop. destruct (IH _ _ _ _ Hrec Hinv1 Hloop) as [Hinv' Hfail'].
      split; [done|]. intros (d' & Hd' & HC). apply elem_of_cons in Hd' as [->|Hd'].
      * by destruct (Hfail HC).
      * apply Hfail'. eauto.
    + intros [= <- <-]. split; [done|]. eauto.
Qed.

Lemma rule_hash_pending (C : target_key -> Prop) fuel : forall d db r db',
  (forall c, C c -> pending_on C db c) ->
  rule_hash E fuel d db = (r, db') ->
  (forall c, C c -> pending_on C db' c) /\ (C d -> exists e, r = Fail e).
Proof.
  induction fuel as [|fuel IH]; intros d db r db' Hinv.
  - intros [= <- <-]. eauto.
  - rewrite rule_hash_unfold.
    destruct (db !! d) as [t|] eqn:Hd; [|intros [= <- <-]; eauto].
    destruct (rule_hash_cache t) as [h|] eqn:Hc.
    { intros [= <- <-]. split; [done|]. intros HC.
      destruct (Hinv d HC) as (t' & Hd' & Hc' & _). congruence. }
    destruct (dep_rule_hashes _ _ _ _) as [[hs|e] db1] eqn:Hloop.
    2: { intros [= <- <-].
         destruct (dep_rule_hashes_pending C _ _ _ _ _ _ IH Hinv Hloop) as [Hinv1 _]. eauto. }
    destruct (dep_rule_hashes_pending C _ _ _ _ _ _ IH Hinv Hloop) as [Hinv1 Hfail].
    assert (~ C d) as HnC.
    { intros HC. destruct (Hinv d HC) as (t' & Hd' & _ & d' & Hin & HC').
      assert (t' = t) as -> by congruence.
      destruct Hfail as [e He]; [eauto|done]. }
    destruct (db1 !! d) as [t1|] eqn:Hd1; [|intros [= <- <-]; eauto].
    cbv zeta. destruct (Py.contains _ _); intros [= <- <-]; [eauto|].
    split; [|done]. intros c HC. destruct (Hinv1 c HC) as (tc & Hc1 & Hrest).
    exists tc. split; [|done]. rewrite lookup_insert_ne; [done|]. by intros ->.
Qed.

(** A target on a dependency cycle never gets a digest: when every
    target of a set has no cached digest and depends on a target of the
    set, [rule_hash] fails on each of them whatever the bound of the
    recursion is. *)
Theorem rule_hash_cycle (C : target_key -> Prop) db fuel k :
  (forall c, C c -> pending_on C db c) -> C k ->
  exists e db', rule_hash E fuel k db = (Fail e, db').
Proof.
  intros Hinv HC. destruct (rule_hash E fuel k db) as [r db'] eqn:Hrun.
  destruct (rule_hash_pending C _ _ _ _ _ Hinv Hrun) as [_ Hfail].
  destruct (Hfail HC) as [e ->]. eauto.
Qed.

(** *** Targets the database lacks *)

Lemma dep_rule_hashes_cached rec dkeys : forall acc db,
  (forall d h, d ∈ dkeys -> cached db d h -> rec d db = (Ok h, db)) ->
  Forall (fun d => exists h, cached db d h) dkeys ->
  exists hs, dep_rule_hashes rec dkeys acc db = (Ok (acc ++ hs), db)
             /\ Forall2 (cached db) dkeys hs.
Proof.
  induction dkeys as [|d dkeys IH]; intros acc db Hrec Hall.
  - exists []. rewrite app_nil_r. split; [done|constructor].
  - apply Forall_cons in Hall as [[h Hd] Hall]. simpl.
    rewrite (Hrec d h); [|apply elem_of_cons; by left|done].
    destruct (IH (acc ++ [h]) db) as (hs & -> & Hhs); [|done|].
    + intros d' h' Hd'. apply Hrec. apply elem_of_cons. by right.
    + exists (h :: hs). rewrite <- app_assoc. split; [done|]. by constructor.
Qed.

Lemma rule_hash_cached fuel k db h :
  cached db k h -> rule_hash E (S fuel) k db = (Ok h, db).
Proof. intros (t & Hk & Hc). by rewrite rule_hash_unfold, Hk, Hc. Qed.

Lemma dep_rule_hashes_app rec l1 l2 acc db :
  dep_rule_hashes rec (l1 ++ l2) acc db =
    match dep_rule_hashes rec l1 acc db with
    | (Ok hs, db') => dep_rule_hashes rec l2 hs db'
    | (Fail e, db') => (Fail e, db')
    end.
Proof.
  revert acc db. induction l1 as [|d l1 IH]; intros acc db; simpl; [done|].
  destruct (rec d db) as [[h|e] db1]; [apply IH|done].
Qed.

(** The lookup of a key that the database lacks raises [KeyError]; so
    does [rule_hash] on a target without a cached digest when the
    database lacks one of its dependencies and those before it have
    their digests cached; and in any case a target with a dependency
    that the database lacks gets no digest. *)
Theorem rule_hash_missing_target fuel k db :
  (db !! k = None -> rule_hash E (S fuel) k db = (Fail (key_error k), db))
  /\ (forall (t : Target) pre d post,
        db !! k = Some t -> rule_hash_cache t = None ->
        deps t = pre ++ d :: post ->
        Forall (fun p => exists h, cached db p h) pre ->
        db !! d = None ->
        rule_hash E (S (S fuel)) k db = (Fail (key_error d), db))
  /\ (forall (t : Target) d,
        db !! k = Some t -> rule_hash_cache t = None ->
        d ∈ deps t -> db !! d = None ->
        exists e db', rule_hash E fuel k db = (Fail e, db')).
Proof.
  split; [|split].
  - intros Hk. by rewrite rule_hash_unfold, Hk.
  - intros t pre d post Hk Hc Hdeps Hpre Hd.
    rewrite rule_hash_unfold, Hk, Hc, Hdeps, dep_rule_hashes_app.
    destruct (dep_rule_hashes_cached (rule_hash E (S fuel)) pre [] db) as (hs & -> & _);
      [|done|].
    + intros p h _. apply rule_hash_cached.
    + simpl. by rewrite Hd.
  - intros t d Hk Hc Hin Hd.
    destruct fuel as [|fuel]; [eauto|]. rewrite rule_hash_unfold, Hk, Hc.
    assert (forall dkeys acc db0, d ∈ dkeys -> db0 !! d = None ->
              exists e db', dep_rule_hashes (rule_hash E fuel) dkeys acc db0 = (Fail e, db'))
      as Hloop.
    { induction dkeys as [|d0 dkeys IH]; intros acc db0 Hin0 Hd0; simpl.
      - by apply elem_of_nil in Hin0.
      - destruct (rule_hash E fuel d0 db0) as [[h|e] db1] eqn:Hrun; [|eauto].
        apply elem_of_cons in Hin0 as [<-|Hin0].
        + destruct fuel; [done|]. by rewrite rule_hash_unfold, Hd0 in Hrun.
        + apply IH; [done|]. apply rule_hash_frame in Hrun. specialize (Hrun d).
          rewrite Hd0 in Hrun. by destruct (db1 !! d). }
    destruct (Hloop (deps t) [] db Hin Hd) as (e & db' & ->). eauto.
Qed.

(** *** The cache after a call *)

Lemma Forall2_impl_elem {A B} (P Q : A -> B -> Prop) l l' :
  Forall2 P l l' -> (forall x y, x ∈ l -> P x y -> Q x y) -> Forall2 Q l l'.
Proof.
  induction 1 as [|x y l l' Hxy _ IH]; intros HPQ; constructor.
  - apply HPQ; [apply elem_of_cons; by left|done].
  - apply IH. intros x' y' Hx'. apply HPQ. apply elem_of_cons. by right.
Qed.

Lemma dep_rule_hashes_digests rec dkeys : forall acc db hs db',
  (forall d db0 r0 db1, rec d db0 = (r0, db1) ->
     forall k h, cached db0 k h -> cached db1 k h) ->
  (forall d db0 h db1, rec d db0 = (Ok h, db1) -> cached db1 d h) ->
  dep_rule_hashes rec dkeys acc db = (Ok hs, db') ->
  exists hs', hs = acc ++ hs' /\ Forall2 (cached db') dkeys hs'.
Proof.
  induction dkeys as [|d dkeys IH]; intros acc db hs db' Hkeep Hrec; simpl.
  - intros [= <- <-]. exists []. rewrite app_nil_r. split; [done|constructor].
  - destruct (rec d db) as [[h|e] db1] eqn:Hd; [|done]. intros Hloop.
    destruct (IH _ _ _ _ Hkeep Hrec Hloop) as (hs' & -> & Hhs).
    exists (h :: hs'). rewrite <- app_assoc. split; [done|]. constructor; [|done].
    eapply dep_rule_hashes_keeps; [exact Hkeep|exact Hloop|]. by eapply Hrec.
Qed.

(** The digest [rule_hash] computes for a target is the [md5sum] of the
    text made of its type, name, sources and extra factors and of the
    digests its dependencies have cached when the call returns. *)
Theorem rule_hash_of_cached_digests fuel k db (t : Target) h db1 :
  db !! k = Some t -> rule_hash_cache t = None ->
  rule_hash E fuel k db = (Ok h, db1) ->
  exists hs,
    Forall2 (cached db1) (deps t) hs
    /\ h = md5sum E (digest_text t hs)
    /\ Py.contains (digest_text t hs) " object at 0x" = false.
Proof.
  intros Hk Hc Hrun.
  assert (k ∉ deps t) as Hself.
  { intros Hin.
    destruct (rule_hash_pending (fun c => c = k) fuel k db (Ok h) db1) as [_ Hfail].
    - intros c ->. exists t. eauto.
    - exact Hrun.
    - by destruct (Hfail eq_refl). }
  destruct fuel as [|fuel]; [done|].
  destruct (dep_rule_hashes (rule_hash E fuel) (deps t) [] db) as [[hs|e] db'] eqn:Hloop.
  2: { rewrite rule_hash_unfold, Hk, Hc, Hloop in Hrun. done. }
  destruct (rule_hash_step E fuel k db t hs db' Hk Hc Hloop) as (t1 & Hk1 & _ & _ & Hstep).
  rewrite Hstep in Hrun.
  destruct (Py.contains (digest_text t hs) " object at 0x") eqn:Hassert; [done|].
  injection Hrun as <- <-.
  destruct (dep_rule_hashes_digests _ _ _ _ _ _ (rule_hash_keeps fuel)
              (rule_hash_caches fuel) Hloop) as (hs' & -> & Hhs).
  exists hs'. split; [|done].
  eapply Forall2_impl_elem; [exact Hhs|]. intros d hd Hin Hd.
  apply cached_insert_ne; [|done]. by intros <-.
Qed.

End Fingerprint.

Lemma rule_hash_memoized_witness :
  let E := example_env "warning" in
  let ax : target_key := ("a" : str, "x" : str) in
  let db1 := snd (rule_hash E 2 ax example_database) in
  cached db1 ax "fce26266a2e6383f8e0eeb62c3d1b497"
  /\ fst (rule_hash E 1 ax (alter (update (set_srcs ["other.cc" : str])) ax db1))
     = Ok ("fce26266a2e6383f8e0eeb62c3d1b497" : str).
Proof.
  intros E ax db1.
  assert (rule_hash E 2 ax example_database
          = (Ok ("fce26266a2e6383f8e0eeb62c3d1b497" : str), db1)) as Hrun.
  { unfold db1. apply (outcome_of_fst (rule_hash E 2 ax example_database)).
    vm_compute. reflexivity. }
  destruct (rule_hash_memoized E 2 ax example_database _ db1 Hrun) as (Hc & _ & Hagain).
  split; [exact Hc|]. by rewrite Hagain.
Defined.

Lemma rule_hash_cycle_witness :
  let E := example_env "warning" in
  exists e db',
    rule_hash E 1000 ("p" : str, "a" : str) example_cycle = (Fail e, db').
Proof.
  intros E.
  apply (rule_hash_cycle E (fun c => c = ("p" : str, "a" : str) \/ c = ("p" : str, "b" : str))).
  - assert (forall k, is_Some (example_cycle !! k) ->
              example_cycle !! k = Some (example_cycle_at k)) as Hat.
    { intros k [t Ht]. unfold example_cycle_at. by rewrite Ht. }
    intros c [-> | ->].
    + exists (example_cycle_at ("p" : str, "a" : str)).
      split; [apply Hat, (bool_decide_unpack _); vm_compute; exact I|].
      split; [vm_compute; reflexivity|]. exists ("p" : str, "b" : str).
      split; [apply (bool_decide_unpack _); vm_compute; exact I|by right].
    + exists (example_cycle_at ("p" : str, "b" : str)).
      split; [apply Hat, (bool_decide_unpack _); vm_compute; exact I|].
      split; [vm_compute; reflexivity|]. exists ("p" : str, "a" : str).
      split; [apply (bool_decide_unpack _); vm_compute; exact I|by left].
  - by left.
Defined.

Lemma rule_hash_missing_target_witness :
  let E := example_env "warning" in
  let ax : target_key := ("a" : str, "x" : str) in
  let log : target_key := ("base" : str, "log" : str) in
  let db := delete log example_database in
  rule_hash E 2 ax db = (Fail (Raise "KeyError" "('base', 'log')"), db)
  /\ rule_hash E 1 log db = (Fail (Raise "KeyError" "('base', 'log')"), db).
Proof.
  intros E ax log db.
  destruct (rule_hash_missing_target E 0 ax db) as (_ & Hdep & _).
  destruct (rule_hash_missing_target E 0 log db) as (Hkey & _ & _).
  split.
  - apply (Hdep (example_target_at ax) [] log []).
    + unfold db. rewrite lookup_delete_ne by done. example_lookup.
    + vm_compute. reflexivity.
    + vm_compute. reflexivity.
    + constructor.
    + apply lookup_delete_eq.
  - apply Hkey. apply lookup_delete_eq.
Defined.

Lemma rule_hash_of_cached_digests_witness :
  let E := example_env "warning" in
  let ax : target_key := ("a" : str, "x" : str) in
  let db1 := snd (rule_hash E 2 ax example_database) in
  exists hs,
    Forall2 (cached db1) [("base" : str, "log" : str)] hs
    /\ ("fce26266a2e6383f8e0eeb62c3d1b497" : str)
       = MD5.hexdigest (digest_text (example_target_at ax) hs).
Proof.
  intros E ax db1.
  assert (rule_hash E 2 ax example_database
          = (Ok ("fce26266a2e6383f8e0eeb62c3d1b497" : str), db1)) as Hrun.
  { unfold db1. apply (outcome_of_fst (rule_hash E 2 ax example_database)).
    vm_compute. reflexivity. }
  destruct (rule_hash_of_cached_digests E 2 ax example_database (example_target_at ax)
              "fce26266a2e6383f8e0eeb62c3d1b497" db1) as (hs & Hhs & Hh & _).
  - example_lookup.
  - vm_compute. reflexivity.
  - exact Hrun.
  - exists hs. split; [|exact Hh].
    assert (deps (example_target_at ax) = [("base" : str, "log" : str)]) as <-
      by (vm_compute; reflexivity).
    exact Hhs.
Defined.

(** ** Rule fingerprint: the hashed text tells the factors apart *)

Section TextInjective.

Lemma insert_item_on_values f x (l : dict) :
  insert_item (x.1, f x.2) (on_values f l) = on_values f (insert_item x l).
Proof.
  induction l as [|y l IH]; simpl; [done|].
  destruct (Py.str_ltb x.1 y.1); simpl; [done|]. by rewrite IH.
Qed.

Lemma sorted_items_on_values f (d : dict) :
  sorted_items (on_values f d) = on_values f (sorted_items d).
Proof.
  unfold sorted_items.
  assert (forall acc, fold_left (fun acc x => insert_item x acc) (on_values f d)
                        (on_values f acc)
                      = on_values f (fold_left (fun acc x => insert_item x acc) d acc)) as H.
  { induction d as [|x d IH]; intros acc; simpl; [done|].
    by rewrite insert_item_on_values, IH. }
  exact (H []).
Qed.

Lemma dict_set_on_values f (d : dict) k v :
  dict_set (on_values f d) k (f v) = on_values f (dict_set d k v).
Proof.
  induction d as [|[k0 v0] d IH]; simpl; [done|].
  case_bool_decide; simpl; [done|]. by rewrite IH.
Qed.

Lemma dict_update_on_values f (d e : dict) :
  dict_update (on_values f d) (on_values f e) = on_values f (dict_update d e).
Proof.
  unfold dict_update. revert d. induction e as [|[k v] e IH]; intros d; simpl; [done|].
  by rewrite dict_set_on_values, IH.
Qed.

Lemma dict_set_elem (d : dict) k v x :
  x ∈ dict_set d k v -> x ∈ d \/ x = (k, v).
Proof.
  induction d as [|[k0 v0] d IH]; simpl.
  - intros Hx. apply list_elem_of_singleton in Hx. by right.
  - case_bool_decide as Hk0.
    + intros Hx. apply elem_of_cons in Hx as [->|Hx]; [by right|].
      left. apply elem_of_cons. by right.
    + intros Hx. apply elem_of_cons in Hx as [->|Hx]; [left; apply elem_of_cons; by left|].
      destruct (IH Hx) as [?|?]; [left; apply elem_of_cons; by right|by right].
Qed.

Lemma dict_update_elem (d e : dict) x :
  x ∈ dict_update d e -> x ∈ d \/ x ∈ e.
Proof.
  unfold dict_update. revert d. induction e as [|[k v] e IH]; intros d; simpl; [by left|].
  intros H. apply IH in H as [H|H].
  - apply dict_set_elem in H as [H| ->]; [by left|]. right. apply elem_of_cons. by left.
  - right. apply elem_of_cons. by right.
Qed.

Lemma insert_item_elem x (l : dict) y :
  y ∈ insert_item x l <-> y = x \/ y ∈ l.
Proof.
  induction l as [|z l IH]; simpl.
  - rewrite list_elem_of_singleton. split; [by left|]. intros [?|Hy]; [done|].
    by apply elem_of_nil in Hy.
  - destruct (Py.str_ltb x.1 z.1); rewrite !elem_of_cons, ?IH; tauto.
Qed.

Lemma sorted_items_elem (d : dict) y : y ∈ sorted_items d <-> y ∈ d.
Proof.
  unfold sorted_items.
  assert (forall acc, y ∈ fold_left (fun acc x => insert_item x acc) d acc
                      <-> y ∈ acc \/ y ∈ d) as H.
  { induction d as [|x d IH]; intros acc; simpl.
    - split; [by left|]. intros [?|Hy]; [done|]. by apply elem_of_nil in Hy.
    - rewrite IH, insert_item_elem, elem_of_cons. tauto. }
  rewrite H. split; [|by right]. intros [H'|?]; [by apply elem_of_nil in H'|done].
Qed.

Lemma dict_set_keeps (d : dict) k v x : x.1 <> k -> x ∈ d -> x ∈ dict_set d k v.
Proof.
  intros Hne. induction d as [|[k0 v0] d IH]; simpl;
    [intros Hx; by apply elem_of_nil in Hx|].
  intros Hx. apply elem_of_cons in Hx as [->|Hx].
  - simpl in Hne. rewrite bool_decide_eq_false_2 by done. apply elem_of_cons. by left.
  - case_bool_decide as Hk0; apply elem_of_cons; right; auto.
Qed.

Lemma dict_update_keeps_elem (d e : dict) x :
  x.1 ∉ map fst e -> x ∈ d -> x ∈ dict_update d e.
Proof.
  unfold dict_update. revert d. induction e as [|[k v] e IH]; intros d Hk Hx; simpl; [done|].
  simpl in Hk. apply not_elem_of_cons in Hk as [Hne Hk].
  apply IH; [done|]. by apply dict_set_keeps.
Qed.

(** The printed values of an item that is told apart are equal only if
    the values are, and then the texts after them are equal. *)
Lemma told_apart_item kv X Y :
  told_apart kv ->
  item_text (kv.1, fst_value kv.2) ++ X = item_text (kv.1, snd_value kv.2) ++ Y ->
  fst_value kv.2 = snd_value kv.2 /\ X = Y.
Proof.
  unfold item_text. cbn [repr fst snd map]. rewrite !join_cons. cbn [Py.join].
  rewrite <- !app_assoc. intros Hkv H. rewrite !app_nil_l in H.
  apply app_inv_head in H. apply app_inv_head in H. apply app_inv_head in H.
  destruct Hkv as [Heq|[(a & b & Hv)|(l & l' & Hv)]].
  - split; [done|]. rewrite Heq in H. apply app_inv_head in H. by apply app_inv_head in H.
  - rewrite Hv in *. cbn [fst_value snd_value repr] in *.
    apply repr_str_prefix_free in H as [-> H]. split; [done|]. by apply app_inv_head in H.
  - rewrite Hv in *. cbn [fst_value snd_value] in *.
    apply repr_str_list_inj in H as [-> H]. split; [done|]. by apply app_inv_head in H.
Qed.

Lemma told_apart_items (S : dict) : forall X Y,
  Forall told_apart S ->
  Py.join ", " (map item_text (on_values fst_value S)) ++ X
  = Py.join ", " (map item_text (on_values snd_value S)) ++ Y ->
  Forall (fun kv => fst_value kv.2 = snd_value kv.2) S /\ X = Y.
Proof.
  induction S as [|kv S IH]; intros X Y Hall; [simpl; by intros ->|].
  apply Forall_cons in Hall as [Hkv Hall].
  cbn [on_values map]. rewrite !join_cons, <- !app_assoc.
  intros H. apply told_apart_item in H as [Hv H]; [|done].
  destruct S as [|kv' S]; [by split; [constructor|]|].
  cbn [on_values map] in H. rewrite <- !app_assoc in H. apply app_inv_head in H.
  apply IH in H as [Hrest ->]; [|done]. split; [by constructor|done].
Qed.


Lemma on_values_pair (e : dict) f :
  (forall v, f (VTuple [v; v]) = v) ->
  on_values f (on_values (fun v => VTuple [v; v]) e) = e.
Proof.
  intros Hf. unfold on_values. rewrite map_map. simpl.
  induction e as [|[k v] e IH]; simpl; [done|]. by rewrite Hf, IH.
Qed.

Lemma on_values_keys f (e : dict) : map fst (on_values f e) = map fst e.
Proof. unfold on_values. rewrite map_map. done. Qed.

Lemma str_sorted_items_on_values f (D : dict) :
  str_sorted_items (on_values f D)
  = "[" ++ Py.join ", " (map item_text (on_values f (sorted_items D))) ++ "]".
Proof.
  unfold str_sorted_items. rewrite sorted_items_on_values. cbn [repr].
  by rewrite map_map.
Qed.

Lemma map_VStr_inj (l l' : list str) : map VStr l = map VStr l' -> l = l'.
Proof.
  revert l'. induction l as [|x l IH]; intros [|y l'] H; try done.
  injection H as -> H. by rewrite (IH _ H).
Qed.

(** The text [rule_hash] hashes determines the type, the name, the
    sources and the digests of the dependencies, in their order, as long
    as the extra factors have no key named like one of the four. *)
Theorem factors_text_injective ty nm ss hs ty' nm' ss' hs' (extra : dict) :
  ("type" : str) ∉ map fst extra -> ("name" : str) ∉ map fst extra ->
  ("srcs" : str) ∉ map fst extra -> ("deps" : str) ∉ map fst extra ->
  factors_text ty nm ss hs extra = factors_text ty' nm' ss' hs' extra ->
  ty = ty' /\ nm = nm' /\ ss = ss' /\ hs = hs'.
Proof.
  intros Htype Hname Hsrcs Hdeps.
  set (core := [("type" : str, VTuple [VStr ty; VStr ty']);
                ("name" : str, VTuple [VStr nm; VStr nm']);
                ("srcs" : str, VTuple [VList (map VStr ss); VList (map VStr ss')]);
                ("deps" : str, VTuple [VList (map VStr hs); VList (map VStr hs')])]).
  set (both := on_values (fun v => VTuple [v; v]) extra).
  set (D := dict_update core both).
  assert (rule_hash_factors_dict ty nm ss hs extra = on_values fst_value D) as H1.
  { rewrite rule_hash_factors_dict_core. unfold D. rewrite <- dict_update_on_values.
    unfold both. by rewrite on_values_pair. }
  assert (rule_hash_factors_dict ty' nm' ss' hs' extra = on_values snd_value D) as H2.
  { rewrite rule_hash_factors_dict_core. unfold D. rewrite <- dict_update_on_values.
    unfold both. by rewrite on_values_pair. }
  unfold factors_text. rewrite H1, H2, !str_sorted_items_on_values.
  intros H. apply app_inv_head in H.
  apply told_apart_items in H as [Hall _].
  2: { apply Forall_forall. intros x Hx. apply sorted_items_elem, dict_update_elem in Hx.
       destruct Hx as [Hx|Hx].
       - unfold core in Hx. repeat (apply elem_of_cons in Hx as [->|Hx]).
         + right. left. eauto.
         + right. left. eauto.
         + right. right. eauto.
         + right. right. eauto.
         + by apply elem_of_nil in Hx.
       - left. unfold both, on_values in Hx. apply list_elem_of_fmap in Hx as (y & -> & _).
         reflexivity. }
  assert (forall x, x ∈ core -> fst_value x.2 = snd_value x.2) as Hcore.
  { intros x Hx. apply (proj1 (Forall_forall _ _) Hall). apply sorted_items_elem.
    apply dict_update_keeps_elem; [|done]. unfold both. rewrite on_values_keys.
    unfold core in Hx. repeat (apply elem_of_cons in Hx as [->|Hx]); try done.
    by apply elem_of_nil in Hx. }
  pose proof (Hcore ("type" : str, VTuple [VStr ty; VStr ty'])) as Ht.
  pose proof (Hcore ("name" : str, VTuple [VStr nm; VStr nm'])) as Hn.
  pose proof (Hcore ("srcs" : str, VTuple [VList (map VStr ss); VList (map VStr ss')])) as Hss.
  pose proof (Hcore ("deps" : str, VTuple [VList (map VStr hs); VList (map VStr hs')])) as Hhs.
  cbn [fst_value snd_value snd] in Ht, Hn, Hss, Hhs. unfold core in Ht, Hn, Hss, Hhs.
  rewrite !elem_of_cons in Ht, Hn, Hss, Hhs.
  injection (Ht ltac:(auto)) as ->. injection (Hn ltac:(auto)) as ->.
  injection (Hss ltac:(auto 6)) as Hss'. injection (Hhs ltac:(auto 6)) as Hhs'.
  clear Hss Hhs. rename Hss' into Hss. rename Hhs' into Hhs.
  apply map_VStr_inj in Hss, Hhs. by subst.
Qed.

End TextInjective.

Lemma factors_text_injective_witness :
  let E := example_env "warning" in
  let t := example_target_at ("a" : str, "x" : str) in
  let t' := example_target_at ("e" : str, "x" : str) in
  digest_text t ["f13d9527ccf6be5f0d8ddc706fec6dbf" : str]
  <> digest_text t' ["f13d9527ccf6be5f0d8ddc706fec6dbf" : str].
Proof.
  intros E t t' H. unfold digest_text in H.
  assert (_rule_hash_factors (class t') t' = _rule_hash_factors (class t) t) as He
    by (vm_compute; reflexivity).
  rewrite He in H.
  apply factors_text_injective in H as (_ & _ & Hsrcs & _).
  - revert Hsrcs. vm_compute. discriminate.
  - apply (bool_decide_unpack _). vm_compute. exact I.
  - apply (bool_decide_unpack _). vm_compute. exact I.
  - apply (bool_decide_unpack _). vm_compute. exact I.
  - apply (bool_decide_unpack _). vm_compute. exact I.
Defined.

(** ** Target files *)

Section TargetFiles.

Lemma add_target_file_cases label p st ts v :
  dict_get (data (self st)) "targets" = Some (VDict ts) ->
  dict_get (data (self st)) "default_target" = Some v ->
  _add_target_file label p st
  = (Ok (),
     {| self := update (fun a =>
                  let d := dict_set (data a) "targets" (VDict (dict_set ts label (VStr p))) in
                  set_data (if falsy v then dict_set d "default_target" (VStr p) else d) a)
                  (self st);
        world := world st |}).
Proof.
  intros Hts Hv. unfold _add_target_file. method_unfold. cbn [self]. rewrite Hts.
  cbn [self update attrs data set_data]. rewrite dict_get_set.
  rewrite bool_decide_eq_false_2 by discriminate. rewrite Hv.
  destruct (falsy v); cbn [self world update attrs data set_data]; [reflexivity|].
  destruct st as [[c a b r n] w]. by destruct a.
Qed.

Lemma get_target_file_generated label (self : Target) rules :
  build_rules self = Some rules ->
  _get_target_file label self =
    (if negb (bool_decide (label = [])) then
       match dict_get (data self) "targets" with
       | Some (VDict targets) => Ok (default (VStr "") (dict_get targets label))
       | Some _ => Fail (Raise "AttributeError" "get")
       | None => Fail (Raise "KeyError" "'targets'")
       end
     else
       match dict_get (data self) "default_target" with
       | Some v => Ok v
       | None => Fail (Raise "KeyError" "'default_target'")
       end, self).
Proof.
  intros Hrules. unfold _get_target_file. rewrite (get_rules_cached _ _ Hrules).
  destruct (negb _).
  - by destruct (dict_get (data self) "targets") as [[]|].
  - by destruct (dict_get (data self) "default_target").
Qed.

(** A target file added under a label is what the label gives back,
    the files of the other labels are as before, a label without a file
    gives the empty string, and the default file is the first file that
    was added: it changes only while it is empty. *)
Theorem add_target_file_round_trip label p st ts v rules :
  dict_get (data (self st)) "targets" = Some (VDict ts) ->
  dict_get (data (self st)) "default_target" = Some v ->
  build_rules (self st) = Some rules ->
  label <> [] ->
  exists st',
    _add_target_file label p st = (Ok (), st')
    /\ world st' = world st
    /\ _get_target_file label (self st') = (Ok (VStr p), self st')
    /\ (forall l, l <> [] -> l <> label ->
          fst (_get_target_file l (self st')) = fst (_get_target_file l (self st)))
    /\ (forall l, l <> [] -> dict_get ts l = None ->
          fst (_get_target_file l (self st)) = Ok (VStr ""))
    /\ fst (_get_target_file "" (self st')) = Ok (if falsy v then VStr p else v).
Proof.
  intros Hts Hv Hrules Hlabel. eexists. split; [by apply add_target_file_cases|].
  split; [done|]. cbn [self].
  set (t' := update _ (self st)).
  assert (build_rules t' = Some rules) as Hrules' by done.
  assert (dict_get (data t') "targets" = Some (VDict (dict_set ts label (VStr p)))) as Hts'.
  { unfold t'. cbn [update attrs data set_data]. destruct (falsy v).
    - rewrite dict_get_set, bool_decide_eq_false_2 by discriminate.
      by rewrite dict_get_set, bool_decide_eq_true_2.
    - by rewrite dict_get_set, bool_decide_eq_true_2. }
  assert (dict_get (data t') "default_target" = Some (if falsy v then VStr p else v)) as Hv'.
  { unfold t'. cbn [update attrs data set_data]. destruct (falsy v).
    - by rewrite dict_get_set, bool_decide_eq_true_2.
    - by rewrite dict_get_set, bool_decide_eq_false_2 by discriminate. }
  split; [|split; [|split]].
  - rewrite (get_target_file_generated _ _ _ Hrules'), Hts'.
    rewrite bool_decide_eq_false_2 by done. simpl negb. cbv iota.
    by rewrite dict_get_set, bool_decide_eq_true_2.
  - intros l Hl Hne.
    rewrite (get_target_file_generated _ _ _ Hrules'), (get_target_file_generated _ _ _ Hrules).
    rewrite Hts', Hts, bool_decide_eq_false_2 by done. cbn [negb fst].
    by rewrite dict_get_set, bool_decide_eq_false_2.
  - intros l Hl Hnone. rewrite (get_target_file_generated _ _ _ Hrules), Hts.
    rewrite bool_decide_eq_false_2 by done. cbn [negb fst]. by rewrite Hnone.
  - by rewrite (get_target_file_generated _ _ _ Hrules'), Hv'.
Qed.

(** A default target file is the default from then on, whichever file
    was the default before, and is the file of its label. *)
Theorem add_default_target_file_effect label p st ts rules :
  dict_get (data (self st)) "targets" = Some (VDict ts) ->
  build_rules (self st) = Some rules ->
  exists st',
    _add_default_target_file label p st = (Ok (), st')
    /\ world st' = world st
    /\ fst (_get_target_file "" (self st')) = Ok (VStr p)
    /\ (label <> [] -> fst (_get_target_file label (self st')) = Ok (VStr p)).
Proof.
  intros Hts Hrules. unfold _add_default_target_file.
  unfold mbind, method_bind, bind. rewrite modify_self_keeps_world.
  set (st1 := {| self := _; world := world st |}).
  assert (dict_get (data (self st1)) "targets" = Some (VDict ts)) as Hts1.
  { unfold st1. cbn [self update attrs data set_data].
    by rewrite dict_get_set, bool_decide_eq_false_2 by discriminate. }
  assert (dict_get (data (self st1)) "default_target" = Some (VStr p)) as Hv1.
  { unfold st1. cbn [self update attrs data set_data].
    by rewrite dict_get_set, bool_decide_eq_true_2. }
  rewrite (add_target_file_cases _ _ _ _ _ Hts1 Hv1).
  eexists. split; [reflexivity|]. split; [done|]. cbn [self].
  set (t' := update _ (self st1)).
  assert (build_rules t' = Some rules) as Hrules' by done.
  split.
  - rewrite (get_target_file_generated _ _ _ Hrules'). cbn [negb fst bool_decide].
    rewrite bool_decide_eq_true_2 by done. cbn [negb].
    unfold t'. cbn [update attrs data set_data]. cbn [falsy].
    case_bool_decide as Hp.
    + rewrite dict_get_set, bool_decide_eq_true_2 by done. done.
    + rewrite dict_get_set, bool_decide_eq_false_2 by discriminate.
      rewrite Hv1. done.
  - intros Hlabel. rewrite (get_target_file_generated _ _ _ Hrules').
    rewrite bool_decide_eq_false_2 by done. cbn [negb fst].
    unfold t'. cbn [update attrs data set_data]. destruct (falsy (VStr p)).
    + rewrite dict_get_set, bool_decide_eq_false_2 by discriminate.
      rewrite !dict_get_set, bool_decide_eq_true_2 by done.
      by rewrite dict_get_set, bool_decide_eq_true_2.
    + rewrite dict_get_set, bool_decide_eq_true_2 by done.
      by rewrite dict_get_set, bool_decide_eq_true_2.
Qed.

End TargetFiles.

(** ** Rule emission: what a routine leaves *)

Section Emissions.




End Emissions.



Lemma add_target_file_round_trip_witness :
  let st := {| self := example_built; world := example_world "a" |} in
  let st1 := snd (_add_target_file "a" "build64_release/a/libx.a" st) in
  let st2 := snd (_add_target_file "so" "build64_release/a/libx.so" st1) in
  fst (_get_target_file "a" (self st2)) = Ok (VStr "build64_release/a/libx.a")
  /\ fst (_get_target_file "so" (self st2)) = Ok (VStr "build64_release/a/libx.so")
  /\ fst (_get_target_file "jar" (self st2)) = Ok (VStr "")
  /\ fst (_get_target_file "" (self st2)) = Ok (VStr "build64_release/a/libx.a").
Proof.
  intros st st1 st2.
  assert (exists rules ts, build_rules (self st1) = Some rules
            /\ dict_get (data (self st1)) "targets" = Some (VDict ts)
            /\ dict_get ts "jar" = None
            /\ dict_get (data (self st1)) "default_target"
               = Some (VStr "build64_release/a/libx.a")
            /\ fst (_get_target_file "a" (self st1)) = Ok (VStr "build64_release/a/libx.a"))
    as (rules & ts & Hrules & Hts & Hjar & Hv & Ha) by (vm_compute; eauto 10).
  destruct (add_target_file_round_trip "so" "build64_release/a/libx.so" st1 ts _ rules
              Hts Hv Hrules) as (st' & Hadd & _ & Hso & Hother & Hnone & Hdefault); [done|].
  assert (st2 = st') as -> by (unfold st2; by rewrite Hadd).
  split; [by rewrite Hother|]. split; [by rewrite Hso|]. split; [|exact Hdefault].
  rewrite Hother by done. by apply Hnone.
Defined.

Lemma add_default_target_file_effect_witness :
  let st := {| self := example_built; world := example_world "a" |} in
  let st1 := snd (_add_target_file "a" "build64_release/a/libx.a" st) in
  let st2 := snd (_add_default_target_file "so" "build64_release/a/libx.so" st1) in
  fst (_get_target_file "" (self st1)) = Ok (VStr "build64_release/a/libx.a")
  /\ fst (_get_target_file "" (self st2)) = Ok (VStr "build64_release/a/libx.so")
  /\ fst (_get_target_file "so" (self st2)) = Ok (VStr "build64_release/a/libx.so").
Proof.
  intros st st1 st2. split; [vm_compute; reflexivity|].
  assert (exists rules ts, build_rules (self st1) = Some rules
            /\ dict_get (data (self st1)) "targets" = Some (VDict ts))
    as (rules & ts & Hrules & Hts) by (vm_compute; eauto).
  destruct (add_default_target_file_effect "so" "build64_release/a/libx.so" st1 ts rules
              Hts Hrules) as (st' & Hadd & _ & Hdefault & Hso).
  assert (st2 = st') as -> by (unfold st2; by rewrite Hadd).
  split; [exact Hdefault|]. by apply Hso.
Defined.

(** ** Where the file paths lie *)

Section FilePaths.

Lemma split_app_sep sep (a b : str) :
  Py.split sep (a ++ sep :: b) = Py.split sep a ++ Py.split sep b.
Proof.
  induction a as [|c a IH]; simpl.
  - by rewrite Ascii.eqb_refl.
  - rewrite IH. destruct (Ascii.eqb c sep); [done|].
    pose proof (split_nonempty sep a) as Hne.
    by destruct (Py.split sep a).
Qed.

Lemma split_head_prefix sep (s h : str) t :
  Py.split sep s = h :: t -> Py.startswith s h = true.
Proof.
  revert h t. induction s as [|c s IH]; intros h t; simpl.
  - by intros [= <- <-].
  - destruct (Ascii.eqb c sep); [by intros [= <- <-]|].
    destruct (Py.split sep s) as [|h' t'] eqn:Hs.
    + intros [= <- <-]. simpl. by rewrite Ascii.eqb_refl.
    + intros [= <- <-]. simpl. by rewrite Ascii.eqb_refl, (IH h' t').
Qed.

Lemma startswith_nil (s : str) : Py.startswith s [] = true.
Proof. by destruct s. Qed.

Lemma split_elem_contains sep (s c : str) :
  c ∈ Py.split sep s -> Py.contains s c = true.
Proof.
  induction s as [|a s IH]; simpl.
  - intros ->%list_elem_of_singleton. reflexivity.
  - destruct (Ascii.eqb a sep).
    + intros [->|Hc]%elem_of_cons; [by rewrite startswith_nil|].
      rewrite (IH Hc). apply orb_true_r.
    + destruct (Py.split sep s) as [|h t] eqn:Hs.
      * by destruct (split_nonempty sep s).
      * intros [->|Hc]%elem_of_cons.
        -- simpl. by rewrite Ascii.eqb_refl, (split_head_prefix _ _ _ _ Hs).
        -- rewrite IH; [apply orb_true_r|]. by apply elem_of_cons; right.
Qed.

Lemma valid_src_relative (s : str) :
  valid_src s -> Py.startswith s "/" = false /\ (".." : str) ∉ Py.split "/" s.
Proof.
  unfold valid_src. intros [Hc Hs]%orb_false_elim. split; [done|].
  intros Hin. apply split_elem_contains in Hin. congruence.
Qed.

Lemma fold_without_dotdot k comps : forall acc,
  (".." : str) ∉ comps ->
  fold_left (PosixPath.normpath_step k) comps acc
  = acc ++ filter (fun c : str => c <> [] /\ c <> ".") comps.
Proof.
  induction comps as [|c comps IH]; intros acc Hno; simpl.
  - by rewrite app_nil_r.
  - apply not_elem_of_cons in Hno as [Hc Hno]. rewrite IH by done.
    unfold PosixPath.normpath_step.
    destruct (decide (c = [])) as [->|H1].
    { rewrite bool_decide_eq_true_2 by done. simpl.
      rewrite filter_cons_False by (intros []; done). done. }
    destruct (decide (c = ".")) as [->|H2].
    { rewrite filter_cons_False by (intros []; done). done. }
    rewrite (bool_decide_eq_false_2 (c = [])), (bool_decide_eq_false_2 (c = ".")),
      (bool_decide_eq_false_2 (c = "..")) by done.
    simpl. rewrite filter_cons_True by done. by rewrite <- app_assoc.
Qed.

Lemma endswith_char (X : str) c :
  Py.endswith X [c] = true -> exists X', X = X' ++ [c].
Proof.
  unfold Py.endswith. destruct X as [|a X' _] using rev_ind; [done|].
  rewrite rev_app_distr. simpl. intros [Ha _]%andb_true_iff.
  apply Ascii.eqb_eq in Ha as ->. eauto.
Qed.

Lemma join_relative (X f : str) :
  Py.startswith f "/" = false -> X <> [] ->
  exists g, PosixPath.join X f = X ++ g
    /\ (Py.endswith X "/" = true -> g = f)
    /\ (Py.endswith X "/" = false -> g = "/"%char :: f).
Proof.
  intros Hf HX. unfold PosixPath.join. rewrite Hf.
  rewrite (bool_decide_eq_false_2 (X = [])) by done. cbn [orb].
  destruct (Py.endswith X "/");
    [exists f|exists ("/"%char :: f)]; (split; [reflexivity|]); split; done.
Qed.

Lemma initial_slashes_join (X f : str) :
  Py.startswith f "/" = false ->
  PosixPath.initial_slashes (PosixPath.join X f) = PosixPath.initial_slashes X.
Proof.
  intros Hf. destruct X as [|a X1].
  { change (PosixPath.join [] f) with (if Py.startswith f "/" then f else f).
    rewrite Hf. unfold PosixPath.initial_slashes. by rewrite Hf. }
  destruct (join_relative (a :: X1) f Hf) as (g & -> & Hend & Hmid); [done|].
  unfold PosixPath.initial_slashes.
  change (Py.startswith ((a :: X1) ++ g) "/") with (Ascii.eqb "/" a && true).
  change (Py.startswith (a :: X1) "/") with (Ascii.eqb "/" a && true).
  destruct (Ascii.eqb_spec "/"%char a) as [<-|Ha]; [|done]. cbn [andb].
  destruct X1 as [|b X2].
  { rewrite (Hend eq_refl).
    change (Py.startswith (["/"%char] ++ f) "//") with (Py.startswith f "/").
    by rewrite Hf. }
  change (Py.startswith (("/"%char :: b :: X2) ++ g) "//")
    with (Ascii.eqb "/" b && true).
  change (Py.startswith ("/"%char :: b :: X2) "//") with (Ascii.eqb "/" b && true).
  destruct (Ascii.eqb_spec "/"%char b) as [<-|Hb]; [|done]. cbn [andb].
  destruct X2 as [|c X3].
  { rewrite (Hend eq_refl).
    change (Py.startswith (["/"%char; "/"%char] ++ f) "///") with (Py.startswith f "/").
    by rewrite Hf. }
  reflexivity.
Qed.

Lemma step_empty k acc : PosixPath.normpath_step k acc [] = acc.
Proof. reflexivity. Qed.

Lemma normpath_comps_join (X f : str) :
  Py.startswith f "/" = false -> (".." : str) ∉ Py.split "/" f ->
  PosixPath.normpath_comps (PosixPath.join X f)
  = PosixPath.normpath_comps X ++ components f.
Proof.
  intros Hf Hno. unfold PosixPath.normpath_comps.
  rewrite (initial_slashes_join X f Hf).
  set (k := PosixPath.initial_slashes X).
  destruct (decide (X = [])) as [->|HX].
  { change (PosixPath.join [] f) with (if Py.startswith f "/" then f else f).
    rewrite Hf. by rewrite fold_without_dotdot. }
  destruct (join_relative X f Hf HX) as (g & -> & Hend & Hmid).
  destruct (Py.endswith X "/") eqn:He.
  - rewrite (Hend eq_refl). apply endswith_char in He as [X' ->].
    rewrite <- app_assoc. change (["/"%char] ++ f) with ("/"%char :: f).
    rewrite !split_app_sep, !fold_left_app. simpl.
    by rewrite fold_without_dotdot.
  - rewrite (Hmid eq_refl), split_app_sep, fold_left_app.
    by rewrite fold_without_dotdot.
Qed.

Lemma join_app_sep (l1 l2 : list str) :
  l1 <> [] -> l2 <> [] ->
  Py.join "/" (l1 ++ l2) = Py.join "/" l1 ++ "/"%char :: Py.join "/" l2.
Proof.
  induction l1 as [|x l1 IH]; [done|]. intros _ H2.
  destruct l1 as [|y l1].
  - simpl. destruct l2; [done|]. reflexivity.
  - change (Py.join "/" ((x :: y :: l1) ++ l2))
      with (x ++ "/"%char :: Py.join "/" ((y :: l1) ++ l2)).
    rewrite IH by done.
    change (Py.join "/" (x :: y :: l1)) with (x ++ "/"%char :: Py.join "/" (y :: l1)).
    by rewrite <- app_assoc.
Qed.

Lemma join_last_char (l : list str) :
  l <> [] -> Forall (fun c : str => c <> [] /\ Py.has_char "/" c = false) l ->
  exists s ch, Py.join "/" l = s ++ [ch] /\ ch <> "/"%char.
Proof.
  induction l as [|x l IH]; [done|]. intros _ [[Hx Hs] Hl]%Forall_cons.
  destruct l as [|y l].
  - destruct x as [|ch x' _] using rev_ind; [done|]. exists x', ch. split; [done|].
    intros ->. unfold Py.has_char in Hs. rewrite existsb_app in Hs. simpl in Hs.
    by rewrite orb_true_r in Hs.
  - destruct IH as (s & ch & Heq & Hch); [done|done|].
    exists (x ++ "/"%char :: s), ch. split; [|done].
    change (Py.join "/" (x :: y :: l)) with (x ++ "/"%char :: Py.join "/" (y :: l)).
    rewrite Heq. by rewrite <- app_assoc.
Qed.

Lemma join_first_char (l : list str) :
  Forall (fun c : str => c <> [] /\ Py.has_char "/" c = false) l ->
  Py.startswith (Py.join "/" l) "/" = false.
Proof.
  destruct l as [|x l]; [done|]. intros [[Hx Hs] _]%Forall_cons.
  destruct x as [|a x]; [done|].
  assert (Ascii.eqb "/" a = false) as Ha by (simpl in Hs; by apply orb_false_elim in Hs as []).
  assert (forall t : str, Py.startswith (a :: t) "/" = (Ascii.eqb "/" a && true)) as Hs1
    by done.
  destruct l; cbn [Py.join app]; by rewrite Hs1, Ha.
Qed.

Lemma normal_components k l :
  normal k l -> Forall (fun c : str => c <> [] /\ Py.has_char "/" c = false) l.
Proof.
  induction 1 as [|l Hk Hl|l c Hn IH Hc].
  - constructor.
  - apply Forall_app. split; [|by repeat constructor].
    eapply Forall_impl; [exact Hl|]. by intros c ->.
  - apply Forall_app. split; [done|]. destruct Hc as (H1 & _ & _ & H4).
    by repeat constructor.
Qed.

Lemma components_kept (s : str) :
  Forall (fun c : str => c <> [] /\ Py.has_char "/" c = false) (components s).
Proof.
  unfold components. apply Forall_forall. intros c [[Hc _] Hin]%list_elem_of_filter.
  split; [done|].
  pose proof (split_parts_no_sep "/" s) as Hall.
  by apply (proj1 (Forall_forall _ _) Hall).
Qed.

Lemma normal_no_dot k l : normal k l -> ("." : str) ∉ l.
Proof.
  induction 1 as [|l Hk Hl|l c Hn IH Hc].
  - apply not_elem_of_nil.
  - intros [Hin|Hin]%elem_of_app.
    + by apply (proj1 (Forall_forall _ _) Hl) in Hin.
    + by apply list_elem_of_singleton in Hin.
  - intros [Hin|Hin]%elem_of_app; [done|].
    apply list_elem_of_singleton in Hin. destruct Hc as (_ & H2 & _). done.
Qed.

Lemma join_not_dot k l : normal k l -> Py.join "/" l <> ".".
Proof.
  intros Hn Heq. pose proof (normal_no_dot _ _ Hn) as Hdot.
  destruct l as [|x [|y l]].
  - discriminate.
  - simpl in Heq. subst x. apply Hdot. by apply list_elem_of_singleton.
  - change (Py.join "/" (x :: y :: l)) with (x ++ "/"%char :: Py.join "/" (y :: l)) in Heq.
    destruct x as [|a [|b x]]; discriminate.
Qed.

Lemma normpath_unfold (Y : str) :
  PosixPath.normpath Y
  = let P := concat (repeat ("/" : str) (PosixPath.initial_slashes Y))
             ++ Py.join "/" (PosixPath.normpath_comps Y) in
    if bool_decide (P = []) then "." else P.
Proof.
  unfold PosixPath.normpath. case_bool_decide as HY; [by subst Y|done].
Qed.

(** [normpath] of a path joined with a relative path that has no [..]
    component *)
Lemma normpath_join (X f : str) :
  Py.startswith f "/" = false -> (".." : str) ∉ Py.split "/" f ->
  PosixPath.normpath (PosixPath.join X f)
  = below (PosixPath.normpath X) (components f).
Proof.
  intros Hf Hno.
  rewrite !normpath_unfold. cbv zeta.
  rewrite (normpath_comps_join X f Hf Hno), (initial_slashes_join X f Hf).
  pose proof (normpath_comps_normal X) as Hnormal.
  pose proof (normal_components _ _ Hnormal) as Hcs.
  pose proof (components_kept f) as Hkept.
  pose proof (initial_slashes_cases X) as Hcases.
  set (k := PosixPath.initial_slashes X) in *.
  set (cs := PosixPath.normpath_comps X) in *.
  set (rest := components f) in *.
  unfold below. destruct (decide (rest = [])) as [Hrest|Hrest].
  { by rewrite Hrest, (app_nil_r cs). }
  rewrite (bool_decide_eq_false_2 (rest = [])) by done.
  assert (exists s ch, Py.join "/" (cs ++ rest) = s ++ [ch]) as (s' & ch' & Hlast').
  { destruct (join_last_char (cs ++ rest)) as (s & ch & H1 & _); eauto.
    - by destruct cs.
    - by apply Forall_app. }
  rewrite (bool_decide_eq_false_2 (_ ++ Py.join "/" (cs ++ rest) = []))
    by (rewrite Hlast', app_assoc; by destruct (_ ++ s')).
  pose proof (join_first_char rest Hkept) as Hfirst.
  destruct (decide (cs = [])) as [Hnil|Hne].
  - rewrite Hnil. cbn [app Py.join]. rewrite app_nil_r.
    destruct Hcases as [->|[-> | ->]]; [done| |];
      unfold PosixPath.join; rewrite Hfirst; reflexivity.
  - destruct (join_last_char cs Hne Hcs) as (s & ch & Hlast & Hch).
    assert (concat (repeat ("/" : str) k) ++ Py.join "/" cs <> []) as HP
      by (rewrite Hlast, app_assoc; by destruct (_ ++ s)).
    rewrite (bool_decide_eq_false_2 _ HP).
    assert (concat (repeat ("/" : str) k) ++ Py.join "/" cs <> ".") as Hdot.
    { intros Heq. destruct Hcases as [Hk|[Hk|Hk]]; rewrite Hk in Heq.
      - by apply (join_not_dot k cs).
      - discriminate.
      - discriminate. }
    rewrite (bool_decide_eq_false_2 _ Hdot).
    unfold PosixPath.join. rewrite Hfirst, (bool_decide_eq_false_2 _ HP). cbn [orb].
    assert (Py.endswith (concat (repeat ("/" : str) k) ++ Py.join "/" cs) "/" = false) as ->.
    { rewrite Hlast, app_assoc. unfold Py.endswith. rewrite rev_app_distr.
      change (Py.startswith (rev [ch] ++ rev (concat (repeat ("/" : str) k) ++ s)) (rev "/"))
        with (Ascii.eqb "/" ch && true).
      rewrite andb_true_r. apply Ascii.eqb_neq. congruence. }
    rewrite join_app_sep by done. by rewrite <- app_assoc.
Qed.

End FilePaths.

Section FilePathTheorems.

(** A relative file name without [..] components gives a target file
    path below the directory of the target in the build directory: that
    directory, normalized, followed by the components of the name. A
    rooted file name is returned normalized, whatever the build
    directory is. *)
Theorem target_file_path_below build_dir file_name self :
  (Py.startswith file_name "/" = false ->
   (".." : str) ∉ Py.split "/" file_name ->
   _target_file_path build_dir file_name self
   = below (PosixPath.normpath (PosixPath.join build_dir (path self)))
       (components file_name))
  /\ (Py.startswith file_name "/" = true ->
      _target_file_path build_dir file_name self = PosixPath.normpath file_name).
Proof.
  unfold _target_file_path. split.
  - intros Hf Hno. by apply normpath_join.
  - intros Hf. unfold PosixPath.join at 1. by rewrite Hf.
Qed.

Context (E : Env).

(** Every source of a target that [_check_srcs] accepts has its full
    path below the directory of the target, the normalized directory
    followed by the components of the source, none of which is [..];
    the registry holds that path when the check returns. *)
Theorem accepted_sources_below st st' :
  _check_srcs E st = (Ok (), st') ->
  forall s, s ∈ srcs (self st) ->
    _source_file_path s (self st)
    = below (PosixPath.normpath (path (self st))) (components s)
    /\ ((".." : str) ∉ components s)
    /\ is_Some (src_target_map (world st') !! _source_file_path s (self st)).
Proof.
  intros Hcheck s Hs.
  destruct (check_srcs_ok E _ _ Hcheck) as [_ Hvalid].
  destruct (valid_src_relative s (proj1 (Forall_forall _ _) Hvalid s Hs)) as [Hrel Hno].
  split; [by apply normpath_join|]. split.
  - unfold components. intros [_ Hin]%list_elem_of_filter. done.
  - destruct (check_srcs_effect E _ _ _ Hcheck) as (_ & _ & Hown).
    unfold _source_file_path. fold (src_of (self st) s).
    rewrite (Hown eq_refl s Hs). eauto.
Qed.

End FilePathTheorems.

Lemma target_file_path_below_witness :
  _target_file_path "build64_release" "./obj//x.o" example_built
  = "build64_release/a/obj/x.o"
  /\ _target_file_path "build64_release" "/tmp/../x.o" example_built = "/x.o".
Proof.
  destruct (target_file_path_below "build64_release" "./obj//x.o" example_built)
    as [Hbelow _].
  destruct (target_file_path_below "build64_release" "/tmp/../x.o" example_built)
    as [_ Hrooted].
  split.
  - rewrite Hbelow; [reflexivity|reflexivity|].
    apply (bool_decide_unpack _). vm_compute. exact I.
  - rewrite Hrooted; reflexivity.
Defined.

Lemma accepted_sources_below_witness :
  let E := example_env "warning" in
  let st := constructing E Target_class "y" ["common.cc" : str; "sub/./y.cc" : str]
              (world_after E Target_class "x" ["common.cc" : str] (example_world "a")) in
  let st' := snd (_check_srcs E st) in
  _source_file_path "sub/./y.cc" (self st) = "a/sub/y.cc"
  /\ is_Some (src_target_map (world st') !! ("a/sub/y.cc" : str)).
Proof.
  intros E st st'.
  assert (_check_srcs E st = (Ok (), st')) as Hcheck.
  { unfold st'. apply (outcome_of_fst (_check_srcs E st)). vm_compute. reflexivity. }
  destruct (accepted_sources_below E st st' Hcheck "sub/./y.cc") as (Hpath & _ & Hreg).
  { apply (bool_decide_unpack _). vm_compute. exact I. }
  split.
  - rewrite Hpath. vm_compute. reflexivity.
  - assert (_source_file_path "sub/./y.cc" (self st) = "a/sub/y.cc") as Heq
      by (vm_compute; reflexivity).
    by rewrite Heq in Hreg.
Defined.
